(** * The IronTract tractography tool ([tool.py], function [run])

    A shallow embedding of the post-processing core of [run]: the length
    filter on the streamline bundle, the ROI connectivity filter, the
    visitation-count density map and the log-threshold loop that writes
    the operating-point volumes, together with the control flow of [run]
    around them (dataset dispatch, the two post-processing branches).

    Numbers.  The tool computes with numpy floating-point arrays.  The
    definitions below are written once over a small interface of
    arithmetic operations ([Arith]) and are read at these instances:
    - [spec_float] with IEEE-754 rounding, which evaluates by computation.
      The volumes are float32 arrays.  [Float.numpy1] and [Float.numpy2]
      follow numpy's two promotion rules: under numpy 1.x the scalars
      [max_density / 200], the length of [np.arange] and the thresholds
      are binary64 and a threshold is rounded to float32 when it is
      compared with the volume; under numpy 2 the step and the length are
      computed in float32, the thresholds are binary64 and the comparison
      is made in binary64.  [Float.binary64] and [Float.binary32] compute
      in one format throughout.
    - the real numbers, where rounding is abstracted away. *)

From Stdlib Require Import List ZArith String Ascii Bool Arith Lia.
From Stdlib Require Import DecimalString DecimalNat.
From Stdlib Require Import Reals Lra R_Ifp.
From Stdlib Require Import Floats.SpecFloat.
Import ListNotations.

Set Implicit Arguments.

(** ** Python exceptions and results *)

Inductive exn : Type :=
| UnboundLocalError (name : string)   (* a local read before any assignment *)
| IndexError                          (* [xs[0]] on an empty list *)
| ValueError (msg : string).          (* raised inside numpy *)

Inductive result (A : Type) : Type :=
| Ok (a : A)
| Raise (e : exn).

Arguments Ok {A} a.
Arguments Raise {A} e.

Definition rbind {A B} (r : result A) (k : A -> result B) : result B :=
  match r with
  | Ok a => k a
  | Raise e => Raise e
  end.

Declare Scope result_scope.
Delimit Scope result_scope with result.
Notation "x <- r ;; k" := (rbind r (fun x => k))
  (at level 61, r at next level, right associativity) : result_scope.

(** ** The arithmetic interface *)

(** The result of [_arange_safe_ceil_to_intp]. *)
Inductive intp : Type :=
| Intp (n : Z)        (* the ceiling, within the range of [npy_intp] *)
| NotANumber          (* the quotient is nan *)
| OutOfRange.         (* it is infinite, or its ceiling does not fit *)

Class Arith (num : Type) : Type := {
  of_int : Z -> num;                 (* conversion of a Python int *)
  add : num -> num -> num;
  sub : num -> num -> num;
  mul : num -> num -> num;
  div : num -> num -> num;
  sqrt : num -> num;
  ltb : num -> num -> bool;          (* [a < b] *)
  leb : num -> num -> bool;          (* [a <= b] *)
  (* [ceil (n / d)] converted to [npy_intp], as [np.arange] computes its
     length *)
  ceil_quot : num -> num -> intp
}.

(** [np.log10], available on the reals only. *)
Class Log10 (num : Type) : Type := log10 : num -> num.

(** *** IEEE-754 instance *)

Module Float.

(** [npy_ceil] followed by the checks of [_arange_safe_ceil_to_intp]. *)
Definition ceil_intp (x : spec_float) : intp :=
  match x with
  | S754_zero _ => Intp 0%Z
  | S754_finite s m e =>
      let n := if s then Zneg m else Zpos m in
      let c := match e with
               | Zneg k => (- ((- n) / 2 ^ Zpos k))%Z
               | _ => (n * 2 ^ e)%Z
               end in
      if ((- 2 ^ 63 <=? c) && (c <=? 2 ^ 63 - 1))%Z then Intp c
      else OutOfRange
  | S754_infinity _ => OutOfRange
  | S754_nan => NotANumber
  end.

Definition arith (prec emax : Z) : Arith spec_float := {|
  of_int z := binary_normalize prec emax z 0 false;
  add := SFadd prec emax;
  sub := SFsub prec emax;
  mul := SFmul prec emax;
  div := SFdiv prec emax;
  sqrt := SFsqrt prec emax;
  ltb := SFltb;
  leb := SFleb;
  ceil_quot n d := ceil_intp (SFdiv prec emax n d)
|}.

Definition binary64 : Arith spec_float := arith 53 1024.
Definition binary32 : Arith spec_float := arith 24 128.

(** Conversion of a value to the format [prec], [emax]: exact when the
    value fits, rounded to nearest even otherwise. *)
Definition convert (prec emax : Z) (x : spec_float) : spec_float :=
  match x with
  | S754_finite s m e => binary_round prec emax s m e
  | _ => x
  end.

Definition to_float32 : spec_float -> spec_float := convert 24 128.
Definition to_float64 : spec_float -> spec_float := convert 53 1024.

(** numpy 1.x (value-based casting).  A float32 scalar combined with a
    Python int gives a float64: [max_density / 200], the length and the
    entries of [np.arange] are binary64.  In [log_density >= t] the
    float64 scalar [t] takes the type of the float32 array: it is rounded
    to float32 and the comparison is made there. *)
Definition numpy1 : Arith spec_float := {|
  of_int z := binary_normalize 53 1024 z 0 false;
  add x y := SFadd 53 1024 (to_float64 x) (to_float64 y);
  sub x y := SFsub 53 1024 (to_float64 x) (to_float64 y);
  mul x y := SFmul 53 1024 (to_float64 x) (to_float64 y);
  div x y := SFdiv 53 1024 (to_float64 x) (to_float64 y);
  sqrt x := SFsqrt 53 1024 (to_float64 x);
  ltb x y := SFltb (to_float64 x) (to_float64 y);
  leb t v := SFleb (to_float32 t) (to_float32 v);
  ceil_quot n d := ceil_intp (SFdiv 53 1024 (to_float64 n) (to_float64 d))
|}.

(** numpy 2 (NEP 50).  A Python int takes the type of the float32 scalar:
    [max_density / 200] and the quotient that gives the length of
    [np.arange] are float32.  The array of [np.arange] is float64 and is
    filled in binary64, and [log_density >= t] with a float64 scalar is
    compared in binary64. *)
Definition numpy2 : Arith spec_float := {|
  of_int z := binary_normalize 53 1024 z 0 false;
  add x y := SFadd 53 1024 (to_float64 x) (to_float64 y);
  sub x y := SFsub 53 1024 (to_float64 x) (to_float64 y);
  mul x y := SFmul 53 1024 (to_float64 x) (to_float64 y);
  div x y := SFdiv 24 128 (to_float32 x) (to_float32 y);
  sqrt x := SFsqrt 53 1024 (to_float64 x);
  ltb x y := SFltb (to_float64 x) (to_float64 y);
  leb t v := SFleb (to_float64 t) (to_float64 v);
  ceil_quot n d := ceil_intp (SFdiv 24 128 (to_float32 n) (to_float32 d))
|}.

End Float.

(** *** Exact instance *)

Module Exact.

Definition Rceil (x : R) : Z := (1 - up (- x))%Z.

Definition Rltb (a b : R) : bool := if Rlt_dec a b then true else false.
Definition Rleb (a b : R) : bool := if Rle_dec a b then true else false.

#[export] Instance arith : Arith R := {|
  of_int := IZR;
  add := Rplus;
  sub := Rminus;
  mul := Rmult;
  div := Rdiv;
  sqrt := R_sqrt.sqrt;
  ltb := Rltb;
  leb := Rleb;
  (* a zero divisor makes the floating-point quotient nan (0 / 0) or
     infinite *)
  ceil_quot n d :=
    if Req_dec_T d 0 then
      if Req_dec_T n 0 then NotANumber else OutOfRange
    else Intp (Rceil (n / d))
|}.

#[export] Instance Rlog10 : Log10 R := fun x => (ln x / ln 10)%R.

End Exact.

(** ** numpy operations used by the threshold loop *)

Section Quantizer.

Context {num : Type} {A : Arith num}.

(** numpy's [maximum]: [a] when it is nan or greater than [b], else
    [b]. *)
Definition maximum (a b : num) : num :=
  if negb (leb a a) then a else if ltb b a then a else b.

(** [np.max] of a volume: raises on a zero-size array. *)
Definition np_max (a : list num) : result num :=
  match a with
  | [] => Raise (ValueError
      "zero-size array to reduction operation maximum which has no identity")
  | x :: r => Ok (fold_left maximum r x)
  end.

(** [np.arange(start, stop, step)] on floating-point arguments: the length
    is [ceil((stop - start) / step)]; the buffer holds [start], then
    [start + step], and is filled with [start + i * delta] where [delta]
    is the difference of the first two entries.  A quotient that is nan
    raises [ValueError: arange: cannot compute length]; an infinite one,
    or a ceiling out of range, raises [OverflowError], which
    [PyArray_ArangeObj] turns into [ValueError: Maximum allowed size
    exceeded].  (numpy's rule for a zero quotient of a nonzero difference
    does not apply to the call of the tool, whose step is [stop / 200].) *)
Definition arange_item (start next : num) (i : nat) : num :=
  match i with
  | O => start
  | S O => next
  | _ => add start (mul (of_int (Z.of_nat i)) (sub next start))
  end.

Definition arange (start stop step : num) : result (list num) :=
  match ceil_quot (sub stop start) step with
  | NotANumber => Raise (ValueError "arange: cannot compute length")
  | OutOfRange => Raise (ValueError "Maximum allowed size exceeded")
  | Intp len =>
      if (len <=? 0)%Z then Ok []
      else Ok (map (arange_item start (add start step))
                   (seq 0 (Z.to_nat len)))
  end.

(** [mask.astype("int32")] *)
Definition astype_int32 (mask : list bool) : list Z :=
  map (fun b : bool => if b then 1%Z else 0%Z) mask.

(** [log_density >= t], with the comparison of the arithmetic: numpy
    chooses the format in which a float32 array and a float64 scalar are
    compared (see [Float.numpy1] and [Float.numpy2]). *)
Definition ge_mask (log_density : list num) (t : num) : list bool :=
  map (fun v => leb t v) log_density.

(** One written volume: the index [i], the threshold [t] and the voxels. *)
Record volume : Type := Volume {
  vol_index : nat;
  vol_threshold : num;
  vol_data : list Z
}.

Definition enumerate {X} (l : list X) : list (nat * X) :=
  combine (seq 0 (List.length l)) l.

(** Lines 179-187 (and 210-218): the loop over the thresholds. *)
Definition threshold_loop (log_density : list num) : result (list volume) :=
  (max_density <- np_max log_density ;;
   ts <- arange (of_int 0) max_density (div max_density (of_int 200)) ;;
   Ok (map (fun it : nat * num =>
              Volume (fst it) (snd it)
                     (astype_int32 (ge_mask log_density (snd it))))
           (enumerate ts)))%result.

End Quantizer.

(** ** Streamline bundles *)

Section Tool.

Context {num : Type} {A : Arith num} {L : Log10 num}.

Definition point : Type := num * num * num.
Definition streamline : Type := list point.
Definition bundle : Type := list streamline.

Definition sq (x : num) : num := mul x x.

Definition dist (p q : point) : num :=
  let '(px, py, pz) := p in
  let '(qx, qy, qz) := q in
  sqrt (add (add (sq (sub qx px)) (sq (sub qy py))) (sq (sub qz pz))).

(** Modelled from the spec: [dipy.tracking.streamlinespeed.length] is
    library code; the length of a streamline is the sum of its
    consecutive point-to-point Euclidean distances. *)
Fixpoint length (s : streamline) : num :=
  match s with
  | p :: (q :: _) as r => add (dist p q) (length r)
  | _ => of_int 0
  end.

(** [xs[mask]] with a boolean mask of the same length. *)
Fixpoint index_mask {X} (xs : list X) (mask : list bool) : list X :=
  match xs, mask with
  | x :: xs', b :: mask' =>
      if b then x :: index_mask xs' mask' else index_mask xs' mask'
  | _, _ => []
  end.

(** [lengths = length(streamlines); streamlines[lengths > m]].  The tool
    has [m = 1] (lines 173-174 and 196-197). *)
Definition length_filter_at (m : num) (streamlines : bundle) : bundle :=
  let lengths := map length streamlines in
  index_mask streamlines (map (fun l => ltb m l) lengths).

Definition length_filter : bundle -> bundle := length_filter_at (of_int 1).

(** *** Voxel grid *)

(** Flat index of the voxel that holds each point of a streamline
    (dipy's [_to_voxel_coordinates] under the affine of the seed mask). *)
Variable to_voxel_coordinates : streamline -> list nat.

(** Number of voxels of [seed_mask_img.shape]. *)
Variable nvox : nat.

Definition visits (v : nat) (s : streamline) : bool :=
  existsb (Nat.eqb v) (to_voxel_coordinates s).

(** Modelled from the spec: [dipy.tracking.utils.density_map] is library
    code; for every voxel, count how many streamlines pass through it,
    a streamline counting once for a voxel however many of its points
    fall there. *)
Definition density_map (streamlines : bundle) : list Z :=
  map (fun v => Z.of_nat (List.length (filter (visits v) streamlines)))
      (seq 0 nvox).

Definition total_count (density : list Z) : Z := fold_right Z.add 0%Z density.

(** *** ROI connectivity *)

(** The label volume [rois], flattened. *)
Variable rois : list Z.

(** Which label values take part in the grouping.  The spec speaks of the
    distinct non-zero labels a streamline passes through and names the
    target pair (0, 1); the predicate is kept as a parameter so that both
    readings are covered. *)
Variable counted : Z -> bool.

Fixpoint distinct (seen l : list Z) : list Z :=
  match l with
  | [] => []
  | x :: r =>
      if existsb (Z.eqb x) seen then distinct seen r
      else x :: distinct (x :: seen) r
  end.

Definition labels_through (s : streamline) : list Z :=
  distinct [] (filter counted
                      (map (fun v => nth v rois 0%Z) (to_voxel_coordinates s))).

Fixpoint combinations2 {X} (l : list X) : list (X * X) :=
  match l with
  | [] => []
  | x :: r => map (pair x) r ++ combinations2 r
  end.

Definition sort_pair (p : Z * Z) : Z * Z :=
  if (fst p <=? snd p)%Z then p else (snd p, fst p).

Definition pair_eqb (p q : Z * Z) : bool :=
  ((fst p =? fst q) && (snd p =? snd q))%Z.

Definition edges_of (sl : nat) (s : streamline) : list (Z * Z * nat) :=
  map (fun p => (sort_pair p, sl)) (combinations2 (labels_through s)).

Definition edges (streamlines : bundle) : list (Z * Z * nat) :=
  flat_map (fun it : nat * streamline => edges_of (fst it) (snd it))
           (enumerate streamlines).

(** Modelled from the spec: [dipy.tracking.utils.connectivity_matrix] is
    library code; streamlines are grouped by the unordered pair of labels
    they connect, every pair of distinct labels a streamline passes
    through (anywhere along its length) putting its index in that pair's
    group.  A pair that no streamline connects has the empty group. *)
Definition grouping (streamlines : bundle) (key : Z * Z) : list nat :=
  map snd (filter (fun e => pair_eqb (fst e) key) (edges streamlines)).

(** [xs[indices]] with a list of positions. *)
Definition index_list {X} (xs : list X) (indices : list nat) : list X :=
  flat_map (fun i => match nth_error xs i with
                     | Some x => [x]
                     | None => []
                     end) indices.

(** Line 204: [streamlines[grouping[(0, 1)]]]. *)
Definition connectivity_filter (streamlines : bundle) : bundle :=
  index_list streamlines (grouping streamlines (0%Z, 1%Z)).

(** *** The density quantizer *)

(** [scipy.ndimage.gaussian_filter(_, 0.5)] on the flattened volume. *)
Variable gaussian_filter : list num -> list num.

(** Lines 178 and 209: [np.log10(density + 1)]. *)
Definition log_transform (density : list num) : list num :=
  map (fun d => log10 (add d (of_int 1))) density.

(** Lines 175-187 (and 206-218) up to the writing of the files. *)
Definition density_volumes (streamlines : bundle) : result (list volume) :=
  let density := density_map streamlines in
  let density := gaussian_filter (map of_int density) in
  let log_density := log_transform density in
  threshold_loop log_density.

(** *** Effects of [run] *)

Local Open Scope string_scope.

Inductive event : Type :=
| SetProgress (message : string)
| Download (file : string)
| Mkdir (path : string)
(* [Nifti1Image(data, ...).to_filename(folder/vol<nbr>_t<str(t)>.nii.gz)] *)
| ToFilename (folder nbr : string) (t : num) (data : list Z)
| MakeArchive (base_name root_dir : string)
| UploadFile (path name : string).

(** A run leaves a trace of effects and ends normally or by an exception. *)
Definition prog (X : Type) : Type := list event * result X.

Definition ret {X} (x : X) : prog X := ([], Ok x).

Definition bind {X Y} (m : prog X) (k : X -> prog Y) : prog Y :=
  match m with
  | (tr, Ok x) => let (tr', r) := k x in ((tr ++ tr')%list, r)
  | (tr, Raise e) => (tr, Raise e)
  end.

Definition emit (e : event) : prog unit := ([e], Ok tt).

Definition lift {X} (r : result X) : prog X := ([], r).

Notation "x <-- m ;; k" := (bind m (fun x => k))
  (at level 61, m at next level, right associativity).
Notation "m ;;; k" := (bind m (fun _ => k))
  (at level 61, right associativity).

Definition trace {X} (m : prog X) : list event := fst m.
Definition outcome {X} (m : prog X) : result X := snd m.

(** Reading a local that may not have been assigned. *)
Definition read_local {X} (name : string) (v : option X) : prog X :=
  match v with
  | Some x => ret x
  | None => lift (Raise (UnboundLocalError name))
  end.

(** *** Input files *)

Inductive query : Type :=
| Modality (modality : string)
| RegExpression (reg_expression : string).

(** [context.get_files('input', ...)]: the names of the matching files. *)
Variable get_files : query -> list string.

(** [context.get_files('input', q)[0].download('/root/')] *)
Definition fetch (q : query) : prog string :=
  match get_files q with
  | [] => lift (Raise IndexError)
  | file :: _ => emit (Download file) ;;; ret ("/root/" ++ file)%string
  end.

Record dwi_paths : Type := DwiPaths {
  dwi_file_path : string;
  bvalues_file_path : string;
  bvecs_file_path : string
}.

(** Lines 36-56.  In the last branch the three locals stay unassigned. *)
Definition fetch_dwi (dataset : string) : prog (option dwi_paths) :=
  if String.eqb dataset "HCPL" then
    dwi <-- fetch (Modality "HARDI") ;;
    bvalues <-- fetch (RegExpression ".*prep.bvalues.hcpl.txt") ;;
    bvecs <-- fetch (RegExpression ".*prep.gradients.hcpl.txt") ;;
    ret (Some (DwiPaths dwi bvalues bvecs))
  else if String.eqb dataset "DSI" then
    dwi <-- fetch (Modality "DSI") ;;
    bvalues <-- fetch (RegExpression ".*prep.bvalues.txt") ;;
    bvecs <-- fetch (RegExpression ".*prep.gradients.txt") ;;
    ret (Some (DwiPaths dwi bvalues bvecs))
  else
    emit (SetProgress "Wrong dataset parameter") ;;; ret None.

(** *** Direction field *)

Inductive direction_getter : Type :=
| from_shcoeff      (* CSD coefficients, [pmf_threshold=0.1] *)
| from_pmf.         (* DSI ODFs, [pmf_threshold=0.01] *)

(** Lines 121-145: an [if]/[elif] without [else]. *)
Definition make_direction_getter (dataset : string)
  : prog (option direction_getter) :=
  if String.eqb dataset "HCPL" then
    emit (SetProgress "Processing voxel-wise FOD estimation.") ;;;
    ret (Some from_shcoeff)
  else if String.eqb dataset "DSI" then
    emit (SetProgress "Processing voxel-wise DSI estimation.") ;;;
    ret (Some from_pmf)
  else ret None.

(** [Streamlines(LocalTracking(prob_dg, ...))] on the loaded data. *)
Variable local_tracking : dwi_paths -> direction_getter -> bundle.

(** *** Post-processing *)

Definition str (n : nat) : string := NilEmpty.string_of_uint (Nat.to_uint n).

Definition zfill (width : nat) (s : string) : string :=
  (string_of_list_ascii (repeat "0"%char (width - String.length s)) ++ s)%string.

Fixpoint write_volumes (volume_folder : string) (vols : list volume)
  : prog unit :=
  match vols with
  | [] => ret tt
  | v :: vols' =>
      emit (ToFilename volume_folder (zfill 3 (str (vol_index v)))
                       (vol_threshold v) (vol_data v)) ;;;
      write_volumes volume_folder vols'
  end.

Definition member (s : string) (l : list string) : bool :=
  existsb (String.eqb s) l.

(** Lines 169-188; returns the rebound local [streamlines]. *)
Definition epfl_branch (streamlines : bundle) : prog bundle :=
  emit (SetProgress "Processing density map (EPFL)") ;;;
  emit (Mkdir "/root/vol_epfl") ;;;
  let streamlines := length_filter streamlines in
  vols <-- lift (density_volumes streamlines) ;;
  write_volumes "/root/vol_epfl" vols ;;;
  emit (MakeArchive "/root/TrackyMcTrackface_EPFL_example" "/root/vol_epfl") ;;;
  ret streamlines.

(** Lines 196-197: the bundle handed to [connectivity_matrix]. *)
Definition vumc_connectivity_input (streamlines : bundle) : bundle :=
  length_filter streamlines.

(** Lines 191-219. *)
Definition vumc_branch (streamlines : bundle) : prog bundle :=
  emit (SetProgress "Processing density map (VUMC)") ;;;
  emit (Mkdir "/root/vol_vumc") ;;;
  let streamlines := vumc_connectivity_input streamlines in
  let streamlines := connectivity_filter streamlines in
  vols <-- lift (density_volumes streamlines) ;;
  write_volumes "/root/vol_vumc" vols ;;;
  emit (MakeArchive "/root/TrackyMcTrackface_VUMC_example" "/root/vol_vumc") ;;;
  ret streamlines.

Definition when {X} (b : bool) (m : X -> prog X) (x : X) : prog X :=
  if b then m x else ret x.

(** Lines 168-219. *)
Definition postprocess (postprocessing : string) (streamlines : bundle)
  : prog bundle :=
  streamlines <-- when (member postprocessing ["EPFL"; "ALL"])
                       epfl_branch streamlines ;;
  when (member postprocessing ["VUMC"; "ALL"]) vumc_branch streamlines.

(** Lines 224-233. *)
Definition upload (postprocessing dataset : string) : prog unit :=
  emit (SetProgress "Uploading results...") ;;;
  (if member postprocessing ["EPFL"; "ALL"] then
     emit (UploadFile "/root/TrackyMcTrackface_EPFL_example.zip"
                      ("TrackyMcTrackface_" ++ dataset ++ "_EPFL.zip"))
   else ret tt) ;;;
  (if member postprocessing ["VUMC"; "ALL"] then
     emit (UploadFile "/root/TrackyMcTrackface_VUMC_example.zip"
                      ("TrackyMcTrackface_" ++ dataset ++ "_VUMC.zip"))
   else ret tt).

Record settings : Type := Settings {
  postprocessing : string;
  dataset : string
}.

Definition run (s : settings) : prog unit :=
  paths <-- fetch_dwi (dataset s) ;;
  _ <-- fetch (RegExpression ".*prep.inject.nii.gz") ;;
  _ <-- fetch (RegExpression ".*VUMC_ROIs.nii.gz") ;;
  (* line 93: [nib.load(dwi_file_path)] *)
  paths <-- read_local "dwi_file_path" paths ;;
  emit (SetProgress "Processing voxel-wise DTI metrics.") ;;;
  prob_dg <-- make_direction_getter (dataset s) ;;
  emit (SetProgress "Processing tractography.") ;;;
  (* line 151: [LocalTracking(prob_dg, ...)] *)
  prob_dg <-- read_local "prob_dg" prob_dg ;;
  let streamlines := local_tracking paths prob_dg in
  _ <-- postprocess (postprocessing s) streamlines ;;
  upload (postprocessing s) (dataset s).

End Tool.

(** ** Particular volumes, streamlines and inputs *)

Import Exact.

(** The thresholds [i * (M / 200)] for [i = 0 .. 199]. *)
Definition exact_threshold (M : R) (i : nat) : R :=
  (IZR (Z.of_nat i) * (M / 200))%R.

Definition exact_volume (ld : list R) (M : R) (i : nat) : @volume R :=
  Volume i (exact_threshold M i)
         (astype_int32 (ge_mask ld (exact_threshold M i))).

(** The float32 value [0.8148418068885803], as a binary64 number. *)
Definition M64 : spec_float :=
  S754_finite false 0x1a132f20000000 (-53).

(** The float32 value [3.1695032119750977]. *)
Definition M32 : spec_float := S754_finite false 0xcad924 (-22).

Definition emitted {num} (r : result (list (@volume num))) : option nat :=
  match r with
  | Ok vols => Some (List.length vols)
  | Raise _ => None
  end.

(** [a] is contained in [b], as sets of voxels equal to 1. *)
Definition mask_subset (a b : list Z) : bool :=
  forallb (fun p : Z * Z => (fst p <=? snd p)%Z) (combine a b).

Fixpoint chain {X} (rel : X -> X -> bool) (l : list X) : bool :=
  match l with
  | x :: (y :: _) as r => rel x y && chain rel r
  | _ => true
  end.

(** Consecutive volumes have increasing thresholds and shrinking masks. *)
Definition nested {num} {A : Arith num} (vols : list (@volume num)) : bool :=
  chain (fun v w => ltb (vol_threshold v) (vol_threshold w)
                    && mask_subset (vol_data w) (vol_data v)) vols.

(** A streamline of two points on the first axis. *)
Definition segment (x : R) : @streamline R :=
  [(0, 0, 0); (x, 0, 0)]%R.

Definition half64 : spec_float := S754_finite false 0x10000000000000 (-53).
Definition two64 : spec_float := S754_finite false 0x10000000000000 (-51).

Definition segment64 (x : spec_float) : @streamline spec_float :=
  [(S754_zero false, S754_zero false, S754_zero false);
   (x, S754_zero false, S754_zero false)].

Definition short_and_long : @bundle R := [segment 0.5%R; segment 2%R].

(** Every query matches one file. *)
Definition one_file (q : query) : list string :=
  match q with
  | Modality _ => ["dwi.nii.gz"%string]
  | RegExpression r => [r]
  end.

(** [int(nbr)]: the number that the digits of a file name denote. *)
Definition int_of_nbr (nbr : string) : option nat :=
  option_map Nat.of_uint (NilEmpty.uint_of_string nbr).

(** The input files that [run] asks for, in its order (lines 36-64). *)
Definition required_queries (dataset : string) : list query :=
  ((if String.eqb dataset "HCPL" then
      [Modality "HARDI";
       RegExpression ".*prep.bvalues.hcpl.txt";
       RegExpression ".*prep.gradients.hcpl.txt"]
    else if String.eqb dataset "DSI" then
      [Modality "DSI";
       RegExpression ".*prep.bvalues.txt";
       RegExpression ".*prep.gradients.txt"]
    else [])
   ++ [RegExpression ".*prep.inject.nii.gz";
       RegExpression ".*VUMC_ROIs.nii.gz"])%list.

Definition is_upload {num} (e : @event num) : bool :=
  match e with
  | UploadFile _ _ => true
  | _ => false
  end.

Definition is_archive {num} (e : @event num) : bool :=
  match e with
  | MakeArchive _ _ => true
  | _ => false
  end.

Definition is_download {num} (e : @event num) : bool :=
  match e with
  | Download _ => true
  | _ => false
  end.

(** The streamline passes through label [a] and through label [b]. *)
Definition connects {num} (to_voxel_coordinates : @streamline num -> list nat)
           (rois : list Z) (counted : Z -> bool) (a b : Z)
           (s : @streamline num) : bool :=
  existsb (Z.eqb a) (labels_through to_voxel_coordinates rois counted s)
  && existsb (Z.eqb b) (labels_through to_voxel_coordinates rois counted s).

(** Voxel-wise sum of two count volumes. *)
Fixpoint add_volumes (a b : list Z) : list Z :=
  match a, b with
  | x :: a', y :: b' => (x + y)%Z :: add_volumes a' b'
  | _, _ => []
  end.

(** The path [run] downloads the first match of a query to. *)
Definition first_path (get_files : query -> list string) (q : query)
  : option string :=
  match get_files q with
  | [] => None
  | file :: _ => Some ("/root/" ++ file)%string
  end.

(** The DWI, b-value and gradient paths of a dataset whose files exist. *)
Definition dwi_inputs (get_files : query -> list string) (dataset : string)
  : option dwi_paths :=
  match required_queries dataset with
  | [q1; q2; q3; _; _] =>
      match first_path get_files q1, first_path get_files q2,
            first_path get_files q3 with
      | Some dwi, Some bvalues, Some bvecs => Some (DwiPaths dwi bvalues bvecs)
      | _, _, _ => None
      end
  | _ => None
  end.

(** The direction getter of a recognised dataset. *)
Definition getter_for (dataset : string) : option direction_getter :=
  if String.eqb dataset "HCPL" then Some from_shcoeff
  else if String.eqb dataset "DSI" then Some from_pmf
  else None.

(** The archives of a mode and its uploads for a dataset, in the order of
    [run]. *)
Definition archives {num} (postprocessing : string) : list (@event num) :=
  ((if member postprocessing ["EPFL"; "ALL"]%string then
      [MakeArchive "/root/TrackyMcTrackface_EPFL_example" "/root/vol_epfl"]
    else [])
   ++ (if member postprocessing ["VUMC"; "ALL"]%string then
         [MakeArchive "/root/TrackyMcTrackface_VUMC_example" "/root/vol_vumc"]
       else []))%list.

Definition uploads {num} (postprocessing dataset : string) : list (@event num) :=
  ((if member postprocessing ["EPFL"; "ALL"]%string then
      [UploadFile "/root/TrackyMcTrackface_EPFL_example.zip"
                  ("TrackyMcTrackface_" ++ dataset ++ "_EPFL.zip")%string]
    else [])
   ++ (if member postprocessing ["VUMC"; "ALL"]%string then
         [UploadFile "/root/TrackyMcTrackface_VUMC_example.zip"
                     ("TrackyMcTrackface_" ++ dataset ++ "_VUMC.zip")%string]
       else []))%list.

(** The files written for a list of volumes, in order. *)
Definition volume_files {num} (folder : string) (vols : list (@volume num))
  : list (@event num) :=
  map (fun v => ToFilename folder (zfill 3 (str (vol_index v)))
                           (vol_threshold v) (vol_data v)) vols.

(** What a run on a recognised dataset with all its files does before the
    post-processing: the downloads, then the three progress messages. *)
Definition preamble {num} (get_files : query -> list string)
           (dataset : string) : list (@event num) :=
  (flat_map (fun q => match get_files q with
                      | [] => []
                      | file :: _ => [Download file]
                      end) (required_queries dataset)
   ++ [SetProgress "Processing voxel-wise DTI metrics.";
       SetProgress (if String.eqb dataset "HCPL"
                    then "Processing voxel-wise FOD estimation."
                    else "Processing voxel-wise DSI estimation.");
       SetProgress "Processing tractography."])%list.

(** What a branch does with the result of its density quantizer. *)
Definition branch_result {num} (message folder base_name : string)
           (streamlines : @bundle num) (r : result (list (@volume num)))
  : @prog num (@bundle num) :=
  match r with
  | Ok vols =>
      ([SetProgress message; Mkdir folder]
         ++ volume_files folder vols ++ [MakeArchive base_name folder],
       Ok streamlines)%list
  | Raise e => ([SetProgress message; Mkdir folder], Raise e)
  end.

Section RunCases.

Context {num : Type} {A : Arith num} {L : Log10 num}.
Variable to_voxel_coordinates : @streamline num -> list nat.
Variable nvox : nat.
Variable rois : list Z.
Variable counted : Z -> bool.
Variable gaussian_filter : list num -> list num.
Variable get_files : query -> list string.
Variable local_tracking : dwi_paths -> direction_getter -> @bundle num.

(** How a run ends, by the dataset and the input files. *)
Inductive run_case (s : settings) : Prop :=
| MissingFile (q : query) :
    In q (required_queries (dataset s)) ->
    get_files q = [] ->
    outcome (run to_voxel_coordinates nvox rois counted gaussian_filter
                     get_files local_tracking s) = Raise IndexError ->
    Forall (fun e => is_download e = true
                     \/ e = SetProgress "Wrong dataset parameter")
           (trace (run to_voxel_coordinates nvox rois counted gaussian_filter
                     get_files local_tracking s)) ->
    run_case s
| UnknownDataset (inject vumc_rois : string) (r1 r2 : list string) :
    dataset s <> "HCPL"%string -> dataset s <> "DSI"%string ->
    get_files (RegExpression ".*prep.inject.nii.gz") = inject :: r1 ->
    get_files (RegExpression ".*VUMC_ROIs.nii.gz") = vumc_rois :: r2 ->
    run to_voxel_coordinates nvox rois counted gaussian_filter
                     get_files local_tracking s = ([SetProgress "Wrong dataset parameter";
               Download inject; Download vumc_rois],
              Raise (UnboundLocalError "dwi_file_path")) ->
    run_case s
| Tracked (paths : dwi_paths) (dg : direction_getter) :
    (forall q, In q (required_queries (dataset s)) -> get_files q <> []) ->
    dwi_inputs get_files (dataset s) = Some paths ->
    getter_for (dataset s) = Some dg ->
    trace (run to_voxel_coordinates nvox rois counted gaussian_filter
                     get_files local_tracking s)
    = (preamble get_files (dataset s)
       ++ trace (bind (postprocess to_voxel_coordinates nvox rois counted
                                gaussian_filter (postprocessing s) (local_tracking paths dg))
                      (fun _ => upload (postprocessing s) (dataset s))))%list ->
    outcome (run to_voxel_coordinates nvox rois counted gaussian_filter
                     get_files local_tracking s)
    = outcome (bind (postprocess to_voxel_coordinates nvox rois counted
                                gaussian_filter (postprocessing s) (local_tracking paths dg))
                    (fun _ => upload (postprocessing s) (dataset s))) ->
    run_case s.

End RunCases.

(** A floating-point number that is not nan and not negative. *)
Definition nonneg_float (x : spec_float) : bool :=
  match x with
  | S754_nan => false
  | S754_zero _ => true
  | S754_infinity s | S754_finite s _ _ => negb s
  end.

(** ** IEEE-754 rounding as integer arithmetic

    Definitions used to reason about [SpecFloat]'s [binary_round_aux]. *)

(** The position of a value between two integers, in quarters. *)
Definition loc_code (l : location) : Z :=
  match l with
  | loc_Exact => 0
  | loc_Inexact Lt => 1
  | loc_Inexact Eq => 2
  | loc_Inexact Gt => 3
  end%Z.

(** [x / 2 ^ n] rounded to the nearest integer, ties to even, for
    [1 <= n]. *)
Definition rne (x n : Z) : Z :=
  (let q := x / 2 ^ n in
   match x mod 2 ^ n ?= 2 ^ (n - 1) with
   | Lt => q
   | Gt => q + 1
   | Eq => if Z.even q then q else q + 1
   end)%Z.

(** The same for [0 <= n]. *)
Definition rdiv (x n : Z) : Z := rne (4 * x) (n + 2).

(** The result of a rounding: the mantissa [q], at most [2 ^ prec], at the
    exponent [e], renormalised and checked for overflow. *)
Definition sf_norm (prec emax : Z) (s : bool) (q e : Z) : spec_float :=
  (if q =? 0 then S754_zero s
   else if q =? 2 ^ prec then
     if e + 1 <=? emax - prec
     then S754_finite s (Z.to_pos (2 ^ (prec - 1))) (e + 1)
     else S754_infinity s
   else if e <=? emax - prec then S754_finite s (Z.to_pos q) e
        else S754_infinity s)%Z.

(** The mantissa and the exponent of [sf_norm] before the overflow
    check. *)
Definition sf_pair (prec : Z) (q e : Z) : Z * Z :=
  (if q =? 2 ^ prec then (2 ^ (prec - 1), e + 1) else (q, e))%Z.



Definition lex_lt (a b : Z * Z) : Prop :=
  (0 <= fst a /\ 0 < fst b /\
   (fst a = 0 \/ snd a < snd b \/ snd a = snd b /\ fst a < fst b))%Z.

(** The value [m * 2 ^ e] rounded to the format, for [e] at most the
    exponent of the format at that value. *)
Definition round_val (prec emax : Z) (s : bool) (m e : Z) : spec_float :=
  sf_norm prec emax s
          (rdiv m (fexp prec emax (Zdigits2 m + e) - e))
          (fexp prec emax (Zdigits2 m + e))%Z.

(** A voxel of a log-density volume: a float32 number that is zero or
    positive and finite. *)
Definition float32_nonneg (x : spec_float) : bool :=
  match x with
  | S754_zero _ => true
  | S754_finite false m e => bounded 24 128 m e
  | _ => false
  end.

(** The Python int 200 as a binary64 and as a float32 number. *)
Definition C200 : spec_float := S754_finite false 7036874417766400 (-45).

(** The threshold at index [i] for the binary64 step [ms * 2 ^ es]:
    [i * step] rounded to binary64. *)
Definition threshold1 (ms : positive) (es : Z) (i : nat) : spec_float :=
  match i with
  | O => S754_zero false
  | _ => round_val 53 1024 false (Z.of_nat i * Zpos ms) es
  end.



(** A volume with a voxel equal to the first threshold rounded to
    float32, which lies below that threshold. *)
Definition rounded_down : list spec_float :=
  [S754_zero false; S754_finite false 8749297 (-31);
   S754_finite false 13670777 (-24)].

(** A volume whose maximum is the float32 number next above 1. *)
Definition just_above : list spec_float := [S754_finite false 8388609 (-23)].

(** * Properties *)

(** ** Lists: masks, enumeration, filters *)

Section ListFacts.

Context {X : Type}.

Lemma index_mask_map (f : X -> bool) (xs : list X) :
  index_mask xs (map f xs) = filter f xs.
Proof.
  induction xs as [|x xs IH]; simpl; [reflexivity|].
  destruct (f x); rewrite IH; reflexivity.
Qed.

Lemma filter_idempotent (f : X -> bool) (xs : list X) :
  filter f (filter f xs) = filter f xs.
Proof.
  induction xs as [|x xs IH]; simpl; [reflexivity|].
  destruct (f x) eqn:E; simpl; rewrite ?E, IH; reflexivity.
Qed.

Lemma combine_seq_map {Y} (f : nat -> Y) (a n : nat) :
  combine (seq a n) (map f (seq a n)) = map (fun i => (i, f i)) (seq a n).
Proof.
  revert a; induction n as [|n IH]; intros a; simpl; [reflexivity|].
  rewrite IH; reflexivity.
Qed.

Lemma enumerate_map_seq {Y} (f : nat -> Y) (n : nat) :
  enumerate (map f (seq 0 n)) = map (fun i => (i, f i)) (seq 0 n).
Proof.
  unfold enumerate. rewrite length_map, length_seq. apply combine_seq_map.
Qed.


Lemma nth_error_enumerate_from (l : list X) (a i : nat) :
  nth_error (combine (seq a (List.length l)) l) i
  = option_map (fun x => (a + i, x)) (nth_error l i).
Proof.
  revert a i; induction l as [|x l IH]; intros a i; simpl.
  - destruct i; reflexivity.
  - destruct i as [|i]; simpl.
    + rewrite Nat.add_0_r. reflexivity.
    + rewrite IH. rewrite Nat.add_succ_r. reflexivity.
Qed.

Lemma nth_error_enumerate (l : list X) (i : nat) :
  nth_error (enumerate l) i = option_map (fun x => (i, x)) (nth_error l i).
Proof. unfold enumerate. apply nth_error_enumerate_from. Qed.

End ListFacts.

(** ** The emitted volumes, in any arithmetic *)

Section Volumes.

Context {num : Type} {A : Arith num}.

(** The volume at position [i] carries the index [i] and is the indicator of
    [log_density >= t] for its threshold [t], with voxels 0 and 1. *)
Lemma threshold_loop_volumes (ld : list num) (vols : list volume) (i : nat)
      (v : volume) :
  threshold_loop ld = Ok vols ->
  nth_error vols i = Some v ->
  vol_index v = i /\
  vol_data v = astype_int32 (ge_mask ld (vol_threshold v)) /\
  Forall (fun z => z = 0%Z \/ z = 1%Z) (vol_data v).
Proof.
  unfold threshold_loop. destruct (np_max ld) as [M|e]; [|discriminate].
  cbn [rbind]. destruct (arange _ _ _) as [ts|e]; [|discriminate].
  cbn [rbind]. intros H Hi. injection H as <-.
  rewrite nth_error_map, nth_error_enumerate in Hi.
  destruct (nth_error ts i) as [t|]; [|discriminate].
  injection Hi as <-. cbn [fst snd vol_index vol_data vol_threshold].
  split; [reflexivity|]. split; [reflexivity|].
  unfold astype_int32, ge_mask. rewrite map_map.
  apply Forall_forall. intros z Hz. apply in_map_iff in Hz.
  destruct Hz as (x & <- & _). destruct (leb t x); auto.
Qed.

End Volumes.

Section FilterFacts.

Context {num : Type} {A : Arith num}.

Lemma length_filter_at_spec (m : num) (ss : @bundle num) :
  length_filter_at m ss = filter (fun s => ltb m (length s)) ss.
Proof.
  unfold length_filter_at. rewrite map_map. apply index_mask_map.
Qed.

Lemma length_filter_spec (ss : @bundle num) :
  length_filter ss = filter (fun s => ltb (of_int 1) (length s)) ss.
Proof. apply length_filter_at_spec. Qed.

Lemma length_filter_idempotent (ss : @bundle num) :
  length_filter (length_filter ss) = length_filter ss.
Proof. rewrite !length_filter_spec. apply filter_idempotent. Qed.

End FilterFacts.

(** ** The threshold loop in exact arithmetic *)

Local Open Scope R_scope.

Ltac exact_arith :=
  cbn [of_int add sub mul div sqrt ltb leb ceil_quot Exact.arith] in *.

Lemma Rltb_true (a b : R) : Rltb a b = true <-> a < b.
Proof. unfold Rltb; destruct (Rlt_dec a b); split; intros; try discriminate; tauto. Qed.

Lemma Rltb_false (a b : R) : Rltb a b = false <-> b <= a.
Proof.
  unfold Rltb; destruct (Rlt_dec a b); split; intros; try discriminate;
    try reflexivity; lra.
Qed.

Lemma Rleb_true (a b : R) : Rleb a b = true <-> a <= b.
Proof. unfold Rleb; destruct (Rle_dec a b); split; intros; try discriminate; tauto. Qed.

Lemma Rceil_IZR (z : Z) : Rceil (IZR z) = z.
Proof.
  unfold Rceil.
  assert (H : (- z + 1)%Z = up (- IZR z)).
  { apply tech_up; rewrite plus_IZR, opp_IZR; lra. }
  rewrite <- H. lia.
Qed.

Lemma maximum_Rmax (a b : R) : maximum a b = Rmax a b.
Proof.
  unfold maximum; exact_arith. unfold Rleb, Rltb, Rmax.
  destruct (Rle_dec a a) as [_|N]; [|exfalso; lra]. cbn [negb].
  destruct (Rlt_dec b a), (Rle_dec a b); try reflexivity; lra.
Qed.



Lemma arange_exact (M : R) :
  M <> 0 ->
  arange (of_int 0) M (div M (of_int 200))
  = Ok (map (exact_threshold M) (seq 0 200)).
Proof.
  intros HM. unfold arange. exact_arith.
  destruct (Req_dec_T (M / 200) 0) as [E|_]; [exfalso; lra|].
  replace ((M - 0) / (M / 200)) with (IZR 200) by (field; exact HM).
  rewrite Rceil_IZR.
  change (200 <=? 0)%Z with false. change (Z.to_nat 200) with 200%nat.
  cbv iota. f_equal. apply map_ext. intros i. unfold arange_item, exact_threshold.
  destruct i as [|[|i]]; [simpl; lra | simpl; lra |].
  exact_arith. generalize (IZR (Z.of_nat (S (S i)))). intros c. lra.
Qed.

Lemma arange_exact_zero :
  arange (of_int 0) 0 (div 0 (of_int 200))
  = Raise (ValueError "arange: cannot compute length").
Proof.
  unfold arange. exact_arith.
  destruct (Req_dec_T (0 / 200) 0) as [_|N]; [|exfalso; lra].
  destruct (Req_dec_T (0 - 0) 0) as [_|N]; [reflexivity | exfalso; lra].
Qed.

Lemma threshold_loop_exact (ld : list R) (M : R) :
  np_max ld = Ok M -> M <> 0 ->
  threshold_loop ld = Ok (map (exact_volume ld M) (seq 0 200)).
Proof.
  intros Hmax HM. unfold threshold_loop. rewrite Hmax. cbn [rbind].
  rewrite (arange_exact HM). cbn [rbind].
  rewrite enumerate_map_seq, map_map. reflexivity.
Qed.

Lemma threshold_loop_exact_zero (ld : list R) :
  np_max ld = Ok 0 ->
  threshold_loop ld = Raise (ValueError "arange: cannot compute length").
Proof.
  intros Hmax. unfold threshold_loop. rewrite Hmax. cbn [rbind].
  rewrite arange_exact_zero. reflexivity.
Qed.


(** ** Masks *)


Lemma mask_binary (ld : list R) (t : R) :
  Forall (fun z => z = 0%Z \/ z = 1%Z) (astype_int32 (ge_mask ld t)).
Proof.
  unfold astype_int32, ge_mask. rewrite map_map.
  apply Forall_forall. intros z Hz. apply in_map_iff in Hz.
  destruct Hz as (v & <- & _). destruct (leb t v); auto.
Qed.

Lemma mask_full (ld : list R) (t : R) :
  Forall (fun v => t <= v) ld ->
  astype_int32 (ge_mask ld t) = repeat 1%Z (List.length ld).
Proof.
  induction 1 as [|x ld Hx _ IH]; simpl; [reflexivity|].
  exact_arith. rewrite (proj2 (Rleb_true t x) Hx).
  f_equal. exact IH.
Qed.




(** ** The log transform *)

Lemma ln_10_pos : 0 < ln 10.
Proof. rewrite <- ln_1. apply ln_increasing; lra. Qed.

Lemma log10_nonneg (x : R) : 1 <= x -> 0 <= log10 x.
Proof.
  intros Hx. unfold log10, Rlog10.
  assert (H10 := ln_10_pos).
  assert (Hln : 0 <= ln x).
  { destruct (Req_dec_T x 1) as [->|N]; [rewrite ln_1; lra|].
    rewrite <- ln_1. left. apply ln_increasing; lra. }
  apply Rmult_le_pos; [exact Hln|]. left. apply Rinv_0_lt_compat. exact H10.
Qed.

Lemma log_transform_nonneg_all (density : list R) :
  Forall (fun d => 0 <= d) density ->
  Forall (fun v => 0 <= v) (log_transform density).
Proof.
  intros H. unfold log_transform. apply Forall_forall. intros v Hv.
  apply in_map_iff in Hv. destruct Hv as (d & <- & Hd).
  rewrite Forall_forall in H. specialize (H d Hd).
  apply log10_nonneg. exact_arith. lra.
Qed.

(** C7.  For a smoothed density volume with nonnegative voxels, the
    log-transformed volume is [log10 (density + 1)] voxel by voxel: it has
    the shape of its input, voxel [k] holds [ln (d + 1) / ln 10] for the
    voxel [d] at [k], the argument of the logarithm is at least 1, and every
    voxel of the result is a nonnegative real. *)
Theorem log_transform_elementwise :
  forall density : list R,
    Forall (fun d => 0 <= d) density ->
    log_transform density = map (fun d => ln (d + 1) / ln 10) density /\
    List.length (log_transform density) = List.length density /\
    (forall k d, nth_error density k = Some d ->
                 nth_error (log_transform density) k = Some (ln (d + 1) / ln 10)) /\
    Forall (fun d => 1 <= d + 1) density /\
    Forall (fun v => 0 <= v) (log_transform density).
Proof.
  intros density Hpos.
  split; [reflexivity|].
  split; [apply length_map|].
  split.
  { intros k d Hk. unfold log_transform. rewrite nth_error_map, Hk. reflexivity. }
  split.
  { eapply Forall_impl; [|exact Hpos]. simpl. intros d Hd. lra. }
  apply log_transform_nonneg_all. exact Hpos.
Qed.

Lemma log_transform_elementwise_witness :
  log_transform [0; 3] = map (fun d => ln (d + 1) / ln 10) [0; 3] /\
  Forall (fun v => 0 <= v) (log_transform [0; 3]).
Proof.
  assert (H : Forall (fun d => 0 <= d) [0; 3]) by (repeat constructor; lra).
  destruct (log_transform_elementwise H) as (H1 & _ & _ & _ & H5).
  split; [exact H1 | exact H5].
Defined.

(** ** The stack of threshold volumes *)



(** [np.max] of a two-voxel volume whose second voxel is the larger. *)
Lemma np_max_pair (x y : R) : x <= y -> np_max [x; y] = Ok y.
Proof.
  intros H. simpl. rewrite maximum_Rmax, Rmax_right by exact H. reflexivity.
Qed.


(** C10.  For a nonnegative density volume whose log-density maximum [M]
    is positive, the loop emits volumes; the first one has index 0 and
    threshold 0 and is the all-ones mask, because every voxel of
    [log10 (density + 1)] is nonnegative; and every emitted volume holds
    only the integers 0 and 1. *)
Theorem first_volume_full :
  forall (density : list R) (M : R),
    Forall (fun d => 0 <= d) density ->
    np_max (log_transform density) = Ok M ->
    0 < M ->
    exists (vols : list volume) (v0 : volume),
      threshold_loop (log_transform density) = Ok vols /\
      nth_error vols 0 = Some v0 /\
      vol_index v0 = 0%nat /\
      vol_threshold v0 = 0 /\
      Forall (fun v => 0 <= v) (log_transform density) /\
      vol_data v0 = repeat 1%Z (List.length density) /\
      Forall (fun v => Forall (fun z => z = 0%Z \/ z = 1%Z) (vol_data v)) vols.
Proof.
  intros density M Hpos Hmax HM.
  set (ld := log_transform density) in *.
  assert (Hnonneg : Forall (fun v => 0 <= v) ld)
    by (apply log_transform_nonneg_all; exact Hpos).
  assert (Ht0 : exact_threshold M 0 = 0) by (unfold exact_threshold; simpl; lra).
  exists (map (exact_volume ld M) (seq 0 200)), (exact_volume ld M 0).
  split; [apply threshold_loop_exact; [exact Hmax | lra]|].
  split; [reflexivity|].
  split; [reflexivity|].
  split; [exact Ht0|].
  split; [exact Hnonneg|].
  split.
  - cbn [exact_volume vol_data]. rewrite Ht0.
    rewrite (mask_full Hnonneg). unfold ld, log_transform.
    rewrite length_map. reflexivity.
  - apply Forall_forall. intros v Hv. apply in_map_iff in Hv.
    destruct Hv as (i & <- & _). apply mask_binary.
Qed.

Lemma first_volume_full_witness :
  exists (vols : list volume) (v0 : volume),
    threshold_loop (log_transform [0; 9]) = Ok vols /\
    nth_error vols 0 = Some v0 /\
    vol_threshold v0 = 0 /\
    vol_data v0 = [1%Z; 1%Z].
Proof.
  assert (Hpos : Forall (fun d => 0 <= d) [0; 9]) by (repeat constructor; lra).
  assert (H1 : log10 (0 + 1) = 0).
  { unfold log10, Rlog10. replace (0 + 1) with 1 by lra. rewrite ln_1. lra. }
  assert (H10 : log10 (9 + 1) = 1).
  { unfold log10, Rlog10. replace (9 + 1) with 10 by lra.
    apply Rinv_r. assert (H := ln_10_pos). lra. }
  assert (Hmax : np_max (log_transform [0; 9]) = Ok 1).
  { unfold log_transform. cbn [map]. exact_arith. rewrite H1, H10.
    apply np_max_pair. lra. }
  assert (HM : 0 < 1) by lra.
  destruct (first_volume_full Hpos Hmax HM)
    as (vols & v0 & Hloop & Hnth & _ & Ht & _ & Hdata & _).
  exists vols, v0. repeat split; assumption.
Defined.

(** ** The number of thresholds *)

(** In exact arithmetic a positive maximum gives 200 thresholds
    [i * (M / 200)], all below [M]. *)
Lemma exact_stack_has_200 (ld : list R) (M : R) :
  np_max ld = Ok M -> 0 < M ->
  exists vols,
    threshold_loop ld = Ok vols /\ List.length vols = 200%nat /\
    Forall (fun v => 0 <= vol_threshold v < M) vols.
Proof.
  intros Hmax HM. exists (map (exact_volume ld M) (seq 0 200)).
  split; [apply threshold_loop_exact; [exact Hmax | lra]|].
  split; [rewrite length_map, length_seq; reflexivity|].
  apply Forall_forall. intros v Hv. apply in_map_iff in Hv.
  destruct Hv as (i & <- & Hi). apply in_seq in Hi.
  cbn [exact_volume vol_threshold]. unfold exact_threshold.
  assert (H0 : 0 <= IZR (Z.of_nat i)) by (apply IZR_le; lia).
  assert (H1 : IZR (Z.of_nat i) <= 199) by (apply IZR_le; lia).
  split; nra.
Qed.

(** C2, evaluated under IEEE-754 rounding.  With the quotient
    [M / (M / 200)] rounded to the next number above 200, the loop emits 201
    volumes: in binary64 for the maximum [M64], in binary32 for the maximum
    [M32]. *)
Theorem threshold_loop_emits_201 :
  emitted (@threshold_loop _ Float.binary64 [S754_zero false; M64]) = Some 201%nat /\
  emitted (@threshold_loop _ Float.binary32 [S754_zero false; M32]) = Some 201%nat.
Proof. split; vm_compute; reflexivity. Qed.

(** For the maximum 0.5 the binary64 loop emits 200 volumes. *)
Example binary64_stack_200 :
  emitted (@threshold_loop _ Float.binary64 [S754_zero false; half64])
  = Some 200%nat.
Proof. vm_compute. reflexivity. Qed.

(** The 201 volumes of the binary64 run with maximum [M64] have strictly
    increasing thresholds and nested masks. *)
Example binary64_stack_nested :
  match @threshold_loop _ Float.binary64 [S754_zero false; half64; M64] with
  | Ok vols => @nested _ Float.binary64 vols = true
  | Raise _ => False
  end.
Proof. vm_compute. reflexivity. Qed.

(** ** The length filter *)

Lemma length_filter_at_In (m : R) (ss : @bundle R) (s : streamline) :
  In s (length_filter_at m ss) <-> In s ss /\ m < length s.
Proof.
  rewrite length_filter_at_spec, filter_In. exact_arith.
  rewrite Rltb_true. reflexivity.
Qed.

Lemma length_segment (x : R) : 0 <= x -> length (segment x) = x.
Proof.
  intros Hx. unfold segment, length, dist, sq. exact_arith.
  replace ((x - 0) * (x - 0) + (0 - 0) * (0 - 0) + (0 - 0) * (0 - 0))
    with (x * x) by ring.
  rewrite sqrt_square by exact Hx. lra.
Qed.

Lemma length_filter_pair (s1 s2 : @streamline R) :
  length s1 <= 1 -> 1 < length s2 -> length_filter [s1; s2] = [s2].
Proof.
  intros H1 H2. rewrite length_filter_spec. cbn [filter]. exact_arith.
  rewrite (proj2 (Rltb_false 1 (length s1)) H1).
  rewrite (proj2 (Rltb_true 1 (length s2)) H2). reflexivity.
Qed.

(** C5.  The length filter keeps a streamline exactly when its length, the
    sum of its point-to-point Euclidean distances, exceeds 1, in the order
    of the bundle, and drops every streamline of length at most 1.  Of two
    streamlines of lengths 0.5 and 2.0 only the second is kept, in exact
    arithmetic and in binary64. *)
Theorem length_filter_keeps_longer_than_one :
  forall (ss : @bundle R) (s1 s2 : streamline),
    length s1 = 0.5 ->
    length s2 = 2 ->
    length_filter ss = filter (fun s => Rltb 1 (length s)) ss /\
    (forall s, In s (length_filter ss) <-> In s ss /\ 1 < length s) /\
    (forall s, length s <= 1 -> ~ In s (length_filter ss)) /\
    length_filter [s1; s2] = [s2] /\
    @length_filter _ Float.binary64 [segment64 half64; segment64 two64]
    = [segment64 two64].
Proof.
  intros ss s1 s2 H1 H2.
  split; [exact (length_filter_spec ss)|].
  split; [intros s; apply (length_filter_at_In 1)|].
  split.
  { intros s Hs Hin. apply (length_filter_at_In 1) in Hin. lra. }
  split; [apply length_filter_pair; lra|].
  vm_compute. reflexivity.
Qed.

Lemma length_filter_keeps_longer_than_one_witness :
  length_filter [segment 0.5; segment 2] = [segment 2].
Proof.
  assert (H1 : length (segment 0.5) = 0.5) by (apply length_segment; lra).
  assert (H2 : length (segment 2) = 2) by (apply length_segment; lra).
  exact (proj1 (proj2 (proj2 (proj2
           (@length_filter_keeps_longer_than_one [] _ _ H1 H2))))).
Defined.

(** ** Density totals *)

Section DensityTotals.

Context {num : Type} {A : Arith num}.
Variable to_voxel_coordinates : @streamline num -> list nat.

Lemma filter_length_mono (f g h : @streamline num -> bool) (l : bundle) :
  (forall s, f s = true -> g s = true) ->
  (List.length (filter h (filter f l)) <= List.length (filter h (filter g l)))%nat.
Proof.
  intros Hfg. induction l as [|s l IH]; simpl; [lia|].
  destruct (f s) eqn:Ef.
  - rewrite (Hfg s Ef). simpl. destruct (h s); simpl; lia.
  - destruct (g s); simpl; [destruct (h s); simpl; lia | exact IH].
Qed.

Lemma total_count_mono (f g : nat -> Z) (l : list nat) :
  (forall v, f v <= g v)%Z ->
  (total_count (map f l) <= total_count (map g l))%Z.
Proof.
  intros H. induction l as [|v l IH]; simpl; [lia|].
  specialize (H v). lia.
Qed.

Lemma density_total_filter_mono (nvox : nat) (f g : streamline -> bool)
      (ss : bundle) :
  (forall s, f s = true -> g s = true) ->
  (total_count (density_map to_voxel_coordinates nvox (filter f ss))
   <= total_count (density_map to_voxel_coordinates nvox (filter g ss)))%Z.
Proof.
  intros Hfg. unfold density_map. apply total_count_mono. intros v.
  apply inj_le. apply filter_length_mono. exact Hfg.
Qed.

End DensityTotals.

(** C8.  For length-filter minima [m1 <= m2], the density map of the
    bundle filtered at [m1] sums, over the grid, to at least the sum of the
    density map of the bundle filtered at [m2]; the filter of the tool is
    the one at minimum 1. *)
Theorem density_total_monotone :
  forall (to_voxel_coordinates : @streamline R -> list nat) (nvox : nat)
         (ss : bundle) (m1 m2 : R),
    m1 <= m2 ->
    length_filter ss = length_filter_at 1 ss /\
    (total_count (density_map to_voxel_coordinates nvox (length_filter_at m2 ss))
     <= total_count (density_map to_voxel_coordinates nvox (length_filter_at m1 ss)))%Z.
Proof.
  intros tv nvox ss m1 m2 Hm. split; [reflexivity|].
  rewrite !length_filter_at_spec. apply density_total_filter_mono.
  intros s. exact_arith. rewrite !Rltb_true. lra.
Qed.

Lemma density_total_monotone_witness :
  (total_count (density_map (fun _ => [0%nat]) 1
                            (length_filter_at 1%R short_and_long))
   <= total_count (density_map (fun _ => [0%nat]) 1
                               (length_filter_at 0%R short_and_long)))%Z.
Proof.
  assert (H : 0 <= 1) by lra.
  exact (proj2 (@density_total_monotone (fun _ => [0%nat]) 1%nat
                  short_and_long 0 1 H)).
Defined.

(** ** Traces and outcomes *)

Section ProgFacts.

Context {num : Type}.

Lemma outcome_bind {X Y} (m : @prog num X) (k : X -> @prog num Y) :
  outcome (bind m k)
  = match outcome m with
    | Ok x => outcome (k x)
    | Raise e => Raise e
    end.
Proof.
  destruct m as [tr [x|e]]; simpl; [|reflexivity].
  destruct (k x); reflexivity.
Qed.

Lemma trace_bind {X Y} (m : @prog num X) (k : X -> @prog num Y) :
  trace (bind m k)
  = (trace m ++ match outcome m with
                | Ok x => trace (k x)
                | Raise _ => []
                end)%list.
Proof.
  destruct m as [tr [x|e]]; simpl; [|rewrite app_nil_r; reflexivity].
  destruct (k x); reflexivity.
Qed.

Lemma bind_ext {X Y} (m : @prog num X) (k k' : X -> @prog num Y) :
  (forall x, k x = k' x) -> bind m k = bind m k'.
Proof.
  intros H. destruct m as [tr [x|e]]; simpl; [rewrite H|]; reflexivity.
Qed.

Lemma write_volumes_outcome (folder : string) (vols : list (@volume num)) :
  outcome (write_volumes folder vols) = Ok tt.
Proof.
  induction vols as [|v vols IH]; [reflexivity|].
  cbn [write_volumes]. rewrite outcome_bind. exact IH.
Qed.

End ProgFacts.

(** ** The two post-processing branches *)

Section Branches.

Context {num : Type} {A : Arith num} {L : Log10 num}.
Variable to_voxel_coordinates : @streamline num -> list nat.
Variable nvox : nat.
Variable rois : list Z.
Variable counted : Z -> bool.
Variable gaussian_filter : list num -> list num.

Let epfl := epfl_branch to_voxel_coordinates nvox gaussian_filter.
Let vumc := vumc_branch to_voxel_coordinates nvox rois counted gaussian_filter.
Let volumes := density_volumes to_voxel_coordinates nvox gaussian_filter.

Lemma epfl_branch_outcome (ss : bundle) :
  outcome (epfl ss)
  = match volumes (length_filter ss) with
    | Ok _ => Ok (length_filter ss)
    | Raise e => Raise e
    end.
Proof.
  unfold epfl, volumes, epfl_branch.
  rewrite !outcome_bind. cbn [outcome emit lift snd].
  destruct (density_volumes _ _ _ (length_filter ss)) as [vols|e];
    [|reflexivity].
  rewrite !outcome_bind, write_volumes_outcome. reflexivity.
Qed.

Lemma epfl_branch_raises (ss : bundle) (e : exn) :
  volumes (length_filter ss) = Raise e ->
  epfl ss = ([SetProgress "Processing density map (EPFL)";
              Mkdir "/root/vol_epfl"], Raise e).
Proof.
  unfold epfl, volumes, epfl_branch. intros H. rewrite H. reflexivity.
Qed.

Lemma vumc_branch_filtered (ss : bundle) :
  vumc (length_filter ss) = vumc ss.
Proof.
  unfold vumc, vumc_branch, vumc_connectivity_input.
  rewrite length_filter_idempotent. reflexivity.
Qed.

Lemma postprocess_all (ss : bundle) :
  postprocess to_voxel_coordinates nvox rois counted gaussian_filter "ALL" ss
  = bind (epfl ss) vumc.
Proof. reflexivity. Qed.

Lemma postprocess_vumc (ss : bundle) :
  outcome (postprocess to_voxel_coordinates nvox rois counted
                       gaussian_filter "VUMC" ss)
  = outcome (vumc ss).
Proof.
  unfold postprocess. cbn [member existsb String.eqb Ascii.eqb Bool.eqb orb when].
  rewrite outcome_bind. reflexivity.
Qed.

End Branches.

(** C9.  For every bundle, filtering by length twice gives the bundle of
    filtering once.  Consequently, when the EPFL branch ends normally it
    leaves the length-filtered bundle in [streamlines]; the VUMC branch
    that follows it in mode ["ALL"] filters that bundle again and hands
    [connectivity_matrix] the bundle it would get from the tracker output
    directly, and so behaves as it does in mode ["VUMC"]. *)
Theorem length_filter_twice :
  forall {num : Type} {A : Arith num} {L : Log10 num}
         (to_voxel_coordinates : @streamline num -> list nat) (nvox : nat)
         (rois : list Z) (counted : Z -> bool)
         (gaussian_filter : list num -> list num),
    (forall ss : bundle,
        length_filter (length_filter ss) = length_filter ss) /\
    (forall ss ss' : bundle,
        outcome (epfl_branch to_voxel_coordinates nvox gaussian_filter ss)
        = Ok ss' ->
        ss' = length_filter ss /\
        vumc_connectivity_input ss' = vumc_connectivity_input ss /\
        vumc_branch to_voxel_coordinates nvox rois counted gaussian_filter ss'
        = vumc_branch to_voxel_coordinates nvox rois counted gaussian_filter ss /\
        outcome (postprocess to_voxel_coordinates nvox rois counted
                             gaussian_filter "ALL" ss)
        = outcome (postprocess to_voxel_coordinates nvox rois counted
                               gaussian_filter "VUMC" ss)).
Proof.
  intros num A L tv nvox rois counted gf.
  split; [intros ss; apply length_filter_idempotent|].
  intros ss ss' Hepfl.
  assert (Hss' : ss' = length_filter ss).
  { rewrite epfl_branch_outcome in Hepfl.
    destruct (density_volumes tv nvox gf (length_filter ss)); congruence. }
  split; [exact Hss'|].
  split; [subst ss'; apply length_filter_idempotent|].
  split; [subst ss'; apply vumc_branch_filtered|].
  rewrite postprocess_all, postprocess_vumc, outcome_bind, Hepfl.
  subst ss'. rewrite vumc_branch_filtered. reflexivity.
Qed.

Lemma length_filter_single (x : R) :
  1 < x -> length_filter [segment x] = [segment x].
Proof.
  intros Hx. rewrite length_filter_spec. cbn [filter]. exact_arith.
  rewrite length_segment by lra.
  rewrite (proj2 (Rltb_true 1 x) Hx). reflexivity.
Qed.

Lemma log10_2_pos : 0 < log10 (1 + 1).
Proof.
  unfold log10, Rlog10. assert (H10 := ln_10_pos).
  assert (H2 : 0 < ln (1 + 1)) by (rewrite <- ln_1 at 1; apply ln_increasing; lra).
  apply Rmult_lt_0_compat; [exact H2 | apply Rinv_0_lt_compat; exact H10].
Qed.

(** One streamline through the single voxel of a one-voxel grid. *)
Lemma epfl_branch_single :
  outcome (epfl_branch (fun _ => [0%nat]) 1 (fun d => d) [segment 2])
  = Ok [segment 2].
Proof.
  rewrite epfl_branch_outcome, length_filter_single by lra.
  assert (Hmax : np_max (log_transform [1]) = Ok (log10 (1 + 1))) by reflexivity.
  assert (HM : log10 (1 + 1) <> 0) by (assert (H := log10_2_pos); lra).
  unfold density_volumes, density_map, visits.
  cbn [seq map filter existsb Nat.eqb orb List.length]. exact_arith.
  change (IZR (Z.of_nat 1)) with 1.
  rewrite (threshold_loop_exact _ Hmax HM). reflexivity.
Qed.

(** A short and a long streamline through the single voxel of a one-voxel
    grid: the EPFL branch drops the short one. *)
Lemma epfl_branch_short_and_long :
  outcome (epfl_branch (fun _ => [0%nat]) 1 (fun d => d) short_and_long)
  = Ok [segment 2].
Proof.
  assert (Hf : length_filter short_and_long = [segment 2]).
  { apply length_filter_pair; rewrite length_segment; lra. }
  rewrite epfl_branch_outcome, Hf.
  assert (Hmax : np_max (log_transform [1]) = Ok (log10 (1 + 1))) by reflexivity.
  assert (HM : log10 (1 + 1) <> 0) by (assert (H := log10_2_pos); lra).
  unfold density_volumes, density_map, visits.
  cbn [seq map filter existsb Nat.eqb orb List.length]. exact_arith.
  change (IZR (Z.of_nat 1)) with 1.
  rewrite (threshold_loop_exact _ Hmax HM). reflexivity.
Qed.

Lemma length_filter_twice_witness :
  [segment 2] = length_filter short_and_long /\
  vumc_branch (fun _ => [0%nat]) 1 [1%Z] (fun _ => true) (fun d => d)
              [segment 2]
  = vumc_branch (fun _ => [0%nat]) 1 [1%Z] (fun _ => true) (fun d => d)
                short_and_long.
Proof.
  destruct (proj2 (@length_filter_twice R _ _ (fun _ => [0%nat]) 1%nat [1%Z]
                     (fun _ => true) (fun d => d))
                  _ _ epfl_branch_short_and_long)
    as (H1 & _ & H3 & _).
  split; [exact H1 | exact H3].
Defined.

(** ** The empty bundle *)

Lemma map_const_seq {X} (c : X) (a n : nat) :
  map (fun _ => c) (seq a n) = repeat c n.
Proof.
  revert a; induction n as [|n IH]; intros a; simpl; [reflexivity|].
  rewrite IH; reflexivity.
Qed.

Lemma fold_maximum_zeros (n : nat) : fold_left maximum (repeat 0 n) 0 = 0.
Proof.
  induction n as [|n IH]; simpl; [reflexivity|].
  rewrite maximum_Rmax, Rmax_left by lra. exact IH.
Qed.

Lemma threshold_loop_zeros (n : nat) :
  exists e, threshold_loop (repeat 0 n) = Raise e.
Proof.
  destruct n as [|n].
  - eexists. reflexivity.
  - eexists. apply threshold_loop_exact_zero.
    simpl. rewrite fold_maximum_zeros. reflexivity.
Qed.

Lemma log_transform_zeros (n : nat) :
  log_transform (repeat 0 n) = repeat 0 n.
Proof.
  unfold log_transform. induction n as [|n IH]; [reflexivity|].
  cbn [repeat map]. f_equal; [|exact IH].
  exact_arith. unfold log10, Rlog10.
  replace (0 + 1) with 1 by lra. rewrite ln_1. lra.
Qed.

(** C3, evaluated.  With a bundle that the length filter empties and a
    smoothing that maps the all-zero volume to itself, the density
    quantizer raises and the EPFL branch stops after creating its folder,
    with no volume written; so does the threshold loop on an all-zero
    volume under IEEE-754 rounding, where the length of the threshold
    sequence is computed from [0.0 / 0.0]. *)
Theorem empty_bundle_raises :
  forall (to_voxel_coordinates : @streamline R -> list nat) (nvox : nat)
         (gaussian_filter : list R -> list R) (ss : bundle),
    gaussian_filter (repeat 0 nvox) = repeat 0 nvox ->
    length_filter ss = [] ->
    (exists e,
        density_volumes to_voxel_coordinates nvox gaussian_filter [] = Raise e /\
        epfl_branch to_voxel_coordinates nvox gaussian_filter ss
        = ([SetProgress "Processing density map (EPFL)";
            Mkdir "/root/vol_epfl"], Raise e)) /\
    @threshold_loop _ Float.binary64 [S754_zero false; S754_zero false]
    = Raise (ValueError "arange: cannot compute length") /\
    @threshold_loop _ Float.binary32 [S754_zero false; S754_zero false]
    = Raise (ValueError "arange: cannot compute length").
Proof.
  intros tv nvox gf ss Hgf Hss. split; [|split; vm_compute; reflexivity].
  assert (H : exists e, density_volumes tv nvox gf [] = Raise e).
  { unfold density_volumes, density_map. cbn [filter List.length].
    rewrite map_map. simpl Z.of_nat.
    rewrite (map_const_seq (of_int 0) 0 nvox). exact_arith.
    rewrite Hgf, log_transform_zeros. apply threshold_loop_zeros. }
  destruct H as (e & He). exists e. split; [exact He|].
  apply epfl_branch_raises. rewrite Hss. exact He.
Qed.

Lemma empty_bundle_raises_witness :
  exists e,
    epfl_branch (fun _ => [0%nat]) 2 (fun d => d) [segment 0.5]
    = ([SetProgress "Processing density map (EPFL)"; Mkdir "/root/vol_epfl"],
       Raise e).
Proof.
  assert (Hss : length_filter [segment 0.5] = []).
  { rewrite length_filter_spec. cbn [filter]. exact_arith.
    rewrite length_segment by lra.
    rewrite (proj2 (Rltb_false 1 0.5)) by lra. reflexivity. }
  destruct (@empty_bundle_raises (fun _ => [0%nat]) 2%nat (fun d => d)
              [segment 0.5] eq_refl Hss) as ((e & _ & He) & _).
  exists e. exact He.
Defined.

(** ** ROI connectivity *)

Section Connectivity.

Context {num : Type}.
Variable to_voxel_coordinates : @streamline num -> list nat.
Variable rois : list Z.
Variable counted : Z -> bool.

Let labels := labels_through to_voxel_coordinates rois counted.
Let groups := grouping to_voxel_coordinates rois counted.

Lemma combinations2_In {X} (l : list X) (a b : X) :
  In (a, b) (combinations2 l) -> In a l /\ In b l.
Proof.
  induction l as [|x l IH]; simpl; [tauto|].
  intros H. apply in_app_or in H. destruct H as [H|H].
  - apply in_map_iff in H. destruct H as (y & Hy & Hin).
    injection Hy as <- <-. tauto.
  - destruct (IH H). tauto.
Qed.

Lemma combinations2_short {X} (l : list X) :
  (List.length l < 2)%nat -> combinations2 l = [].
Proof.
  destruct l as [|x [|y l]]; simpl; intros H; [reflexivity | reflexivity | lia].
Qed.

Lemma enumerate_from_In {X} (l : list X) (a i : nat) (x : X) :
  In (i, x) (combine (seq a (List.length l)) l) <->
  (a <= i)%nat /\ nth_error l (i - a) = Some x.
Proof.
  revert a; induction l as [|y l IH]; intros a; simpl.
  - split; [tauto|]. intros (_ & H). destruct (i - a)%nat; discriminate.
  - rewrite IH. split.
    + intros [H|(Hle & H)].
      * injection H as <- <-. rewrite Nat.sub_diag. split; [lia | reflexivity].
      * split; [lia|]. replace (i - a)%nat with (S (i - S a)) by lia.
        exact H.
    + intros (Hle & H). destruct (i - a)%nat as [|n] eqn:E.
      * left. simpl in H. injection H as <-. f_equal. lia.
      * right. split; [lia|]. replace (i - S a)%nat with n by lia. exact H.
Qed.

Lemma enumerate_In {X} (l : list X) (i : nat) (x : X) :
  In (i, x) (enumerate l) <-> nth_error l i = Some x.
Proof.
  unfold enumerate. rewrite enumerate_from_In, Nat.sub_0_r.
  split; [tauto | intros H; split; [lia | exact H]].
Qed.

Lemma pair_eqb_eq (p q : Z * Z) : pair_eqb p q = true <-> p = q.
Proof.
  destruct p as [a b], q as [c d]. unfold pair_eqb. simpl.
  rewrite andb_true_iff, !Z.eqb_eq. split; [intros (-> & ->)|intros H; injection H]; auto.
Qed.

(** A streamline is in the group of a pair exactly when two of the labels
    it passes through make up that pair. *)
Lemma grouping_In (ss : bundle) (key : Z * Z) (i : nat) :
  In i (groups ss key) <->
  exists s p, nth_error ss i = Some s /\
              In p (combinations2 (labels s)) /\ sort_pair p = key.
Proof.
  unfold groups, grouping, edges, edges_of. rewrite in_map_iff. split.
  - intros ([k j] & Hj & Hin). simpl in Hj. subst j.
    apply filter_In in Hin. destruct Hin as (Hin & Hk).
    apply pair_eqb_eq in Hk. simpl in Hk. subst k.
    apply in_flat_map in Hin. destruct Hin as ([j s] & Hjs & Hin).
    apply in_map_iff in Hin. destruct Hin as (p & Hp & Hc).
    simpl in Hp. injection Hp as Hp <-. apply enumerate_In in Hjs.
    exists s, p. auto.
  - intros (s & p & Hs & Hp & Hkey). exists (key, i). split; [reflexivity|].
    apply filter_In. split; [|apply pair_eqb_eq; reflexivity].
    apply in_flat_map. exists (i, s). split; [apply enumerate_In; exact Hs|].
    apply in_map_iff. exists p. simpl. rewrite Hkey. auto.
Qed.

Lemma index_list_In {X} (xs : list X) (indices : list nat) (x : X) :
  In x (index_list xs indices) <->
  exists i, In i indices /\ nth_error xs i = Some x.
Proof.
  unfold index_list. rewrite in_flat_map. split.
  - intros (i & Hi & Hx). exists i. split; [exact Hi|].
    destruct (nth_error xs i) as [y|]; simpl in Hx; [|tauto].
    destruct Hx as [->|[]]. reflexivity.
  - intros (i & Hi & Hx). exists i. split; [exact Hi|].
    rewrite Hx. left. reflexivity.
Qed.

Lemma sort_pair_01 (p : Z * Z) :
  sort_pair p = (0, 1)%Z -> p = (0, 1)%Z \/ p = (1, 0)%Z.
Proof.
  destruct p as [a b]. unfold sort_pair. simpl.
  destruct (a <=? b)%Z; intros H; injection H as -> ->; auto.
Qed.

Lemma combinations2_complete {X} (l : list X) (a b : X) :
  In a l -> In b l -> a <> b ->
  In (a, b) (combinations2 l) \/ In (b, a) (combinations2 l).
Proof.
  induction l as [|x l IH]; simpl; [tauto|].
  intros [Ha|Ha] [Hb|Hb] Hab.
  - congruence.
  - subst x. left. apply in_or_app. left. apply in_map. exact Hb.
  - subst x. right. apply in_or_app. left. apply in_map. exact Ha.
  - destruct (IH Ha Hb Hab); [left|right]; apply in_or_app; right; assumption.
Qed.

Lemma connectivity_filter_In (ss : bundle) (s : streamline) :
  In s (connectivity_filter to_voxel_coordinates rois counted ss) <->
  In s ss /\ In 0%Z (labels s) /\ In 1%Z (labels s).
Proof.
  unfold connectivity_filter. rewrite index_list_In. split.
  - intros (i & Hi & Hs). split; [eapply nth_error_In; exact Hs|].
    apply grouping_In in Hi. destruct Hi as (s' & p & Hs' & Hp & Hkey).
    rewrite Hs in Hs'. injection Hs' as <-.
    apply sort_pair_01 in Hkey.
    destruct Hkey as [-> | ->]; apply combinations2_In in Hp; tauto.
  - intros (Hs & H0 & H1). apply In_nth_error in Hs. destruct Hs as (i & Hi).
    exists i. split; [|exact Hi]. apply grouping_In.
    assert (Hne : 0%Z <> 1%Z) by discriminate.
    destruct (combinations2_complete _ H0 H1 Hne) as [Hc|Hc].
    + exists s, (0, 1)%Z. auto.
    + exists s, (1, 0)%Z. auto.
Qed.

End Connectivity.

(** C6.  The connectivity filter keeps exactly the streamlines whose index
    is in the group of the label pair (0, 1), which are the streamlines of
    the bundle that pass through label 0 and through label 1.  A streamline
    that passes through fewer than two distinct labels is in the group of
    no pair, and a streamline that passes through labels 2 and 5 only is
    not in the output bundle. *)
Theorem connectivity_filter_target_pair :
  forall {num : Type} (to_voxel_coordinates : @streamline num -> list nat)
         (rois : list Z) (counted : Z -> bool) (ss : bundle),
    (forall s,
        In s (connectivity_filter to_voxel_coordinates rois counted ss) <->
        exists i, In i (grouping to_voxel_coordinates rois counted ss (0, 1)%Z) /\
                  nth_error ss i = Some s) /\
    (forall s,
        In s (connectivity_filter to_voxel_coordinates rois counted ss) <->
        In s ss /\
        In 0%Z (labels_through to_voxel_coordinates rois counted s) /\
        In 1%Z (labels_through to_voxel_coordinates rois counted s)) /\
    (forall i s key,
        nth_error ss i = Some s ->
        (List.length (labels_through to_voxel_coordinates rois counted s) < 2)%nat ->
        ~ In i (grouping to_voxel_coordinates rois counted ss key)) /\
    (forall s,
        (forall l, In l (labels_through to_voxel_coordinates rois counted s) ->
                   l = 2%Z \/ l = 5%Z) ->
        ~ In s (connectivity_filter to_voxel_coordinates rois counted ss)).
Proof.
  intros num tv rois counted ss. split; [|split; [|split]].
  - intros s. apply index_list_In.
  - intros s. apply connectivity_filter_In.
  - intros i s key Hs Hshort Hin. apply grouping_In in Hin.
    destruct Hin as (s' & p & Hs' & Hp & _).
    rewrite Hs in Hs'. injection Hs' as <-.
    rewrite (combinations2_short _ Hshort) in Hp. exact Hp.
  - intros s Honly Hin. apply connectivity_filter_In in Hin.
    destruct Hin as (_ & H0 & _). destruct (Honly _ H0); discriminate.
Qed.

(** A streamline whose two points lie in voxels labelled 2 and 5. *)
Lemma connectivity_filter_target_pair_witness :
  ~ In (segment64 two64)
       (connectivity_filter (fun _ => [0%nat; 1%nat]) [2%Z; 5%Z] (fun _ => true)
                            [segment64 two64]).
Proof.
  apply (proj2 (proj2 (proj2 (@connectivity_filter_target_pair spec_float
                         (fun _ => [0%nat; 1%nat]) [2%Z; 5%Z] (fun _ => true)
                         [segment64 two64])))).
  intros l Hl. vm_compute in Hl. destruct Hl as [<-|[<-|[]]]; auto.
Defined.

(** ** Dataset dispatch *)

Section Dispatch.

Context {num : Type} {A : Arith num} {L : Log10 num}.
Variable to_voxel_coordinates : @streamline num -> list nat.
Variable nvox : nat.
Variable rois : list Z.
Variable counted : Z -> bool.
Variable gaussian_filter : list num -> list num.
Variable get_files : query -> list string.
Variable local_tracking : dwi_paths -> direction_getter -> @bundle num.

Let run' := run to_voxel_coordinates nvox rois counted gaussian_filter
                get_files local_tracking.

Lemma fetch_dwi_unknown (ds : string) :
  ds <> "HCPL"%string -> ds <> "DSI"%string ->
  fetch_dwi (num:=num) get_files ds
  = ([SetProgress "Wrong dataset parameter"], Ok None).
Proof.
  intros H1 H2. unfold fetch_dwi.
  rewrite (proj2 (String.eqb_neq _ _) H1), (proj2 (String.eqb_neq _ _) H2).
  reflexivity.
Qed.

Lemma make_direction_getter_unknown (ds : string) :
  ds <> "HCPL"%string -> ds <> "DSI"%string ->
  make_direction_getter (num:=num) ds = ([], Ok None).
Proof.
  intros H1 H2. unfold make_direction_getter.
  rewrite (proj2 (String.eqb_neq _ _) H1), (proj2 (String.eqb_neq _ _) H2).
  reflexivity.
Qed.

Lemma run_unknown_trace (pp ds file : string) (rest : list string) :
  ds <> "HCPL"%string -> ds <> "DSI"%string ->
  get_files (RegExpression ".*prep.inject.nii.gz") = file :: rest ->
  exists tr,
    trace (run' (Settings pp ds))
    = SetProgress "Wrong dataset parameter" :: Download file :: tr.
Proof.
  intros H1 H2 Hinject. unfold run', run. cbn [dataset].
  rewrite (fetch_dwi_unknown H1 H2).
  rewrite trace_bind. cbn [trace outcome fst snd app].
  rewrite trace_bind. unfold fetch at 1. rewrite Hinject.
  cbn [bind emit ret trace outcome fst snd app].
  eexists. reflexivity.
Qed.

End Dispatch.

(** C4, as the code has it.  For a dataset other than ["HCPL"] and ["DSI"]
    no error is raised by either dispatch: the input dispatch reports the
    progress message and leaves the DWI paths unassigned, the
    direction-getter dispatch builds nothing, and [run] goes on to download
    the injection mask. *)
Theorem unknown_dataset_reported :
  forall {num : Type} {A : Arith num} {L : Log10 num}
         (to_voxel_coordinates : @streamline num -> list nat) (nvox : nat)
         (rois : list Z) (counted : Z -> bool)
         (gaussian_filter : list num -> list num)
         (get_files : query -> list string)
         (local_tracking : dwi_paths -> direction_getter -> @bundle num)
         (pp ds : string),
    ds <> "HCPL"%string ->
    ds <> "DSI"%string ->
    fetch_dwi (num:=num) get_files ds
    = ([SetProgress "Wrong dataset parameter"], Ok None) /\
    make_direction_getter (num:=num) ds = ([], Ok None) /\
    (forall file rest,
        get_files (RegExpression ".*prep.inject.nii.gz") = file :: rest ->
        exists tr,
          trace (run to_voxel_coordinates nvox rois counted gaussian_filter
                     get_files local_tracking (Settings pp ds))
          = SetProgress "Wrong dataset parameter" :: Download file :: tr).
Proof.
  intros num A L tv nvox rois counted gf get_files lt pp ds H1 H2.
  split; [apply fetch_dwi_unknown; assumption|].
  split; [apply make_direction_getter_unknown; assumption|].
  intros file rest Hinject. eapply run_unknown_trace; eassumption.
Qed.

Lemma unknown_dataset_reported_witness :
  make_direction_getter (num:=R) "CSD" = ([], Ok None) /\
  exists tr,
    trace (run (fun _ => [0%nat]) 1 [1%Z] (fun _ => true) (fun d => d)
               one_file (fun _ _ => [segment 2]) (Settings "ALL" "CSD"))
    = SetProgress "Wrong dataset parameter"
      :: Download ".*prep.inject.nii.gz" :: tr.
Proof.
  assert (H1 : "CSD"%string <> "HCPL"%string) by discriminate.
  assert (H2 : "CSD"%string <> "DSI"%string) by discriminate.
  destruct (@unknown_dataset_reported R _ _ (fun _ => [0%nat]) 1%nat [1%Z]
              (fun _ => true) (fun d => d) one_file (fun _ _ => [segment 2])
              "ALL"%string "CSD"%string H1 H2) as (_ & Hdg & Hrun).
  split; [exact Hdg|]. exact (Hrun _ _ eq_refl).
Defined.

(** C4, as stated, fails for the dataset ["CSD"]: neither dispatch raises,
    no direction getter is built, and with all input files present [run]
    downloads the injection mask and the ROI volume before it stops at the
    first read of the unassigned DWI path. *)
Lemma unknown_dataset_counterexample :
  "CSD"%string <> "HCPL"%string /\
  "CSD"%string <> "DSI"%string /\
  outcome (fetch_dwi (num:=R) one_file "CSD") = Ok None /\
  outcome (make_direction_getter (num:=R) "CSD") = Ok None /\
  run (fun _ => [0%nat]) 1 [1%Z] (fun _ => true) (fun d => d)
      one_file (fun _ _ => [segment 2]) (Settings "ALL" "CSD")
  = ([SetProgress "Wrong dataset parameter";
      Download ".*prep.inject.nii.gz";
      Download ".*VUMC_ROIs.nii.gz"],
     Raise (UnboundLocalError "dwi_file_path")).
Proof.
  split; [discriminate|]. split; [discriminate|].
  split; [reflexivity|]. split; reflexivity.
Qed.


(** * Further properties of [run] *)

(** ** File numbers *)

Local Open Scope nat_scope.

Lemma length_zeros_append (k : nat) (s : string) :
  String.length (string_of_list_ascii (repeat "0"%char k) ++ s)
  = k + String.length s.
Proof. induction k as [|k IH]; simpl; [reflexivity | rewrite IH; reflexivity]. Qed.

Lemma zfill_length (width : nat) (s : string) :
  String.length (zfill width s) = Nat.max width (String.length s).
Proof. unfold zfill. rewrite length_zeros_append. lia. Qed.

Lemma zfill_wide (width : nat) (s : string) :
  width <= String.length s -> zfill width s = s.
Proof.
  intros H. unfold zfill. replace (width - String.length s) with 0 by lia.
  reflexivity.
Qed.

Lemma int_of_nbr_zeros (k : nat) (s : string) :
  int_of_nbr (string_of_list_ascii (repeat "0"%char k) ++ s) = int_of_nbr s.
Proof.
  induction k as [|k IH]; [reflexivity|].
  unfold int_of_nbr in *. cbn [repeat string_of_list_ascii append].
  cbn [NilEmpty.uint_of_string].
  destruct (NilEmpty.uint_of_string
              (string_of_list_ascii (repeat "0"%char k) ++ s)) as [d|];
    cbn [uint_of_char option_map] in *; [|exact IH].
  rewrite <- IH. reflexivity.
Qed.

Lemma int_of_nbr_str (i : nat) : int_of_nbr (str i) = Some i.
Proof.
  unfold int_of_nbr, str. rewrite NilEmpty.usu. cbn [option_map].
  rewrite DecimalNat.Unsigned.of_to. reflexivity.
Qed.

Lemma str_short : forallb (fun i => String.length (str i) <=? 3) (seq 0 1000) = true.
Proof. vm_compute. reflexivity. Qed.

(** X1.  The number in a file name, [str(i).zfill(width)], reads back as
    [i] for every index and width, so different indices give different
    numbers; it has [max width (len (str i))] characters, is [str(i)] itself
    when that is already wide enough, and has exactly three characters for
    an index below 1000 at the width 3 of the tool. *)
Theorem file_number_round_trip :
  forall (i j width : nat),
    int_of_nbr (zfill width (str i)) = Some i /\
    (zfill width (str i) = zfill width (str j) -> i = j) /\
    String.length (zfill width (str i))
    = Nat.max width (String.length (str i)) /\
    (width <= String.length (str j) -> zfill width (str j) = str j) /\
    (i < 1000 -> String.length (zfill 3 (str i)) = 3).
Proof.
  intros i j width.
  assert (Hrt : forall n, int_of_nbr (zfill width (str n)) = Some n).
  { intros n. unfold zfill. rewrite int_of_nbr_zeros. apply int_of_nbr_str. }
  split; [apply Hrt|].
  split.
  { intros E. assert (H := Hrt i). rewrite E, Hrt in H. congruence. }
  split; [apply zfill_length|].
  split; [apply zfill_wide|].
  intros Hi. rewrite zfill_length.
  assert (H := str_short). rewrite forallb_forall in H.
  specialize (H i). rewrite in_seq in H.
  assert (H3 : (String.length (str i) <=? 3) = true) by (apply H; lia).
  apply Nat.leb_le in H3. lia.
Qed.

Lemma file_number_round_trip_witness :
  int_of_nbr (zfill 3 (str 7)) = Some 7 /\ String.length (zfill 3 (str 7)) = 3.
Proof.
  assert (H : 7 < 1000) by lia.
  destruct (@file_number_round_trip 7 8 3) as (H1 & _ & _ & _ & H5).
  split; [exact H1 | exact (H5 H)].
Defined.

(** ** The threshold loop in every arithmetic *)

Lemma map_fst_enumerate {X} (l : list X) :
  map fst (enumerate l) = seq 0 (List.length l).
Proof.
  unfold enumerate. generalize 0. induction l as [|x l IH]; intros a; simpl;
    [reflexivity | rewrite IH; reflexivity].
Qed.

Lemma fold_maximum_repeat {num} {A : Arith num} (x : num) (n : nat) :
  fold_left maximum (repeat x n) x = x.
Proof.
  induction n as [|n IH]; simpl; [reflexivity|].
  replace (maximum x x) with x
    by (unfold maximum; destruct (leb x x), (ltb x x); reflexivity).
  exact IH.
Qed.

Lemma arange_first {num} {A : Arith num} (start stop step t : num)
      (ts : list num) :
  arange start stop step = Ok ts -> nth_error ts 0 = Some t -> t = start.
Proof.
  unfold arange. destruct (ceil_quot _ _) as [len| |]; [|discriminate..].
  destruct (len <=? 0)%Z.
  - intros H. injection H as <-. discriminate.
  - intros H. injection H as <-.
    destruct (Z.to_nat len); simpl; [discriminate|].
    intros H. injection H as <-. reflexivity.
Qed.

(** X2.  In every arithmetic the volumes the loop emits are numbered
    0, 1, 2, ... in order and the first threshold is the converted integer
    0; each volume has as many voxels as the log-density volume and holds
    only 0 and 1, and its voxel [k] is 1 exactly when the comparison
    [t <= log_density[k]] of that arithmetic holds for its own threshold
    [t]. *)
Theorem emitted_volumes_shape :
  forall {num : Type} {A : Arith num} (ld : list num) (vols : list volume),
    threshold_loop ld = Ok vols ->
    map vol_index vols = seq 0 (List.length vols) /\
    (forall v, nth_error vols 0 = Some v -> vol_threshold v = of_int 0) /\
    Forall (fun v =>
              List.length (vol_data v) = List.length ld /\
              Forall (fun z => z = 0%Z \/ z = 1%Z) (vol_data v) /\
              forall k x, nth_error ld k = Some x ->
                nth_error (vol_data v) k
                = Some (if leb (vol_threshold v) x then 1%Z else 0%Z)) vols.
Proof.
  intros num A ld vols. unfold threshold_loop.
  destruct (np_max ld) as [M|e]; [|discriminate]. cbn [rbind].
  destruct (arange _ _ _) as [ts|e] eqn:Ear; [|discriminate]. cbn [rbind].
  intros H. injection H as <-. split; [|split].
  - rewrite map_map. cbn [vol_index]. rewrite length_map.
    change (fun x : nat * num => fst x) with (@fst nat num).
    rewrite map_fst_enumerate. unfold enumerate.
    rewrite length_combine, length_seq, Nat.min_id. reflexivity.
  - intros v Hv. rewrite nth_error_map, nth_error_enumerate in Hv.
    destruct (nth_error ts 0) as [t|] eqn:Et; [|discriminate].
    injection Hv as <-. cbn [vol_threshold snd].
    eapply arange_first; eassumption.
  - apply Forall_forall. intros v Hv. apply in_map_iff in Hv.
    destruct Hv as ([i t] & <- & _). cbn [fst snd vol_data vol_threshold].
    unfold astype_int32, ge_mask. rewrite map_map.
    split; [rewrite length_map; reflexivity|]. split.
    + apply Forall_forall. intros z Hz. apply in_map_iff in Hz.
      destruct Hz as (x & <- & _). destruct (leb t x); auto.
    + intros k x Hk. rewrite nth_error_map, Hk. reflexivity.
Qed.

Lemma emitted_volumes_shape_witness :
  exists vols,
    @threshold_loop _ Float.numpy1 [S754_zero false; half64; M64] = Ok vols /\
    map vol_index vols = seq 0 (List.length vols) /\
    (forall v, nth_error vols 0 = Some v ->
               vol_threshold v = @of_int _ Float.numpy1 0).
Proof.
  eexists. split; [vm_compute; reflexivity|].
  refine (let H := @emitted_volumes_shape _ Float.numpy1
                     [S754_zero false; half64; M64] _ _ in
          conj (proj1 H) (proj1 (proj2 H))).
  vm_compute. reflexivity.
Defined.

(** X3.  On a volume without voxels the loop raises the zero-size
    [ValueError] of [np.max]; on every all-zero volume with at least one
    voxel the step is 0, the quotient 0 / 0 is nan and [np.arange] raises
    [ValueError: arange: cannot compute length], in exact arithmetic and
    under both promotion rules of numpy.  When the float32 step underflows
    to 0 under a positive maximum, the quotient is infinite and
    [np.arange] raises [ValueError: Maximum allowed size exceeded]. *)
Theorem threshold_loop_errors :
  forall n : nat,
    (forall (num : Type) (A : Arith num),
        @threshold_loop num A []
        = Raise (ValueError
            "zero-size array to reduction operation maximum which has no identity")) /\
    threshold_loop (repeat 0%R (S n))
    = Raise (ValueError "arange: cannot compute length") /\
    @threshold_loop _ Float.numpy1 (repeat (S754_zero false) (S n))
    = Raise (ValueError "arange: cannot compute length") /\
    @threshold_loop _ Float.numpy2 (repeat (S754_zero false) (S n))
    = Raise (ValueError "arange: cannot compute length") /\
    @threshold_loop _ Float.numpy2
       (repeat (S754_zero false) n ++ [S754_finite false 1 (-149)])
    = Raise (ValueError "Maximum allowed size exceeded").
Proof.
  intros n. split; [reflexivity|]. split; [|split; [|split]].
  - apply threshold_loop_exact_zero. simpl.
    rewrite fold_maximum_zeros. reflexivity.
  - unfold threshold_loop. cbn [repeat np_max].
    rewrite (@fold_maximum_repeat _ Float.numpy1). vm_compute. reflexivity.
  - unfold threshold_loop. cbn [repeat np_max].
    rewrite (@fold_maximum_repeat _ Float.numpy2). vm_compute. reflexivity.
  - unfold threshold_loop.
    assert (Hmax : @np_max _ Float.numpy2
                     (repeat (S754_zero false) n ++ [S754_finite false 1 (-149)])
                   = Ok (S754_finite false 1 (-149))).
    { destruct n as [|n]; [reflexivity|].
      cbn [repeat app np_max]. rewrite fold_left_app.
      rewrite (@fold_maximum_repeat _ Float.numpy2). reflexivity. }
    rewrite Hmax. vm_compute. reflexivity.
Qed.

(** ** The branches of the post-processing *)

Lemma threshold_loop_indices {num} {A : Arith num} (ld : list num)
      (vols : list volume) :
  threshold_loop ld = Ok vols ->
  map vol_index vols = seq 0 (List.length vols).
Proof.
  unfold threshold_loop.
  destruct (np_max ld) as [M|e]; [|discriminate]. cbn [rbind].
  destruct (arange _ _ _) as [ts|e]; [|discriminate]. cbn [rbind].
  intros H. injection H as <-.
  rewrite map_map. cbn [vol_index]. rewrite length_map.
  change (fun x : nat * num => fst x) with (@fst nat num).
  rewrite map_fst_enumerate. unfold enumerate.
  rewrite length_combine, length_seq, Nat.min_id. reflexivity.
Qed.

Lemma threshold_loop_raises_value {num} {A : Arith num} (ld : list num)
      (e : exn) :
  threshold_loop ld = Raise e -> exists msg, e = ValueError msg.
Proof.
  unfold threshold_loop. destruct ld as [|x ld]; simpl.
  - intros H. injection H as <-. eexists. reflexivity.
  - unfold arange. destruct (ceil_quot _ _) as [len| |]; cbn [rbind].
    + destruct (len <=? 0)%Z; discriminate.
    + intros H. injection H as <-. eexists. reflexivity.
    + intros H. injection H as <-. eexists. reflexivity.
Qed.

Section BranchFacts.

Context {num : Type} {A : Arith num} {L : Log10 num}.
Variable to_voxel_coordinates : @streamline num -> list nat.
Variable nvox : nat.
Variable rois : list Z.
Variable counted : Z -> bool.
Variable gaussian_filter : list num -> list num.

Let epfl := epfl_branch to_voxel_coordinates nvox gaussian_filter.
Let vumc := vumc_branch to_voxel_coordinates nvox rois counted gaussian_filter.
Let volumes := density_volumes to_voxel_coordinates nvox gaussian_filter.
Let cfilter := connectivity_filter to_voxel_coordinates rois counted.

Lemma write_volumes_eq (folder : string) (vols : list (@volume num)) :
  write_volumes folder vols = (volume_files folder vols, Ok tt).
Proof.
  induction vols as [|v vols IH]; [reflexivity|].
  cbn [write_volumes volume_files map]. rewrite IH. reflexivity.
Qed.

Lemma epfl_branch_ok (ss : bundle) (vols : list volume) :
  volumes (length_filter ss) = Ok vols ->
  epfl ss
  = ([SetProgress "Processing density map (EPFL)"; Mkdir "/root/vol_epfl"]
       ++ volume_files "/root/vol_epfl" vols
       ++ [MakeArchive "/root/TrackyMcTrackface_EPFL_example" "/root/vol_epfl"],
     Ok (length_filter ss)).
Proof.
  unfold epfl, volumes, epfl_branch. intros H. rewrite H.
  cbn [bind emit lift app]. rewrite write_volumes_eq.
  cbn [bind emit ret app]. reflexivity.
Qed.

Lemma vumc_branch_ok (ss : bundle) (vols : list volume) :
  volumes (cfilter (length_filter ss)) = Ok vols ->
  vumc ss
  = ([SetProgress "Processing density map (VUMC)"; Mkdir "/root/vol_vumc"]
       ++ volume_files "/root/vol_vumc" vols
       ++ [MakeArchive "/root/TrackyMcTrackface_VUMC_example" "/root/vol_vumc"],
     Ok (cfilter (length_filter ss))).
Proof.
  unfold vumc, volumes, cfilter, vumc_branch, vumc_connectivity_input.
  intros H. rewrite H.
  cbn [bind emit lift app]. rewrite write_volumes_eq.
  cbn [bind emit ret app]. reflexivity.
Qed.

Lemma vumc_branch_raises (ss : bundle) (e : exn) :
  volumes (cfilter (length_filter ss)) = Raise e ->
  vumc ss = ([SetProgress "Processing density map (VUMC)";
              Mkdir "/root/vol_vumc"], Raise e).
Proof.
  unfold vumc, volumes, cfilter, vumc_branch, vumc_connectivity_input.
  intros H. rewrite H. reflexivity.
Qed.

Lemma density_volumes_indices (ss : bundle) (vols : list volume) :
  volumes ss = Ok vols -> map vol_index vols = seq 0 (List.length vols).
Proof. apply threshold_loop_indices. Qed.

Lemma volume_files_numbers (folder : string) (vols : list (@volume num)) :
  map vol_index vols = seq 0 (List.length vols) ->
  map (fun e => match e with
                | ToFilename _ nbr _ _ => int_of_nbr nbr
                | _ => None
                end) (volume_files folder vols)
  = map Some (seq 0 (List.length vols)).
Proof.
  intros H. rewrite <- H. unfold volume_files. rewrite !map_map.
  apply map_ext. intros v. unfold zfill.
  rewrite int_of_nbr_zeros. apply int_of_nbr_str.
Qed.

End BranchFacts.

(** X4.  Each branch on its own: when its density quantizer returns, the
    branch reports its start, creates its folder, writes one file per
    emitted volume in the order of the thresholds, archives the folder and
    leaves the filtered bundle in [streamlines], and the numbers in the
    file names read back as 0, 1, 2, ..., so no volume overwrites another;
    when its quantizer raises, the branch stops after creating its folder,
    with no file written and nothing archived.  The VUMC branch quantizes
    the length-filtered bundle after the connectivity filter. *)
Theorem branch_writes_each_volume :
  forall {num : Type} {A : Arith num} {L : Log10 num}
         (to_voxel_coordinates : @streamline num -> list nat) (nvox : nat)
         (rois : list Z) (counted : Z -> bool)
         (gaussian_filter : list num -> list num) (ss : bundle),
    (forall vols : list volume,
        density_volumes to_voxel_coordinates nvox gaussian_filter
                        (length_filter ss) = Ok vols ->
        epfl_branch to_voxel_coordinates nvox gaussian_filter ss
        = ([SetProgress "Processing density map (EPFL)"; Mkdir "/root/vol_epfl"]
             ++ volume_files "/root/vol_epfl" vols
             ++ [MakeArchive "/root/TrackyMcTrackface_EPFL_example"
                             "/root/vol_epfl"],
           Ok (length_filter ss)) /\
        map (fun e => match e with
                      | ToFilename _ nbr _ _ => int_of_nbr nbr
                      | _ => None
                      end) (volume_files "/root/vol_epfl" vols)
        = map Some (seq 0 (List.length vols))) /\
    (forall e : exn,
        density_volumes to_voxel_coordinates nvox gaussian_filter
                        (length_filter ss) = Raise e ->
        epfl_branch to_voxel_coordinates nvox gaussian_filter ss
        = ([SetProgress "Processing density map (EPFL)"; Mkdir "/root/vol_epfl"],
           Raise e)) /\
    (forall wols : list volume,
        density_volumes to_voxel_coordinates nvox gaussian_filter
                        (connectivity_filter to_voxel_coordinates rois counted
                                             (length_filter ss)) = Ok wols ->
        vumc_branch to_voxel_coordinates nvox rois counted gaussian_filter ss
        = ([SetProgress "Processing density map (VUMC)"; Mkdir "/root/vol_vumc"]
             ++ volume_files "/root/vol_vumc" wols
             ++ [MakeArchive "/root/TrackyMcTrackface_VUMC_example"
                             "/root/vol_vumc"],
           Ok (connectivity_filter to_voxel_coordinates rois counted
                                   (length_filter ss))) /\
        map (fun e => match e with
                      | ToFilename _ nbr _ _ => int_of_nbr nbr
                      | _ => None
                      end) (volume_files "/root/vol_vumc" wols)
        = map Some (seq 0 (List.length wols))) /\
    (forall e : exn,
        density_volumes to_voxel_coordinates nvox gaussian_filter
                        (connectivity_filter to_voxel_coordinates rois counted
                                             (length_filter ss)) = Raise e ->
        vumc_branch to_voxel_coordinates nvox rois counted gaussian_filter ss
        = ([SetProgress "Processing density map (VUMC)"; Mkdir "/root/vol_vumc"],
           Raise e)).
Proof.
  intros num A L tv nvox rois counted gf ss.
  split; [|split; [|split]].
  - intros vols Hv. split; [apply epfl_branch_ok; exact Hv|].
    apply volume_files_numbers. eapply density_volumes_indices; eassumption.
  - intros e He. apply epfl_branch_raises. exact He.
  - intros wols Hw. split; [apply vumc_branch_ok; exact Hw|].
    apply volume_files_numbers. eapply density_volumes_indices; eassumption.
  - intros e He. apply vumc_branch_raises. exact He.
Qed.

(** One streamline through both voxels of a two-voxel grid. *)
Lemma density_volumes_two_voxels :
  exists vols,
    density_volumes (fun _ : @streamline R => [0; 1]) 2 (fun d => d)
                    [segment 2] = Ok vols.
Proof.
  assert (HM : log10 (1 + 1)%R <> 0%R) by (assert (H := log10_2_pos); lra).
  assert (Hmax : np_max (log_transform [1%R; 1%R]) = Ok (log10 (1 + 1)%R)).
  { unfold log_transform. cbn [map np_max fold_left]. exact_arith.
    change (IZR 1) with 1%R.
    replace (maximum (log10 (1 + 1)%R) (log10 (1 + 1)%R)) with (log10 (1 + 1)%R)
      by (unfold maximum; destruct (leb _ _), (ltb _ _); reflexivity).
    reflexivity. }
  eexists. unfold density_volumes, density_map, visits.
  cbn [seq map filter existsb Nat.eqb orb List.length]. exact_arith.
  change (IZR (Z.of_nat 1)) with 1%R.
  apply (threshold_loop_exact _ Hmax HM).
Qed.

(** ** The cases of a run *)

Section RunFacts.

Context {num : Type} {A : Arith num} {L : Log10 num}.
Variable to_voxel_coordinates : @streamline num -> list nat.
Variable nvox : nat.
Variable rois : list Z.
Variable counted : Z -> bool.
Variable gaussian_filter : list num -> list num.
Variable get_files : query -> list string.
Variable local_tracking : dwi_paths -> direction_getter -> @bundle num.

Let run' := run to_voxel_coordinates nvox rois counted gaussian_filter
                get_files local_tracking.
Let post := postprocess to_voxel_coordinates nvox rois counted gaussian_filter.

Lemma upload_eq (pp ds : string) :
  upload (num:=num) pp ds
  = (SetProgress "Uploading results..." :: uploads pp ds, Ok tt).
Proof.
  unfold upload, uploads.
  destruct (member pp ["EPFL"; "ALL"]%string),
           (member pp ["VUMC"; "ALL"]%string); reflexivity.
Qed.

Ltac run_steps :=
  unfold run', run, fetch_dwi, fetch, make_direction_getter;
  cbn [dataset postprocessing];
  repeat match goal with
         | H : get_files _ = _ |- _ => rewrite H
         | H : String.eqb _ _ = _ |- _ => rewrite H
         end;
  rewrite ?String.eqb_refl;
  cbn [trace outcome fst snd bind lift emit ret app read_local String.eqb
       Ascii.eqb Bool.eqb].

Ltac missing query :=
  apply MissingFile with (q := query);
  [ unfold required_queries; cbn [dataset];
    repeat match goal with
           | H : String.eqb _ _ = _ |- _ => rewrite H
           end;
    simpl; tauto
  | assumption
  | run_steps; reflexivity
  | run_steps;
    repeat (constructor; [first [left; reflexivity | right; reflexivity]|]);
    constructor ].

Ltac present :=
  let q := fresh "q" in let Hq := fresh "Hq" in
  intros q Hq; unfold required_queries in Hq; cbn [dataset] in Hq;
  repeat match goal with
         | H : String.eqb _ _ = _ |- _ => rewrite H in Hq
         end;
  simpl in Hq;
  repeat (destruct Hq as [<-|Hq]; [congruence|]); destruct Hq.

Ltac rewrite_files :=
  repeat match goal with
         | H : get_files _ = _ |- _ => rewrite H
         end.

Ltac files_eq :=
  unfold dwi_inputs, required_queries, first_path; cbn [dataset];
  rewrite ?String.eqb_refl; cbn [String.eqb Ascii.eqb Bool.eqb app];
  rewrite_files; reflexivity.

Ltac tracked :=
  run_steps; unfold post, preamble, required_queries;
  cbn [String.eqb Ascii.eqb Bool.eqb app flat_map]; rewrite_files;
  match goal with
  | |- context [bind (postprocess ?a ?b ?c ?d ?e ?pp ?ss) ?k] =>
      destruct (bind (postprocess a b c d e pp ss) k) as [trp rp]
  end;
  reflexivity.

Lemma run_cases (s : settings) :
  run_case to_voxel_coordinates nvox rois counted gaussian_filter get_files
           local_tracking s.
Proof.
  destruct s as [pp ds].
  destruct (get_files (RegExpression ".*prep.inject.nii.gz")) as [|f4 r4] eqn:E4;
  destruct (get_files (RegExpression ".*VUMC_ROIs.nii.gz")) as [|f5 r5] eqn:E5;
  (destruct (String.eqb ds "HCPL") eqn:EH;
   [ apply String.eqb_eq in EH; subst ds;
     destruct (get_files (Modality "HARDI")) as [|f1 r1] eqn:E1;
     destruct (get_files (RegExpression ".*prep.bvalues.hcpl.txt"))
       as [|f2 r2] eqn:E2;
     destruct (get_files (RegExpression ".*prep.gradients.hcpl.txt"))
       as [|f3 r3] eqn:E3
   | destruct (String.eqb ds "DSI") eqn:ED;
     [ apply String.eqb_eq in ED; subst ds;
       destruct (get_files (Modality "DSI")) as [|f1 r1] eqn:E1;
       destruct (get_files (RegExpression ".*prep.bvalues.txt"))
         as [|f2 r2] eqn:E2;
       destruct (get_files (RegExpression ".*prep.gradients.txt"))
         as [|f3 r3] eqn:E3
     | idtac ] ]);
  first
    [ missing (Modality "HARDI")
    | missing (Modality "DSI")
    | missing (RegExpression ".*prep.bvalues.hcpl.txt")
    | missing (RegExpression ".*prep.gradients.hcpl.txt")
    | missing (RegExpression ".*prep.bvalues.txt")
    | missing (RegExpression ".*prep.gradients.txt")
    | missing (RegExpression ".*prep.inject.nii.gz")
    | missing (RegExpression ".*VUMC_ROIs.nii.gz")
    | idtac ].
  - apply Tracked with (paths := DwiPaths ("/root/" ++ f1) ("/root/" ++ f2)
                                         ("/root/" ++ f3))
                       (dg := from_shcoeff);
      [ present | files_eq | reflexivity | tracked | tracked ].
  - apply Tracked with (paths := DwiPaths ("/root/" ++ f1) ("/root/" ++ f2)
                                         ("/root/" ++ f3))
                       (dg := from_pmf);
      [ present | files_eq | reflexivity | tracked | tracked ].
  - apply UnknownDataset with (inject := f4) (vumc_rois := f5)
                              (r1 := r4) (r2 := r5);
      [ apply String.eqb_neq; assumption | apply String.eqb_neq; assumption
      | assumption | assumption | run_steps; reflexivity ].
Qed.

End RunFacts.

(** ** The post-processing as a whole *)

Section PostFacts.

Context {num : Type} {A : Arith num} {L : Log10 num}.
Variable to_voxel_coordinates : @streamline num -> list nat.
Variable nvox : nat.
Variable rois : list Z.
Variable counted : Z -> bool.
Variable gaussian_filter : list num -> list num.

Let epfl := epfl_branch to_voxel_coordinates nvox gaussian_filter.
Let vumc := vumc_branch to_voxel_coordinates nvox rois counted gaussian_filter.
Let volumes := density_volumes to_voxel_coordinates nvox gaussian_filter.
Let cfilter := connectivity_filter to_voxel_coordinates rois counted.
Let post := postprocess to_voxel_coordinates nvox rois counted gaussian_filter.

Lemma epfl_branch_eq (ss : bundle) :
  epfl ss
  = branch_result "Processing density map (EPFL)" "/root/vol_epfl"
                  "/root/TrackyMcTrackface_EPFL_example"
                  (length_filter ss) (volumes (length_filter ss)).
Proof.
  unfold epfl, volumes.
  destruct (density_volumes to_voxel_coordinates nvox gaussian_filter
              (length_filter ss)) as [vols|e] eqn:E.
  - apply epfl_branch_ok. exact E.
  - apply epfl_branch_raises. exact E.
Qed.

Lemma vumc_branch_eq (ss : bundle) :
  vumc ss
  = branch_result "Processing density map (VUMC)" "/root/vol_vumc"
                  "/root/TrackyMcTrackface_VUMC_example"
                  (cfilter (length_filter ss))
                  (volumes (cfilter (length_filter ss))).
Proof.
  unfold vumc, volumes, cfilter.
  destruct (density_volumes to_voxel_coordinates nvox gaussian_filter
              (connectivity_filter to_voxel_coordinates rois counted
                                   (length_filter ss))) as [vols|e] eqn:E.
  - apply vumc_branch_ok. exact E.
  - apply vumc_branch_raises. exact E.
Qed.

Lemma density_volumes_raises_value (ss : bundle) (e : exn) :
  volumes ss = Raise e -> exists msg, e = ValueError msg.
Proof. apply threshold_loop_raises_value. Qed.

Lemma volume_files_no_upload (folder : string) (vols : list (@volume num)) :
  filter is_upload (volume_files folder vols) = [].
Proof. induction vols as [|v vols IH]; [reflexivity | exact IH]. Qed.

Lemma volume_files_no_archive (folder : string) (vols : list (@volume num)) :
  filter is_archive (volume_files folder vols) = [].
Proof. induction vols as [|v vols IH]; [reflexivity | exact IH]. Qed.

(** The post-processing, by the two mode tests and the two quantizers. *)
Lemma postprocess_eq (pp : string) (ss : bundle) :
  post pp ss
  = bind (if member pp ["EPFL"; "ALL"]%string
          then branch_result "Processing density map (EPFL)" "/root/vol_epfl"
                             "/root/TrackyMcTrackface_EPFL_example"
                             (length_filter ss) (volumes (length_filter ss))
          else ret ss)
         (fun ss1 =>
            if member pp ["VUMC"; "ALL"]%string
            then branch_result "Processing density map (VUMC)" "/root/vol_vumc"
                               "/root/TrackyMcTrackface_VUMC_example"
                               (cfilter (length_filter ss1))
                               (volumes (cfilter (length_filter ss1)))
            else ret ss1).
Proof.
  unfold post, postprocess, when.
  replace (if member pp ["EPFL"; "ALL"]%string
           then epfl_branch to_voxel_coordinates nvox gaussian_filter ss
           else ret ss)
    with (if member pp ["EPFL"; "ALL"]%string
          then branch_result "Processing density map (EPFL)" "/root/vol_epfl"
                             "/root/TrackyMcTrackface_EPFL_example"
                             (length_filter ss) (volumes (length_filter ss))
          else ret ss)
    by (destruct (member pp ["EPFL"; "ALL"]%string);
        [symmetry; apply epfl_branch_eq | reflexivity]).
  apply bind_ext. intros ss1.
  destruct (member pp ["VUMC"; "ALL"]%string);
    [apply vumc_branch_eq | reflexivity].
Qed.

Lemma postprocess_raises_value (pp : string) (ss : bundle) (e : exn) :
  outcome (post pp ss) = Raise e -> exists msg, e = ValueError msg.
Proof.
  rewrite postprocess_eq.
  destruct (member pp ["EPFL"; "ALL"]%string),
           (member pp ["VUMC"; "ALL"]%string);
    unfold branch_result;
    destruct (volumes (length_filter ss)) as [vols|e1] eqn:E1;
    cbn [bind ret outcome snd fst];
    rewrite ?length_filter_idempotent;
    destruct (volumes (cfilter (length_filter ss))) as [wols|e2] eqn:E2;
    cbn [bind ret outcome snd fst]; intros H; try discriminate;
    injection H as <-;
    first [ exact (density_volumes_raises_value _ E1)
          | exact (density_volumes_raises_value _ E2) ].
Qed.

Lemma postprocess_no_upload (pp : string) (ss : bundle) :
  filter is_upload (trace (post pp ss)) = [].
Proof.
  rewrite postprocess_eq.
  destruct (member pp ["EPFL"; "ALL"]%string),
           (member pp ["VUMC"; "ALL"]%string);
    unfold branch_result;
    destruct (volumes (length_filter ss)) as [vols|e1];
    cbn [bind ret trace fst snd];
    rewrite ?length_filter_idempotent;
    destruct (volumes (cfilter (length_filter ss))) as [wols|e2];
    cbn [bind ret trace fst snd];
    rewrite ?filter_app, ?volume_files_no_upload; reflexivity.
Qed.

Lemma postprocess_archives (pp : string) (ss ss' : bundle) :
  outcome (post pp ss) = Ok ss' ->
  filter is_archive (trace (post pp ss)) = archives pp.
Proof.
  rewrite postprocess_eq. unfold archives.
  destruct (member pp ["EPFL"; "ALL"]%string),
           (member pp ["VUMC"; "ALL"]%string);
    unfold branch_result;
    destruct (volumes (length_filter ss)) as [vols|e1];
    cbn [bind ret trace outcome fst snd];
    rewrite ?length_filter_idempotent;
    destruct (volumes (cfilter (length_filter ss))) as [wols|e2];
    cbn [bind ret trace outcome fst snd];
    intros H; try discriminate;
    rewrite ?filter_app, ?volume_files_no_archive; reflexivity.
Qed.

(** When the post-processing ends normally, and with which bundle. *)
Lemma postprocess_ok_iff (pp : string) (ss ss' : bundle) :
  outcome (post pp ss) = Ok ss' <->
  (member pp ["EPFL"; "ALL"]%string = true ->
   exists vols, volumes (length_filter ss) = Ok vols) /\
  (member pp ["VUMC"; "ALL"]%string = true ->
   exists vols, volumes (cfilter (length_filter ss)) = Ok vols) /\
  ss' = (if member pp ["VUMC"; "ALL"]%string then cfilter (length_filter ss)
         else if member pp ["EPFL"; "ALL"]%string then length_filter ss
         else ss).
Proof.
  rewrite postprocess_eq.
  destruct (member pp ["EPFL"; "ALL"]%string),
           (member pp ["VUMC"; "ALL"]%string);
    unfold branch_result;
    destruct (volumes (length_filter ss)) as [vols|e] eqn:E1;
    cbn [bind ret outcome snd fst];
    rewrite ?length_filter_idempotent;
    try (destruct (volumes (cfilter (length_filter ss))) as [wols|e'] eqn:E2);
    cbn [bind ret outcome snd fst];
    (split;
     [ intros H; try discriminate; injection H as <-;
       repeat split; intros; try discriminate; eauto
     | intros (H1 & H2 & H3);
       try (destruct (H1 eq_refl) as (? & ?); discriminate);
       try (destruct (H2 eq_refl) as (? & ?); discriminate);
       subst; reflexivity ]).
Qed.

End PostFacts.

(** ** How a run ends *)

Lemma required_queries_unknown (ds : string) :
  ds <> "HCPL"%string -> ds <> "DSI"%string ->
  required_queries ds = [RegExpression ".*prep.inject.nii.gz";
                         RegExpression ".*VUMC_ROIs.nii.gz"]
  /\ getter_for ds = None.
Proof.
  intros H1 H2. unfold required_queries, getter_for.
  rewrite (proj2 (String.eqb_neq _ _) H1), (proj2 (String.eqb_neq _ _) H2).
  split; reflexivity.
Qed.

Lemma getter_for_known (ds : string) (dg : direction_getter) :
  getter_for ds = Some dg ->
  ds = "HCPL"%string /\ dg = from_shcoeff \/ ds = "DSI"%string /\ dg = from_pmf.
Proof.
  unfold getter_for.
  destruct (String.eqb ds "HCPL") eqn:EH.
  - apply String.eqb_eq in EH. intros H. injection H as <-. auto.
  - destruct (String.eqb ds "DSI") eqn:ED; [|discriminate].
    apply String.eqb_eq in ED. intros H. injection H as <-. auto.
Qed.

Lemma filter_false_of_Forall {X} (f : X -> bool) (l : list X) :
  Forall (fun x => f x = false) l -> filter f l = [].
Proof.
  induction 1 as [|x l Hx _ IH]; simpl; [reflexivity|].
  rewrite Hx. exact IH.
Qed.

Section RunProperties.

Context {num : Type} {A : Arith num} {L : Log10 num}.
Variable to_voxel_coordinates : @streamline num -> list nat.
Variable nvox : nat.
Variable rois : list Z.
Variable counted : Z -> bool.
Variable gaussian_filter : list num -> list num.
Variable get_files : query -> list string.
Variable local_tracking : dwi_paths -> direction_getter -> @bundle num.

Local Abbreviation run' :=
  (run to_voxel_coordinates nvox rois counted gaussian_filter
       get_files local_tracking).
Local Abbreviation post :=
  (postprocess to_voxel_coordinates nvox rois counted gaussian_filter).
Local Abbreviation volumes :=
  (density_volumes to_voxel_coordinates nvox gaussian_filter).
Local Abbreviation cfilter :=
  (connectivity_filter to_voxel_coordinates rois counted).
Local Abbreviation cases :=
  (run_cases to_voxel_coordinates nvox rois counted gaussian_filter
             get_files local_tracking).

Lemma post_upload_outcome (pp ds : string) (ss : bundle) :
  outcome (bind (post pp ss) (fun _ => upload pp ds))
  = match outcome (post pp ss) with
    | Ok _ => Ok tt
    | Raise e => Raise e
    end.
Proof.
  rewrite outcome_bind. destruct (outcome (post pp ss)); [|reflexivity].
  rewrite upload_eq. reflexivity.
Qed.

Lemma post_upload_trace (pp ds : string) (ss : bundle) :
  trace (bind (post pp ss) (fun _ => upload pp ds))
  = (trace (post pp ss)
     ++ match outcome (post pp ss) with
        | Ok _ => SetProgress "Uploading results..." :: uploads pp ds
        | Raise _ => []
        end)%list.
Proof.
  rewrite trace_bind. destruct (outcome (post pp ss)); [|reflexivity].
  rewrite upload_eq. reflexivity.
Qed.

Lemma preamble_no_upload (ds : string) :
  filter is_upload (preamble (num:=num) get_files ds) = [].
Proof.
  unfold preamble. rewrite filter_app. cbn [filter is_upload].
  rewrite app_nil_r. induction (required_queries ds) as [|q l IH];
    [reflexivity|].
  cbn [flat_map]. rewrite filter_app, IH.
  destruct (get_files q); reflexivity.
Qed.

Lemma preamble_no_archive (ds : string) :
  filter is_archive (preamble (num:=num) get_files ds) = [].
Proof.
  unfold preamble. rewrite filter_app. cbn [filter is_archive].
  rewrite app_nil_r. induction (required_queries ds) as [|q l IH];
    [reflexivity|].
  cbn [flat_map]. rewrite filter_app, IH.
  destruct (get_files q); reflexivity.
Qed.

Lemma uploads_filter (pp ds : string) :
  filter is_upload (uploads (num:=num) pp ds) = uploads pp ds.
Proof.
  unfold uploads.
  destruct (member pp ["EPFL"; "ALL"]%string),
           (member pp ["VUMC"; "ALL"]%string); reflexivity.
Qed.

Lemma uploads_no_archive (pp ds : string) :
  filter is_archive (uploads (num:=num) pp ds) = [].
Proof.
  unfold uploads.
  destruct (member pp ["EPFL"; "ALL"]%string),
           (member pp ["VUMC"; "ALL"]%string); reflexivity.
Qed.

Lemma missing_no_upload (tr : list (@event num)) :
  Forall (fun e => is_download e = true
                   \/ e = SetProgress "Wrong dataset parameter") tr ->
  filter is_upload tr = [] /\ filter is_archive tr = [].
Proof.
  intros H. split; apply filter_false_of_Forall;
    (eapply Forall_impl; [|exact H]); intros e [He| ->];
    try reflexivity; destruct e; simpl in *; congruence.
Qed.

(** X5.  [run] ends normally only if the dataset is ["HCPL"] or ["DSI"],
    each of the five input files it asks for has a match, and the density
    quantizer of every branch the mode selects returns: for ["EPFL"] and
    ["ALL"] on the length-filtered tracker output, for ["VUMC"] and
    ["ALL"] on that bundle after the connectivity filter. *)
Theorem run_ends_normally_only_if :
  forall s : settings,
    outcome (run' s) = Ok tt ->
    (dataset s = "HCPL"%string \/ dataset s = "DSI"%string) /\
    exists paths dg,
      (forall q, In q (required_queries (dataset s)) -> get_files q <> []) /\
      dwi_inputs get_files (dataset s) = Some paths /\
      getter_for (dataset s) = Some dg /\
      (member (postprocessing s) ["EPFL"; "ALL"]%string = true ->
       exists vols,
         volumes (length_filter (local_tracking paths dg)) = Ok vols) /\
      (member (postprocessing s) ["VUMC"; "ALL"]%string = true ->
       exists vols,
         volumes (cfilter (length_filter (local_tracking paths dg))) = Ok vols).
Proof.
  intros s. destruct (cases s) as
      [q Hq Hnone Hout _ | f4 f5 r4 r5 H1 H2 E4 E5 Hrun
       | paths dg Hall Hin Hdg _ Hout].
  - cbv zeta in Hout. rewrite Hout. discriminate.
  - cbv zeta in Hrun. rewrite Hrun. discriminate.
  - cbv zeta in Hout. rewrite Hout, post_upload_outcome. intros H.
    destruct (outcome (post (postprocessing s) (local_tracking paths dg)))
      as [ss'|e] eqn:E; [|discriminate].
    apply postprocess_ok_iff in E. destruct E as (Ha & Hb & _).
    split.
    + destruct (getter_for_known _ Hdg) as [(Hd & _)|(Hd & _)]; auto.
    + exists paths, dg. repeat split; assumption.
Qed.

(** X6.  When one of the input files [run] asks for has no match, [run]
    ends by [IndexError] and nothing is processed: the trace holds only
    downloads and, for an unrecognised dataset, its progress message.  The
    ROI volume is among the files asked for in every mode. *)
Theorem missing_file_index_error :
  forall s : settings,
    ((exists q, In q (required_queries (dataset s)) /\ get_files q = []) ->
     outcome (run' s) = Raise IndexError /\
     Forall (fun e => is_download e = true
                      \/ e = SetProgress "Wrong dataset parameter")
            (trace (run' s))) /\
    In (RegExpression ".*VUMC_ROIs.nii.gz") (required_queries (dataset s)).
Proof.
  intros s. split.
  - intros (q' & Hq' & Hnone').
    destruct (cases s) as
        [q Hq Hnone Hout Htr | f4 f5 r4 r5 H1 H2 E4 E5 Hrun
         | paths dg Hall Hin Hdg _ Hout].
    + cbv zeta in Hout. split; [exact Hout | exact Htr].
    + exfalso. destruct (required_queries_unknown H1 H2) as (Hr & _).
      rewrite Hr in Hq'. simpl in Hq'.
      destruct Hq' as [<-|[<-|[]]]; congruence.
    + exfalso. exact (Hall q' Hq' Hnone').
  - unfold required_queries. apply in_or_app. right. simpl. tauto.
Qed.

(** X7.  [run] ends by [UnboundLocalError] exactly when the dataset is
    neither ["HCPL"] nor ["DSI"] and the injection mask and the ROI volume
    both have a match; the local is then [dwi_file_path], read at line 93,
    whatever the mode, and the run has reported the wrong dataset and
    downloaded the two files.  The read of [prob_dg] at line 151 never
    fails. *)
Theorem unbound_local_iff_unknown_dataset :
  forall (s : settings) (name : string),
    (outcome (run' s) = Raise (UnboundLocalError name) <->
     name = "dwi_file_path"%string /\
     dataset s <> "HCPL"%string /\ dataset s <> "DSI"%string /\
     get_files (RegExpression ".*prep.inject.nii.gz") <> [] /\
     get_files (RegExpression ".*VUMC_ROIs.nii.gz") <> []) /\
    (outcome (run' s) = Raise (UnboundLocalError name) ->
     exists inject vumc_rois,
       trace (run' s) = [SetProgress "Wrong dataset parameter";
                         Download inject; Download vumc_rois]).
Proof.
  intros s name.
  destruct (cases s) as
      [q Hq Hnone Hout _ | f4 f5 r4 r5 H1 H2 E4 E5 Hrun
       | paths dg Hall Hin Hdg _ Hout].
  - cbv zeta in Hout. rewrite Hout. split; [split|]; try discriminate.
    intros (_ & H1 & H2 & H4 & H5).
    destruct (required_queries_unknown H1 H2) as (Hr & _).
    rewrite Hr in Hq. simpl in Hq. destruct Hq as [<-|[<-|[]]]; contradiction.
  - cbv zeta in Hrun. rewrite Hrun. cbn [outcome trace fst snd].
    split; [split|].
    + intros H. injection H as <-. rewrite E4, E5.
      repeat split; try assumption; discriminate.
    + intros (-> & _). reflexivity.
    + intros _. exists f4, f5. reflexivity.
  - cbv zeta in Hout. rewrite Hout, post_upload_outcome.
    assert (Hno : match outcome (post (postprocessing s)
                                      (local_tracking paths dg)) with
                  | Ok _ => Ok tt
                  | Raise e => Raise e
                  end <> Raise (UnboundLocalError name)).
    { destruct (outcome (post (postprocessing s) (local_tracking paths dg)))
        as [ss'|e] eqn:E; [discriminate|].
      apply postprocess_raises_value in E. destruct E as (msg & ->).
      discriminate. }
    split; [split|]; try (intros H; contradiction).
    intros (_ & H1 & H2 & _).
    destruct (required_queries_unknown H1 H2) as (_ & Hn). congruence.
Qed.

(** X8.  A run that ends by an exception uploads nothing.  A run that ends
    normally has archived and then uploads exactly the archives of its
    mode, the EPFL one before the VUMC one, under names that carry the
    dataset. *)
Theorem uploads_only_on_success :
  forall s : settings,
    filter is_upload (trace (run' s))
    = match outcome (run' s) with
      | Ok _ => uploads (postprocessing s) (dataset s)
      | Raise _ => []
      end /\
    (outcome (run' s) = Ok tt ->
     filter is_archive (trace (run' s)) = archives (postprocessing s)).
Proof.
  intros s.
  destruct (cases s) as
      [q Hq Hnone Hout Htr | f4 f5 r4 r5 H1 H2 E4 E5 Hrun
       | paths dg Hall Hin Hdg Htr Hout].
  - cbv zeta in Hout, Htr. rewrite Hout.
    split; [apply missing_no_upload; exact Htr | discriminate].
  - cbv zeta in Hrun. rewrite Hrun. split; [reflexivity | discriminate].
  - cbv zeta in Hout, Htr. rewrite Htr, Hout.
    rewrite post_upload_outcome, post_upload_trace, !filter_app.
    rewrite preamble_no_upload, preamble_no_archive, postprocess_no_upload.
    destruct (outcome (postprocess to_voxel_coordinates nvox rois counted
                                   gaussian_filter (postprocessing s)
                                   (local_tracking paths dg)))
      as [ss'|e] eqn:E.
    + split.
      * cbn [filter is_upload app]. apply uploads_filter.
      * intros _. rewrite (postprocess_archives _ _ _ _ _ _ _ E).
        cbn [filter is_archive app]. rewrite uploads_no_archive.
        rewrite app_nil_r. reflexivity.
    + split; [reflexivity | discriminate].
Qed.

(** X9.  With a mode other than ["EPFL"], ["VUMC"] and ["ALL"], a run on a
    recognised dataset with all its files does the tracking, reports the
    upload and ends normally without having written, archived or uploaded
    anything. *)
Theorem unknown_mode_does_nothing :
  forall s : settings,
    postprocessing s <> "EPFL"%string ->
    postprocessing s <> "VUMC"%string ->
    postprocessing s <> "ALL"%string ->
    dataset s = "HCPL"%string \/ dataset s = "DSI"%string ->
    (forall q, In q (required_queries (dataset s)) -> get_files q <> []) ->
    run' s = ((preamble get_files (dataset s)
               ++ [SetProgress "Uploading results..."])%list, Ok tt).
Proof.
  intros s P1 P2 P3 Hds Hfiles.
  assert (Hm1 : member (postprocessing s) ["EPFL"; "ALL"]%string = false).
  { unfold member. cbn [existsb].
    rewrite (proj2 (String.eqb_neq _ _) P1), (proj2 (String.eqb_neq _ _) P3).
    reflexivity. }
  assert (Hm2 : member (postprocessing s) ["VUMC"; "ALL"]%string = false).
  { unfold member. cbn [existsb].
    rewrite (proj2 (String.eqb_neq _ _) P2), (proj2 (String.eqb_neq _ _) P3).
    reflexivity. }
  destruct (cases s) as
      [q Hq Hnone Hout _ | f4 f5 r4 r5 H1 H2 E4 E5 Hrun
       | paths dg Hall Hin Hdg Htr Hout].
  - exfalso. exact (Hfiles q Hq Hnone).
  - exfalso. destruct Hds; contradiction.
  - cbv zeta in Hout, Htr.
    assert (Hpost : post (postprocessing s) (local_tracking paths dg)
                    = ([], Ok (local_tracking paths dg))).
    { unfold post, postprocess, when. rewrite Hm1, Hm2. reflexivity. }
    rewrite Hpost in Htr, Hout.
    rewrite upload_eq in Htr, Hout. unfold uploads in Htr.
    rewrite Hm1, Hm2 in Htr. cbn [bind trace outcome fst snd app] in Htr, Hout.
    destruct (run' s) as [tr r]. cbn [trace outcome fst snd] in Htr, Hout.
    subst tr r. reflexivity.
Qed.

(** X10.  On a recognised dataset with all its files, [run] downloads the
    five files in the order it asks for them, reports the tensor fit, the
    orientation estimate of the dataset and the tractography, and then
    post-processes the output of the tracker run with the spherical-harmonic
    direction getter for ["HCPL"] and the discrete one for ["DSI"]; it
    reports the upload and uploads only when the post-processing has ended
    normally, and ends as the post-processing does. *)
Theorem run_on_recognised_dataset :
  forall s : settings,
    dataset s = "HCPL"%string \/ dataset s = "DSI"%string ->
    (forall q, In q (required_queries (dataset s)) -> get_files q <> []) ->
    exists paths dg,
      dwi_inputs get_files (dataset s) = Some paths /\
      (dataset s = "HCPL"%string /\ dg = from_shcoeff
       \/ dataset s = "DSI"%string /\ dg = from_pmf) /\
      trace (run' s)
      = (preamble get_files (dataset s)
         ++ trace (post (postprocessing s) (local_tracking paths dg))
         ++ match outcome (post (postprocessing s)
                                (local_tracking paths dg)) with
            | Ok _ => SetProgress "Uploading results..."
                      :: uploads (postprocessing s) (dataset s)
            | Raise _ => []
            end)%list /\
      outcome (run' s)
      = match outcome (post (postprocessing s) (local_tracking paths dg)) with
        | Ok _ => Ok tt
        | Raise e => Raise e
        end.
Proof.
  intros s Hds Hfiles.
  destruct (cases s) as
      [q Hq Hnone Hout _ | f4 f5 r4 r5 H1 H2 E4 E5 Hrun
       | paths dg Hall Hin Hdg Htr Hout].
  - exfalso. exact (Hfiles q Hq Hnone).
  - exfalso. destruct Hds; contradiction.
  - cbv zeta in Hout, Htr. exists paths, dg.
    split; [exact Hin|]. split; [apply getter_for_known; exact Hdg|].
    rewrite Htr, Hout, post_upload_trace, post_upload_outcome.
    split; reflexivity.
Qed.

End RunProperties.

Lemma one_file_present (q : query) : one_file q <> [].
Proof. destruct q; discriminate. Qed.

(** A run that ends normally: dataset ["HCPL"], mode ["ALL"], every file
    present and one streamline through both ROIs. *)
Lemma run_two_voxels_ok :
  outcome (run (fun _ : @streamline R => [0; 1]) 2 [0%Z; 1%Z] (fun _ => true)
               (fun d => d) one_file (fun _ _ => [segment 2])
               (Settings "ALL" "HCPL")) = Ok tt.
Proof.
  destruct density_volumes_two_voxels as (vols & Hv).
  destruct (run_cases (fun _ : @streamline R => [0; 1]) 2 [0%Z; 1%Z]
              (fun _ => true) (fun d => d) one_file (fun _ _ => [segment 2])
              (Settings "ALL" "HCPL"))
    as [q Hq Hnone _ _ | f4 f5 r4 r5 H1 _ _ _ _
        | paths dg _ Hin Hdg _ Hout].
  - exfalso. exact (one_file_present q Hnone).
  - exfalso. apply H1. reflexivity.
  - cbv zeta in Hout. rewrite Hout, post_upload_outcome.
    cbn [postprocessing].
    assert (E : exists ss',
               outcome (postprocess (fun _ : @streamline R => [0; 1]) 2
                          [0%Z; 1%Z] (fun _ => true) (fun d => d) "ALL"
                          [segment 2]) = Ok ss').
    { eexists. apply postprocess_ok_iff.
      rewrite length_filter_single by lra.
      split; [intros _; exists vols; exact Hv|].
      split; [intros _; exists vols; exact Hv | reflexivity]. }
    destruct E as (ss' & E). rewrite E. reflexivity.
Qed.

Lemma run_ends_normally_only_if_witness :
  outcome (run (fun _ : @streamline R => [0; 1]) 2 [0%Z; 1%Z] (fun _ => true)
               (fun d => d) one_file (fun _ _ => [segment 2])
               (Settings "ALL" "HCPL")) = Ok tt /\
  ("HCPL"%string = "HCPL"%string \/ "HCPL"%string = "DSI"%string).
Proof.
  split; [exact run_two_voxels_ok|].
  exact (proj1 (@run_ends_normally_only_if R _ _ (fun _ => [0; 1]) 2
                  [0%Z; 1%Z] (fun _ => true) (fun d => d) one_file
                  (fun _ _ => [segment 2]) (Settings "ALL" "HCPL")
                  run_two_voxels_ok)).
Defined.

Lemma missing_file_index_error_witness :
  outcome (run (fun _ : @streamline R => [0; 1]) 2 [0%Z; 1%Z] (fun _ => true)
               (fun d => d) (fun _ => []) (fun _ _ => [segment 2])
               (Settings "ALL" "DSI")) = Raise IndexError.
Proof.
  refine (proj1 (proj1 (@missing_file_index_error R _ _ (fun _ => [0; 1]) 2
                          [0%Z; 1%Z] (fun _ => true) (fun d => d)
                          (fun _ => []) (fun _ _ => [segment 2])
                          (Settings "ALL" "DSI")) _)).
  exists (RegExpression ".*VUMC_ROIs.nii.gz").
  split; [|reflexivity]. cbn. tauto.
Defined.

Lemma unknown_mode_does_nothing_witness :
  run (fun _ : @streamline R => [0; 1]) 2 [0%Z; 1%Z] (fun _ => true)
      (fun d => d) one_file (fun _ _ => [segment 2]) (Settings "epfl" "DSI")
  = ((preamble one_file "DSI" ++ [SetProgress "Uploading results..."])%list,
     Ok tt).
Proof.
  apply (@unknown_mode_does_nothing R _ _ (fun _ => [0; 1]) 2 [0%Z; 1%Z]
           (fun _ => true) (fun d => d) one_file (fun _ _ => [segment 2])
           (Settings "epfl" "DSI")).
  - discriminate.
  - discriminate.
  - discriminate.
  - right. reflexivity.
  - intros q _. apply one_file_present.
Defined.

Lemma run_on_recognised_dataset_witness :
  exists paths dg,
    dwi_inputs one_file "DSI" = Some paths /\
    ("DSI"%string = "HCPL"%string /\ dg = from_shcoeff
     \/ "DSI"%string = "DSI"%string /\ dg = from_pmf) /\
    outcome (run (fun _ : @streamline R => [0; 1]) 2 [0%Z; 1%Z] (fun _ => true)
                 (fun d => d) one_file (fun _ _ => [segment 2])
                 (Settings "VUMC" "DSI"))
    = match outcome (postprocess (fun _ : @streamline R => [0; 1]) 2
                                 [0%Z; 1%Z] (fun _ => true) (fun d => d)
                                 "VUMC" [segment 2]) with
      | Ok _ => Ok tt
      | Raise e => Raise e
      end.
Proof.
  destruct (@run_on_recognised_dataset R _ _ (fun _ => [0; 1]) 2 [0%Z; 1%Z]
              (fun _ => true) (fun d => d) one_file (fun _ _ => [segment 2])
              (Settings "VUMC" "DSI") (or_intror eq_refl)
              (fun q _ => one_file_present q))
    as (paths & dg & H1 & H2 & _ & H4).
  exists paths, dg. split; [exact H1|]. split; [exact H2 | exact H4].
Defined.

(** ** The connectivity filter as a filter *)

Lemma distinct_spec (l seen : list Z) :
  NoDup (distinct seen l) /\ forall x, In x (distinct seen l) -> ~ In x seen.
Proof.
  revert seen; induction l as [|x r IH]; intros seen; simpl.
  - split; [constructor | intros x []].
  - destruct (existsb (Z.eqb x) seen) eqn:E.
    + apply IH.
    + destruct (IH (x :: seen)) as (Hnd & Hnot). split.
      * constructor; [|exact Hnd]. intros Hin. apply (Hnot x Hin). left. reflexivity.
      * intros y [<-|Hy].
        -- intros Hin. assert (Ht : existsb (Z.eqb x) seen = true).
           { apply existsb_exists. exists x. split; [exact Hin | apply Z.eqb_refl]. }
           congruence.
        -- intros Hin. apply (Hnot y Hy). right. exact Hin.
Qed.

Lemma count_NoDup (b : Z) (r : list Z) :
  NoDup r ->
  List.length (filter (Z.eqb b) r) = if existsb (Z.eqb b) r then 1 else 0.
Proof.
  induction 1 as [|x r Hx Hnd IH]; simpl; [reflexivity|].
  destruct (Z.eqb_spec b x) as [->|N]; simpl.
  - assert (Hf : existsb (Z.eqb x) r = false).
    { destruct (existsb (Z.eqb x) r) eqn:E; [|reflexivity].
      apply existsb_exists in E. destruct E as (y & Hy & Hxy).
      apply Z.eqb_eq in Hxy. subst y. contradiction. }
    rewrite Hf in IH. rewrite IH. reflexivity.
  - exact IH.
Qed.

Lemma existsb_false_notin (a : Z) (r : list Z) :
  ~ In a r -> existsb (Z.eqb a) r = false.
Proof.
  intros H. destruct (existsb (Z.eqb a) r) eqn:E; [|reflexivity].
  apply existsb_exists in E. destruct E as (y & Hy & Hay).
  apply Z.eqb_eq in Hay. subst y. contradiction.
Qed.

Lemma sort_pair_key (a b x y : Z) :
  (a < b)%Z ->
  pair_eqb (sort_pair (x, y)) (a, b)
  = ((x =? a)%Z && (y =? b)%Z) || ((x =? b)%Z && (y =? a)%Z).
Proof.
  intros Hab. unfold pair_eqb, sort_pair. cbn [fst snd].
  destruct (Z.leb_spec x y); cbn [fst snd];
    destruct (Z.eqb_spec x a), (Z.eqb_spec y b), (Z.eqb_spec x b),
             (Z.eqb_spec y a); simpl; try reflexivity; lia.
Qed.

Lemma count_pairs_with (a b x : Z) (r : list Z) :
  (a < b)%Z ->
  List.length (filter (fun p => pair_eqb (sort_pair p) (a, b)) (map (pair x) r))
  = if (x =? a)%Z then List.length (filter (Z.eqb b) r)
    else if (x =? b)%Z then List.length (filter (Z.eqb a) r)
    else 0.
Proof.
  intros Hab. induction r as [|y r IH]; simpl.
  - destruct (x =? a)%Z, (x =? b)%Z; reflexivity.
  - rewrite (sort_pair_key x y Hab).
    destruct (Z.eqb_spec x a) as [->|Na].
    + destruct (Z.eqb_spec a b) as [E|_]; [lia|].
      rewrite (Z.eqb_sym b y).
      destruct (y =? b)%Z; simpl; rewrite IH; reflexivity.
    + destruct (Z.eqb_spec x b) as [->|Nb]; simpl.
      * rewrite (Z.eqb_sym a y).
        destruct (y =? a)%Z; simpl; rewrite IH; reflexivity.
      * exact IH.
Qed.

(** Among the pairs of a duplicate-free list of labels, exactly one sorts to
    a given pair when both of its labels are in the list, and none does
    otherwise. *)
Lemma count_pairs (a b : Z) (l : list Z) :
  (a < b)%Z -> NoDup l ->
  List.length (filter (fun p => pair_eqb (sort_pair p) (a, b)) (combinations2 l))
  = if existsb (Z.eqb a) l && existsb (Z.eqb b) l then 1 else 0.
Proof.
  intros Hab. induction 1 as [|x r Hx Hnd IH]; [reflexivity|].
  cbn [combinations2 existsb]. rewrite filter_app, length_app.
  rewrite (count_pairs_with x r Hab), IH, !(count_NoDup _ Hnd).
  rewrite (Z.eqb_sym a x), (Z.eqb_sym b x).
  destruct (Z.eqb_spec x a) as [->|Na].
  - destruct (Z.eqb_spec a b) as [E|_]; [lia|].
    rewrite (existsb_false_notin _ _ Hx). simpl.
    destruct (existsb (Z.eqb b) r); reflexivity.
  - destruct (Z.eqb_spec x b) as [->|Nb]; simpl.
    + rewrite (existsb_false_notin _ _ Hx).
      destruct (existsb (Z.eqb a) r); reflexivity.
    + reflexivity.
Qed.

Lemma filter_comm {X} (f g : X -> bool) (l : list X) :
  filter f (filter g l) = filter g (filter f l).
Proof.
  induction l as [|x l IH]; simpl; [reflexivity|].
  destruct (f x) eqn:Ef, (g x) eqn:Eg; simpl; rewrite ?Ef, ?Eg, IH; reflexivity.
Qed.

Lemma filter_filter_length_le {X} (f h : X -> bool) (l : list X) :
  List.length (filter h (filter f l)) <= List.length (filter h l).
Proof.
  induction l as [|x l IH]; simpl; [lia|].
  destruct (f x); simpl; destruct (h x); simpl; lia.
Qed.

Section ConnectivityFilter.

Context {num : Type}.
Variable to_voxel_coordinates : @streamline num -> list nat.
Variable rois : list Z.
Variable counted : Z -> bool.

Local Abbreviation labels :=
  (labels_through to_voxel_coordinates rois counted).
Local Abbreviation joins := (connects to_voxel_coordinates rois counted).

Lemma edges_tagged (P : Z * Z -> bool) (i : nat) (l : list (Z * Z)) :
  map snd (filter (fun e : Z * Z * nat => P (fst e))
                  (map (fun p => (sort_pair p, i)) l))
  = repeat i (List.length (filter (fun p => P (sort_pair p)) l)).
Proof.
  induction l as [|p l IH]; [reflexivity|].
  cbn [map filter fst snd]. destruct (P (sort_pair p)); cbn [map snd List.length repeat];
    rewrite IH; reflexivity.
Qed.

Lemma edges_of_group (a b : Z) (i : nat) (s : streamline) :
  (a < b)%Z ->
  map snd (filter (fun e : Z * Z * nat => pair_eqb (fst e) (a, b))
                  (edges_of to_voxel_coordinates rois counted i s))
  = if joins a b s then [i] else [].
Proof.
  intros Hab. unfold edges_of, connects.
  rewrite (edges_tagged (fun k => pair_eqb k (a, b))).
  rewrite (count_pairs Hab) by apply distinct_spec.
  destruct (_ && _); reflexivity.
Qed.

(** The group of a pair holds, in increasing order and once each, the
    positions of the streamlines that pass through both labels. *)
Lemma grouping_eq (a b : Z) (ss : bundle) :
  (a < b)%Z ->
  grouping to_voxel_coordinates rois counted ss (a, b)
  = flat_map (fun it : nat * streamline =>
                if joins a b (snd it) then [fst it] else [])
             (enumerate ss).
Proof.
  intros Hab. unfold grouping, edges.
  induction (enumerate ss) as [|[i s] l IH]; [reflexivity|].
  cbn [flat_map fst snd]. rewrite filter_app, map_app, IH.
  rewrite (edges_of_group i s Hab). reflexivity.
Qed.

Lemma index_list_app {X} (xs : list X) (i j : list nat) :
  index_list xs (i ++ j) = (index_list xs i ++ index_list xs j)%list.
Proof. unfold index_list. apply flat_map_app. Qed.

Lemma index_list_selected {X} (c : X -> bool) (pre l : list X) :
  index_list (pre ++ l)
             (flat_map (fun it : nat * X => if c (snd it) then [fst it] else [])
                       (combine (seq (List.length pre) (List.length l)) l))
  = filter c l.
Proof.
  revert pre; induction l as [|x l IH]; intros pre; [reflexivity|].
  cbn [List.length seq combine flat_map fst snd filter].
  rewrite index_list_app.
  replace (pre ++ x :: l)%list with ((pre ++ [x]) ++ l)%list
    by (rewrite <- app_assoc; reflexivity).
  replace (S (List.length pre)) with (List.length (pre ++ [x]))
    by (rewrite length_app; simpl; lia).
  rewrite IH. destruct (c x); [|reflexivity].
  unfold index_list. cbn [flat_map].
  rewrite <- (app_assoc pre [x] l).
  rewrite nth_error_app2 by lia. rewrite Nat.sub_diag. reflexivity.
Qed.

Lemma connectivity_filter_eq (ss : bundle) :
  connectivity_filter to_voxel_coordinates rois counted ss
  = filter (joins 0%Z 1%Z) ss.
Proof.
  unfold connectivity_filter. rewrite grouping_eq by lia.
  exact (index_list_selected (joins 0%Z 1%Z) [] ss).
Qed.

End ConnectivityFilter.

Section FilteredBundles.

Context {num : Type} {A : Arith num}.
Variable to_voxel_coordinates : @streamline num -> list nat.
Variable nvox : nat.
Variable rois : list Z.
Variable counted : Z -> bool.

Local Abbreviation cfilter :=
  (connectivity_filter to_voxel_coordinates rois counted).
Local Abbreviation joins := (connects to_voxel_coordinates rois counted).
Local Abbreviation density := (density_map to_voxel_coordinates nvox).

(** X11.  The connectivity filter is a filter in the sense of lists: it
    keeps, in the order of the bundle and as often as they occur, the
    streamlines that pass through label 0 and through label 1.  The group
    of any pair [(a, b)] with [a < b] lists, in increasing order and once
    each, the positions of the streamlines that pass through both. *)
Theorem connectivity_filter_is_filter :
  forall (ss : bundle) (a b : Z),
    (a < b)%Z ->
    cfilter ss = filter (joins 0%Z 1%Z) ss /\
    grouping to_voxel_coordinates rois counted ss (a, b)
    = flat_map (fun it : nat * streamline =>
                  if joins a b (snd it) then [fst it] else [])
               (enumerate ss).
Proof.
  intros ss a b Hab. split; [apply connectivity_filter_eq|].
  apply grouping_eq. exact Hab.
Qed.

(** X12.  Filtering by connectivity twice gives the bundle of filtering
    once, and the connectivity filter commutes with the length filter: the
    VUMC bundle does not depend on which of the two is applied first, and it
    is a part of the EPFL bundle. *)
Theorem connectivity_and_length_filters_commute :
  forall ss : bundle,
    cfilter (cfilter ss) = cfilter ss /\
    cfilter (length_filter ss) = length_filter (cfilter ss) /\
    (forall s, In s (cfilter (length_filter ss)) -> In s (length_filter ss)) /\
    List.length (cfilter (length_filter ss))
    <= List.length (length_filter ss) <= List.length ss.
Proof.
  intros ss. rewrite !connectivity_filter_eq, !length_filter_spec.
  split; [apply filter_idempotent|].
  split; [apply filter_comm|].
  split; [intros s Hs; apply filter_In in Hs; tauto|].
  split; apply filter_length_le.
Qed.

Lemma density_filter_le (c : streamline -> bool) (ss : bundle) :
  Forall2 Z.le (density (filter c ss)) (density ss).
Proof.
  unfold density_map. induction (seq 0 nvox) as [|v l IH]; [constructor|].
  cbn [map]. constructor; [|exact IH].
  apply inj_le. apply filter_filter_length_le.
Qed.

Lemma total_count_Forall2 (d1 d2 : list Z) :
  Forall2 Z.le d1 d2 -> (total_count d1 <= total_count d2)%Z.
Proof. induction 1 as [|x y d1 d2 Hxy _ IH]; simpl; lia. Qed.

(** X13.  In every voxel the visitation count of the VUMC bundle is at most
    that of the EPFL bundle, which is at most that of the tracker output;
    so are the totals over the grid. *)
Theorem vumc_density_below_epfl :
  forall ss : bundle,
    Forall2 Z.le (density (cfilter (length_filter ss)))
            (density (length_filter ss)) /\
    Forall2 Z.le (density (length_filter ss)) (density ss) /\
    (total_count (density (cfilter (length_filter ss)))
     <= total_count (density (length_filter ss))
     <= total_count (density ss))%Z.
Proof.
  intros ss. rewrite connectivity_filter_eq, length_filter_spec.
  assert (H1 := density_filter_le (joins 0%Z 1%Z)
                  (filter (fun s => ltb (of_int 1) (length s)) ss)).
  assert (H2 := density_filter_le (fun s => ltb (of_int 1) (length s)) ss).
  split; [exact H1|]. split; [exact H2|].
  split; apply total_count_Forall2; assumption.
Qed.

Lemma density_map_app (ss1 ss2 : bundle) :
  density (ss1 ++ ss2) = add_volumes (density ss1) (density ss2).
Proof.
  unfold density_map. induction (seq 0 nvox) as [|v l IH]; [reflexivity|].
  cbn [map add_volumes]. rewrite IH, filter_app, length_app.
  rewrite Nat2Z.inj_add. reflexivity.
Qed.

(** X14.  The density map has one count per voxel of the grid; every count
    lies between 0 and the number of streamlines; the empty bundle gives
    the all-zero volume; and the map of two bundles put together is the
    voxel-wise sum of their maps. *)
Theorem density_map_counts :
  forall ss1 ss2 : bundle,
    List.length (density ss1) = nvox /\
    Forall (fun c => 0 <= c <= Z.of_nat (List.length ss1))%Z (density ss1) /\
    density [] = repeat 0%Z nvox /\
    density (ss1 ++ ss2) = add_volumes (density ss1) (density ss2).
Proof.
  intros ss1 ss2.
  split; [unfold density_map; rewrite length_map, length_seq; reflexivity|].
  split.
  { unfold density_map. apply Forall_forall. intros c Hc.
    apply in_map_iff in Hc. destruct Hc as (v & <- & _).
    assert (H := filter_length_le (visits to_voxel_coordinates v) ss1). lia. }
  split; [unfold density_map; cbn [filter List.length]; apply map_const_seq|].
  apply density_map_app.
Qed.

End FilteredBundles.

Lemma connectivity_filter_is_filter_witness :
  grouping (fun _ : @streamline spec_float => [0; 1]) [2%Z; 5%Z] (fun _ => true)
           [segment64 two64; segment64 half64] (2, 5)%Z
  = [0; 1].
Proof.
  assert (H : (2 < 5)%Z) by lia.
  rewrite (proj2 (@connectivity_filter_is_filter spec_float
                    (fun _ => [0; 1]) [2%Z; 5%Z] (fun _ => true)
                    [segment64 two64; segment64 half64] 2%Z 5%Z H)).
  reflexivity.
Defined.

(** ** Degenerate streamlines *)

Lemma short_streamline_dropped {num} {A : Arith num} (ss : @bundle num)
      (s : streamline) :
  ltb (of_int 1) (of_int 0) = false ->
  In s (length_filter ss) -> 2 <= List.length s.
Proof.
  intros H01 Hin. rewrite length_filter_spec in Hin.
  apply filter_In in Hin. destruct Hin as (_ & Hlt).
  destruct s as [|p [|q r]]; simpl in *; try congruence. lia.
Qed.

(** X15.  A streamline of fewer than two points has length 0 and never
    passes the length filter, in any arithmetic in which [1 < 0] is false;
    exact arithmetic, binary64 and binary32 are such. *)
Theorem degenerate_streamlines_dropped :
  forall {num : Type} {A : Arith num},
    (ltb (of_int 1) (of_int 0) = false ->
     forall (ss : @bundle num) (s : streamline),
       In s (length_filter ss) -> 2 <= List.length s) /\
    @ltb R _ (of_int 1) (of_int 0) = false /\
    @ltb _ Float.binary64 (@of_int _ Float.binary64 1)
         (@of_int _ Float.binary64 0) = false /\
    @ltb _ Float.binary32 (@of_int _ Float.binary32 1)
         (@of_int _ Float.binary32 0) = false.
Proof.
  intros num A.
  split; [intros H01 ss s Hin; eapply short_streamline_dropped; eassumption|].
  split; [exact_arith; apply Rltb_false; lra|].
  split; reflexivity.
Qed.

Lemma degenerate_streamlines_dropped_witness :
  2 <= List.length (segment64 two64).
Proof.
  refine (proj1 (@degenerate_streamlines_dropped _ Float.binary64) eq_refl
                [segment64 two64] (segment64 two64) _).
  vm_compute. left. reflexivity.
Defined.

(** ** Non-empty and full volumes *)



Lemma SFleb_zero_nonneg (x : spec_float) :
  nonneg_float x = true -> SFleb (S754_zero false) x = true.
Proof.
  destruct x as [s|s| |s m e]; try destruct s; simpl; intros H;
    try discriminate; reflexivity.
Qed.

(** X17.  Under IEEE-754 rounding in any format, on a log-density volume
    without nan and without negative voxels, the first volume the loop
    emits is all ones. *)
Theorem first_volume_full_ieee :
  forall (prec emax : Z) (ld : list spec_float) (vols : list volume)
         (v : volume),
    Forall (fun x => nonneg_float x = true) ld ->
    @threshold_loop _ (Float.arith prec emax) ld = Ok vols ->
    nth_error vols 0 = Some v ->
    vol_index v = 0 /\
    vol_threshold v = S754_zero false /\
    vol_data v = repeat 1%Z (List.length ld).
Proof.
  intros prec emax ld vols v Hpos Hloop Hv.
  destruct (@threshold_loop_volumes _ (Float.arith prec emax) ld vols 0 v
              Hloop Hv) as (Hi & Hd & _).
  assert (Ht : vol_threshold v = S754_zero false).
  { revert Hloop Hv. unfold threshold_loop.
    destruct (np_max ld) as [M|e]; [|discriminate]. cbn [rbind].
    destruct (arange _ _ _) as [ts|e] eqn:Ear; [|discriminate]. cbn [rbind].
    intros H. injection H as <-.
    rewrite nth_error_map, nth_error_enumerate.
    destruct (nth_error ts 0) as [t|] eqn:Et; [|discriminate].
    intros H. injection H as <-. cbn [vol_threshold snd].
    apply (arange_first _ _ _ Ear Et). }
  split; [exact Hi|]. split; [exact Ht|].
  rewrite Hd, Ht. clear -Hpos.
  induction Hpos as [|x ld Hx _ IH]; [reflexivity|].
  cbn [ge_mask astype_int32 map List.length repeat].
  change (@leb _ (Float.arith prec emax)) with SFleb.
  rewrite (SFleb_zero_nonneg _ Hx). f_equal. exact IH.
Qed.

Lemma first_volume_full_ieee_witness :
  exists v,
    vol_threshold v = S754_zero false /\ vol_data v = [1%Z; 1%Z].
Proof.
  assert (Hpos : Forall (fun x => nonneg_float x = true)
                        [S754_zero false; half64])
    by (repeat constructor).
  eexists.
  refine (proj2 (@first_volume_full_ieee 53 1024 [S754_zero false; half64]
                   _ _ Hpos _ _)).
  - vm_compute. reflexivity.
  - reflexivity.
Defined.

(** ** Mode ["ALL"] *)

(** X18.  The post-processing in mode ["ALL"] is that of mode ["EPFL"]
    followed by that of mode ["VUMC"] on the same tracker output: same
    effects in the same order, same outcome.  When the EPFL quantizer
    raises, the VUMC branch is never started. *)
Theorem all_mode_is_epfl_then_vumc :
  forall {num : Type} {A : Arith num} {L : Log10 num}
         (to_voxel_coordinates : @streamline num -> list nat) (nvox : nat)
         (rois : list Z) (counted : Z -> bool)
         (gaussian_filter : list num -> list num) (ss : bundle),
    postprocess to_voxel_coordinates nvox rois counted gaussian_filter "ALL" ss
    = bind (postprocess to_voxel_coordinates nvox rois counted gaussian_filter
                        "EPFL" ss)
           (fun _ => postprocess to_voxel_coordinates nvox rois counted
                                 gaussian_filter "VUMC" ss) /\
    (forall e,
        density_volumes to_voxel_coordinates nvox gaussian_filter
                        (length_filter ss) = Raise e ->
        postprocess to_voxel_coordinates nvox rois counted gaussian_filter
                    "ALL" ss
        = ([SetProgress "Processing density map (EPFL)"; Mkdir "/root/vol_epfl"],
           Raise e)).
Proof.
  intros num A L tv nvox rois counted gf ss.
  rewrite !postprocess_eq.
  change (member "ALL" ["EPFL"; "ALL"]%string) with true.
  change (member "ALL" ["VUMC"; "ALL"]%string) with true.
  change (member "EPFL" ["EPFL"; "ALL"]%string) with true.
  change (member "EPFL" ["VUMC"; "ALL"]%string) with false.
  change (member "VUMC" ["EPFL"; "ALL"]%string) with false.
  change (member "VUMC" ["VUMC"; "ALL"]%string) with true.
  cbv iota. unfold branch_result.
  destruct (density_volumes tv nvox gf (length_filter ss)) as [vols|e1] eqn:E1;
    cbn [bind ret]; rewrite ?length_filter_idempotent.
  - split; [|discriminate].
    destruct (density_volumes tv nvox gf
                (connectivity_filter tv rois counted (length_filter ss)))
      as [wols|e2]; cbn [bind ret app]; rewrite ?app_nil_r; reflexivity.
  - split; [reflexivity|]. intros e H. injection H as <-. reflexivity.
Qed.

Lemma density_volumes_empty :
  density_volumes (fun _ : @streamline R => [0; 1]) 2 (fun d => d) []
  = Raise (ValueError "arange: cannot compute length").
Proof.
  unfold density_volumes, density_map. cbn [filter List.length seq map].
  exact_arith. change (IZR (Z.of_nat 0)) with 0%R.
  change [0%R; 0%R] with (repeat 0%R 2).
  rewrite (log_transform_zeros 2).
  apply threshold_loop_exact_zero. simpl.
  rewrite maximum_Rmax, Rmax_left by lra. reflexivity.
Qed.

(** The EPFL branch writes its volumes and the VUMC branch raises, on a
    streamline that reaches no ROI of the target pair. *)
Lemma branch_writes_each_volume_witness :
  exists vols e,
    epfl_branch (fun _ : @streamline R => [0; 1]) 2 (fun d => d) [segment 2]
    = ([SetProgress "Processing density map (EPFL)"; Mkdir "/root/vol_epfl"]
         ++ volume_files "/root/vol_epfl" vols
         ++ [MakeArchive "/root/TrackyMcTrackface_EPFL_example"
                         "/root/vol_epfl"],
       Ok [segment 2]) /\
    vumc_branch (fun _ : @streamline R => [0; 1]) 2 [2%Z; 2%Z] (fun _ => true)
                (fun d => d) [segment 2]
    = ([SetProgress "Processing density map (VUMC)"; Mkdir "/root/vol_vumc"],
       Raise e).
Proof.
  destruct density_volumes_two_voxels as (vols & Hv).
  assert (Hf : length_filter [segment 2] = [segment 2])
    by (apply length_filter_single; lra).
  assert (Hc : connectivity_filter (fun _ : @streamline R => [0; 1])
                 [2%Z; 2%Z] (fun _ => true) [segment 2] = [])
    by reflexivity.
  destruct (@branch_writes_each_volume R _ _ (fun _ => [0; 1]) 2%nat
              [2%Z; 2%Z] (fun _ => true) (fun d => d) [segment 2])
    as (H1 & _ & _ & H4).
  rewrite Hf in H1, H4. rewrite Hc in H4.
  exists vols, (ValueError "arange: cannot compute length").
  split; [exact (proj1 (H1 vols Hv)) | exact (H4 _ density_volumes_empty)].
Defined.

Lemma all_mode_is_epfl_then_vumc_witness :
  postprocess (fun _ : @streamline R => [0; 1]) 2 [0%Z; 1%Z] (fun _ => true)
              (fun d => d) "ALL" []
  = ([SetProgress "Processing density map (EPFL)"; Mkdir "/root/vol_epfl"],
     Raise (ValueError "arange: cannot compute length")).
Proof.
  exact (proj2 (@all_mode_is_epfl_then_vumc R _ _ (fun _ => [0; 1]) 2
                  [0%Z; 1%Z] (fun _ => true) (fun d => d) []) _
               density_volumes_empty).
Defined.

(** * The threshold loop under IEEE-754 rounding *)

Section Rounding.

Local Open Scope Z_scope.

(** ** Binary digits and shifts *)

Lemma digits2_pos_size (p : positive) : digits2_pos p = Pos.size p.
Proof. induction p as [p IH|p IH|]; simpl; [rewrite IH..|]; reflexivity. Qed.

Lemma Zdigits2_log2 (m : Z) : 0 < m -> Zdigits2 m = Z.log2 m + 1.
Proof.
  destruct m as [|p|p]; try lia. intros _. unfold Zdigits2.
  rewrite digits2_pos_size. destruct p as [p|p|]; simpl; try reflexivity;
    rewrite Pos2Z.inj_succ; reflexivity.
Qed.

Lemma digits_bounds (m : Z) :
  0 < m -> 2 ^ (Zdigits2 m - 1) <= m < 2 ^ Zdigits2 m.
Proof.
  intros H. rewrite (Zdigits2_log2 H).
  replace (Z.log2 m + 1 - 1) with (Z.log2 m) by lia.
  apply (Z.log2_spec m H).
Qed.

Lemma digits_unique (m d : Z) :
  0 < d -> 2 ^ (d - 1) <= m < 2 ^ d -> Zdigits2 m = d.
Proof.
  intros Hd H.
  assert (Hm : 0 < m).
  { assert (0 < 2 ^ (d - 1)) by (apply Z.pow_pos_nonneg; lia). lia. }
  rewrite (Zdigits2_log2 Hm).
  rewrite (Z.log2_unique m (d - 1)); [lia | lia |].
  replace (Z.succ (d - 1)) with d by lia. exact H.
Qed.

Lemma digits_pos (m : Z) : 0 < m -> 0 < Zdigits2 m.
Proof.
  intros H. rewrite (Zdigits2_log2 H). assert (H0 := Z.log2_nonneg m). lia.
Qed.

Lemma digits_le (a b : Z) : 0 < a -> a <= b -> Zdigits2 a <= Zdigits2 b.
Proof.
  intros Ha Hab. rewrite !Zdigits2_log2 by lia.
  assert (H := Z.log2_le_mono a b Hab). lia.
Qed.

Lemma digits_mul_pow2 (m k : Z) :
  0 < m -> 0 <= k -> Zdigits2 (m * 2 ^ k) = Zdigits2 m + k.
Proof.
  intros Hm Hk.
  assert (0 < 2 ^ k) by (apply Z.pow_pos_nonneg; lia).
  rewrite !Zdigits2_log2 by nia.
  rewrite Z.log2_mul_pow2 by lia. lia.
Qed.

Lemma digits_lt_pow2 (m d : Z) : 0 < m -> 0 <= d -> m < 2 ^ d -> Zdigits2 m <= d.
Proof.
  intros Hm Hd H. rewrite (Zdigits2_log2 Hm).
  apply (Z.log2_lt_pow2 m d Hm) in H. lia.
Qed.

Lemma digits_ge_pow2 (m d : Z) : 0 < m -> 2 ^ d <= m -> d < Zdigits2 m.
Proof.
  intros Hm H. rewrite (Zdigits2_log2 Hm).
  apply (Z.log2_le_pow2 m d Hm) in H. lia.
Qed.

Lemma pow2_pos (n : Z) : 0 <= n -> 0 < 2 ^ n.
Proof. intros; apply Z.pow_pos_nonneg; lia. Qed.

Lemma pow2_split (a b : Z) : 0 <= a -> 0 <= b -> 2 ^ (a + b) = 2 ^ a * 2 ^ b.
Proof. intros; apply Z.pow_add_r; lia. Qed.

Lemma pow2_le (a b : Z) : 0 <= a <= b -> 2 ^ a <= 2 ^ b.
Proof. intros; apply Z.pow_le_mono_r; lia. Qed.

Lemma pow2_lt (a b : Z) : 0 <= a < b -> 2 ^ a < 2 ^ b.
Proof. intros; apply Z.pow_lt_mono_r; lia. Qed.

(** ** Shifting right with round and sticky bits *)

Lemma iter_pos_nat {X} (f : X -> X) (p : positive) (x : X) :
  iter_pos f p x = Nat.iter (Pos.to_nat p) f x.
Proof.
  revert x; induction p as [p IH|p IH|]; intros x; simpl iter_pos.
  - rewrite !IH, Pos2Nat.inj_xI. rewrite <- Nat.iter_add, <- Nat.iter_succ_r.
    f_equal. lia.
  - rewrite !IH, Pos2Nat.inj_xO. rewrite <- Nat.iter_add. f_equal. lia.
  - reflexivity.
Qed.

Lemma shr_1_spec (m : Z) (r s : bool) :
  0 <= m ->
  shr_1 (Build_shr_record m r s) = Build_shr_record (m / 2) (Z.odd m) (r || s).
Proof.
  intros Hm. rewrite <- Z.div2_div.
  destruct m as [|[p|p|]|p]; try lia; reflexivity.
Qed.

Lemma mod_pow2_succ (m k : Z) :
  0 <= k ->
  m mod 2 ^ (k + 1) = m mod 2 ^ k + 2 ^ k * (if Z.testbit m k then 1 else 0).
Proof.
  intros Hk. rewrite pow2_split by lia. change (2 ^ 1) with 2.
  assert (H := pow2_pos Hk).
  rewrite Z.rem_mul_r by lia. f_equal. f_equal.
  rewrite Z.testbit_odd, Z.shiftr_div_pow2 by lia.
  apply Zmod_odd.
Qed.

Lemma iter_shr_1 (k : nat) (m : Z) (r s : bool) :
  0 <= m ->
  Nat.iter (S k) shr_1 (Build_shr_record m r s)
  = Build_shr_record (m / 2 ^ (Z.of_nat k + 1)) (Z.testbit m (Z.of_nat k))
                     (negb (m mod 2 ^ Z.of_nat k =? 0) || (r || s)).
Proof.
  intros Hm. induction k as [|k IH].
  - change (Nat.iter 1 shr_1 ?x) with (shr_1 x).
    rewrite shr_1_spec by exact Hm.
    change (Z.of_nat 0) with 0. simpl Z.add. change (2 ^ 1) with 2.
    rewrite Z.bit0_odd. change (2 ^ 0) with 1. rewrite Z.mod_1_r. reflexivity.
  - change (Nat.iter (S (S k)) shr_1 ?x) with (shr_1 (Nat.iter (S k) shr_1 x)).
    rewrite IH. rewrite shr_1_spec
      by (apply Z.div_pos; [exact Hm | apply pow2_pos; lia]).
    rewrite Nat2Z.inj_succ. unfold Z.succ.
    assert (Hp := pow2_pos (n := Z.of_nat k + 1) ltac:(lia)).
    f_equal.
    + rewrite Z.div_div by lia.
      rewrite (@pow2_split (Z.of_nat k + 1) 1) by lia. reflexivity.
    + rewrite Z.testbit_odd, Z.shiftr_div_pow2 by lia. reflexivity.
    + rewrite (mod_pow2_succ m (k := Z.of_nat k)) by lia.
      assert (Hk := pow2_pos (n := Z.of_nat k) ltac:(lia)).
      assert (Hmod := Z.mod_pos_bound m (2 ^ Z.of_nat k) Hk).
      destruct (Z.testbit m (Z.of_nat k)); simpl.
      * replace (m mod 2 ^ Z.of_nat k + 2 ^ Z.of_nat k * 1 =? 0) with false
          by (symmetry; apply Z.eqb_neq; lia).
        reflexivity.
      * rewrite Z.mul_0_r, Z.add_0_r. reflexivity.
Qed.

(** ** Rounding to nearest even of [x / 2 ^ n] *)

Lemma rne_bounds (x n : Z) : x / 2 ^ n <= rne x n <= x / 2 ^ n + 1.
Proof.
  unfold rne. destruct (_ ?= _); [destruct (Z.even _)|..]; lia.
Qed.


Lemma rne_scale (x n k : Z) :
  1 <= n -> 0 <= k -> rne (x * 2 ^ k) (n + k) = rne x n.
Proof.
  intros Hn Hk. unfold rne.
  assert (Hpk := pow2_pos Hk).
  assert (Hpn := pow2_pos (n := n) ltac:(lia)).
  assert (Hpn1 := pow2_pos (n := n - 1) ltac:(lia)).
  rewrite (@pow2_split n k) by lia.
  rewrite Z.div_mul_cancel_r by lia.
  rewrite Z.mul_mod_distr_r by lia.
  replace (n + k - 1) with ((n - 1) + k) by lia.
  rewrite (@pow2_split (n - 1) k) by lia.
  replace (x mod 2 ^ n * 2 ^ k ?= 2 ^ (n - 1) * 2 ^ k)
    with (x mod 2 ^ n ?= 2 ^ (n - 1)); [reflexivity|].
  rewrite <- !(Z.mul_comm (2 ^ k)). apply Zmult_compare_compat_l. lia.
Qed.

Lemma rne_exact (x n : Z) : 1 <= n -> x mod 2 ^ n = 0 -> rne x n = x / 2 ^ n.
Proof.
  intros Hn H. unfold rne. rewrite H.
  assert (Hp := pow2_pos (n := n - 1) ltac:(lia)).
  destruct (Z.compare_spec 0 (2 ^ (n - 1))); lia.
Qed.




Lemma rdiv_scale (x n k : Z) :
  0 <= n -> 0 <= k -> rdiv (x * 2 ^ k) (n + k) = rdiv x n.
Proof.
  intros Hn Hk. unfold rdiv.
  replace (4 * (x * 2 ^ k)) with (4 * x * 2 ^ k) by ring.
  replace (n + k + 2) with (n + 2 + k) by lia.
  apply rne_scale; lia.
Qed.

Lemma rdiv_0 (x : Z) : rdiv x 0 = x.
Proof.
  unfold rdiv. rewrite rne_exact.
  - change (2 ^ (0 + 2)) with 4. rewrite Z.mul_comm. apply Z.div_mul. lia.
  - lia.
  - change (2 ^ (0 + 2)) with 4. rewrite Z.mul_comm. apply Z.mod_mul. lia.
Qed.


Lemma loc_code_range (l : location) : 0 <= loc_code l < 4.
Proof. destruct l as [|[| |]]; simpl; lia. Qed.

Lemma div_4_pow2 (q c n : Z) :
  0 <= n -> 0 <= c < 4 -> (4 * q + c) / 2 ^ (n + 2) = q / 2 ^ n.
Proof.
  intros Hn Hc. assert (Hp := pow2_pos Hn).
  rewrite (@pow2_split n 2) by lia. change (2 ^ 2) with 4.
  rewrite (Z.mul_comm (2 ^ n) 4), <- Z.div_div by lia.
  f_equal. symmetry. apply (Z.div_unique (4 * q + c) 4 q c); lia.
Qed.

Lemma mod_4_pow2 (q c n : Z) :
  0 <= q -> 0 <= n -> 0 <= c < 4 ->
  (4 * q + c) mod 2 ^ (n + 2) = 4 * (q mod 2 ^ n) + c.
Proof.
  intros Hq Hn Hc. assert (Hp := pow2_pos Hn).
  rewrite (@pow2_split n 2) by lia. change (2 ^ 2) with 4.
  rewrite (Z.mul_comm (2 ^ n) 4).
  apply Z.add_mul_mod_distr_l; lia.
Qed.

(** Shifting a mantissa with its location right by [n] bits and rounding
    the result is rounding the mantissa, extended by the two bits of its
    location, divided by [2 ^ (n + 2)]. *)
Lemma shr_rne (q e n : Z) (l : location) :
  0 <= q -> 0 <= n ->
  round_nearest_even (shr_m (fst (shr (shr_record_of_loc q l) e n)))
                     (loc_of_shr_record (fst (shr (shr_record_of_loc q l) e n)))
  = rne (4 * q + loc_code l) (n + 2) /\
  snd (shr (shr_record_of_loc q l) e n) = e + n.
Proof.
  intros Hq Hn. assert (Hc := loc_code_range l).
  unfold rne. rewrite div_4_pow2, mod_4_pow2 by lia.
  replace (n + 2 - 1) with (n + 1) by lia.
  destruct n as [|p|p]; [| |lia].
  - cbn [shr fst snd]. split; [|lia].
    change (2 ^ 0) with 1. rewrite Z.mod_1_r, Z.div_1_r.
    change (2 ^ (0 + 1)) with 2.
    destruct l as [|[| |]]; cbn [shr_record_of_loc shr_m loc_of_shr_record
                                  round_nearest_even loc_code];
      match goal with |- context [?a ?= 2] =>
        destruct (Z.compare_spec a 2); try lia end; reflexivity.
  - cbn [shr fst snd]. split; [|reflexivity].
    rewrite iter_pos_nat.
    destruct (Pos2Nat.is_succ p) as (k & Hk). rewrite Hk.
    assert (HN : Zpos p = Z.of_nat k + 1) by lia.
    assert (Hrec : exists r0 s0,
               shr_record_of_loc q l = Build_shr_record q r0 s0 /\
               loc_code l = (if r0 then 2 else 0) + (if s0 then 1 else 0)).
    { destruct l as [|[| |]]; simpl; eauto. }
    destruct Hrec as (r0 & s0 & -> & Hcode).
    rewrite iter_shr_1 by exact Hq.
    cbn [shr_m loc_of_shr_record]. rewrite HN.
    assert (Hk0 : 0 <= Z.of_nat k) by lia.
    rewrite (mod_pow2_succ q Hk0).
    assert (HP := pow2_pos Hk0).
    assert (Hlow := Z.mod_pos_bound q (2 ^ Z.of_nat k) HP).
    replace (2 ^ (Z.of_nat k + 1 + 1)) with (4 * 2 ^ Z.of_nat k)
      by (rewrite !pow2_split by lia; change (2 ^ 1) with 2; ring).
    set (low := q mod 2 ^ Z.of_nat k) in *.
    set (P := 2 ^ Z.of_nat k) in *.
    set (Q := q / 2 ^ (Z.of_nat k + 1)).
    rewrite Hcode.
    destruct (Z.testbit q (Z.of_nat k)).
    + destruct (Z.eqb_spec low 0) as [E0|N0]; cbn [negb orb].
      * destruct r0, s0; cbn [orb round_nearest_even];
          match goal with |- context [?a ?= ?b] =>
            destruct (Z.compare_spec a b); try lia end; reflexivity.
      * cbn [round_nearest_even].
        match goal with |- context [?a ?= ?b] =>
          destruct (Z.compare_spec a b); try lia end; reflexivity.
    + match goal with |- context [?a ?= ?b] =>
        destruct (Z.compare_spec a b); try lia end.
      destruct (negb (low =? 0) || (r0 || s0)); reflexivity.
Qed.

Section RoundingResult.

Variables prec emax : Z.
Hypothesis Hprec : 0 < prec.

Local Abbreviation fexp := (fexp prec emax).
Local Abbreviation emin := (emin prec emax).

Lemma fexp_ge_emin (d : Z) : emin <= fexp d.
Proof. unfold SpecFloat.fexp. lia. Qed.


Lemma round_tail (s : bool) (q e : Z) :
  0 <= q <= 2 ^ prec -> emin <= e ->
  (let '(mrs, e') := shr_fexp prec emax q e loc_Exact in
   match shr_m mrs with
   | Z0 => S754_zero s
   | Zpos m => if e' <=? emax - prec then S754_finite s m e'
               else S754_infinity s
   | Zneg _ => S754_nan
   end) = sf_norm prec emax s q e.
Proof.
  intros Hq He. unfold sf_norm, shr_fexp.
  destruct (Z.eqb_spec q 0) as [E0|N0].
  - subst q. unfold SpecFloat.fexp. cbn [Zdigits2].
    assert (Hle : Z.max (0 + e - prec) emin - e <= 0) by lia.
    destruct (Z.max (0 + e - prec) emin - e) as [|d|d]; try lia; reflexivity.
  - destruct (Z.eqb_spec q (2 ^ prec)) as [E|N].
    + assert (Hd : Zdigits2 q = prec + 1).
      { apply digits_unique; [lia|]. rewrite E.
        replace (prec + 1 - 1) with prec by lia.
        split; [lia | apply pow2_lt; lia]. }
      rewrite Hd. unfold SpecFloat.fexp.
      replace (Z.max (prec + 1 + e - prec) emin - e) with 1 by lia.
      cbn [shr shr_record_of_loc iter_pos].
      rewrite shr_1_spec by lia. cbn [shr_m].
      assert (Hh : q / 2 = 2 ^ (prec - 1)).
      { rewrite E. replace prec with (prec - 1 + 1) at 1 by lia.
        rewrite pow2_split by lia. change (2 ^ 1) with 2.
        apply Z.div_mul. lia. }
      rewrite Hh.
      assert (Hp := pow2_pos (n := prec - 1) ltac:(lia)).
      destruct (2 ^ (prec - 1)) as [|h|h] eqn:Eh; try lia. reflexivity.
    + assert (Hd : Zdigits2 q <= prec)
        by (apply digits_lt_pow2; lia).
      unfold SpecFloat.fexp.
      assert (Hle : Z.max (Zdigits2 q + e - prec) emin - e <= 0) by lia.
      destruct (Z.max (Zdigits2 q + e - prec) emin - e) as [|d|d] eqn:Ed;
        try lia; cbn [shr shr_record_of_loc shr_m];
        destruct q as [|p|p]; try lia; reflexivity.
Qed.

Lemma quotient_lt_pow2 (q e : Z) :
  0 <= q -> e <= fexp (Zdigits2 q + e) ->
  q / 2 ^ (fexp (Zdigits2 q + e) - e) < 2 ^ prec.
Proof.
  intros Hq0 He. set (n := fexp (Zdigits2 q + e) - e).
  assert (Hn : 0 <= n) by (unfold n; lia).
  destruct (Z.eq_dec q 0) as [->|Hne].
  { rewrite Z.div_0_l by (assert (H := pow2_pos Hn); lia).
    apply pow2_pos; lia. }
  assert (Hq : 0 < q) by lia.
  apply Z.div_lt_upper_bound; [apply pow2_pos; exact Hn|].
  rewrite <- pow2_split by lia.
  assert (Hb := digits_bounds Hq).
  assert (Hd : Zdigits2 q <= n + prec).
  { unfold n, SpecFloat.fexp. lia. }
  assert (Hdp := digits_pos Hq).
  assert (2 ^ Zdigits2 q <= 2 ^ (n + prec)) by (apply pow2_le; lia). lia.
Qed.

(** The rounding of a positive mantissa [q] with location [l] at exponent
    [e], when [e] is at most the exponent of the format. *)
Lemma binary_round_aux_spec (s : bool) (q e : Z) (l : location) :
  0 <= q -> e <= fexp (Zdigits2 q + e) ->
  binary_round_aux prec emax s q e l
  = sf_norm prec emax s (rne (4 * q + loc_code l) (fexp (Zdigits2 q + e) - e + 2))
         (fexp (Zdigits2 q + e)).
Proof.
  intros Hq He. unfold binary_round_aux.
  set (n := fexp (Zdigits2 q + e) - e).
  assert (Hn : 0 <= n) by (unfold n; lia).
  unfold shr_fexp at 1. fold n.
  destruct (@shr_rne q e n l ltac:(lia) Hn) as (H1 & H2).
  destruct (shr (shr_record_of_loc q l) e n) as [mrs e'] eqn:Es.
  cbn [fst snd] in H1, H2. rewrite H1. subst e'.
  replace (e + n) with (fexp (Zdigits2 q + e)) by (unfold n; lia).
  apply round_tail; [|apply fexp_ge_emin].
  assert (Hc := loc_code_range l).
  assert (Hb := rne_bounds (4 * q + loc_code l) (n + 2)).
  rewrite div_4_pow2 in Hb by lia.
  assert (Hlt := quotient_lt_pow2 Hq He). fold n in Hlt.
  assert (0 <= q / 2 ^ n) by (apply Z.div_pos; [lia | apply pow2_pos; lia]).
  lia.
Qed.

End RoundingResult.

(** ** The order of [spec_float] *)




Section FloatOrder.

Variables prec emax : Z.
Hypothesis Hprec : 0 < prec.

Local Abbreviation fexp := (fexp prec emax).
Local Abbreviation emin := (emin prec emax).

Lemma pow2_prec : 2 ^ prec = 2 * 2 ^ (prec - 1).
Proof.
  replace prec with (1 + (prec - 1)) at 1 by lia.
  rewrite pow2_split by lia. reflexivity.
Qed.





Lemma np_lt (q1 e1 q2 e2 : Z) :
  0 <= q1 <= 2 ^ prec -> 0 <= q2 <= 2 ^ prec ->
  e1 = e2 /\ q1 < q2 \/ e1 < e2 /\ 2 ^ (prec - 1) < q2 ->
  lex_lt (sf_pair prec q1 e1) (sf_pair prec q2 e2).
Proof.
  intros H1 H2 H. unfold lex_lt, sf_pair.
  assert (Hp := pow2_pos (n := prec - 1) ltac:(lia)).
  assert (Hpp := pow2_prec).
  destruct (Z.eqb_spec q1 (2 ^ prec)), (Z.eqb_spec q2 (2 ^ prec));
    cbn [fst snd]; lia.
Qed.



(** ** Valid results *)

Lemma norm_valid (s : bool) (q e : Z) :
  0 <= q <= 2 ^ prec -> emin <= e -> (q < 2 ^ (prec - 1) -> e = emin) ->
  valid_binary prec emax (sf_norm prec emax s q e) = true.
Proof.
  intros Hq He Hsub. unfold sf_norm.
  assert (Hp := pow2_pos (n := prec - 1) ltac:(lia)).
  assert (Hpp := pow2_prec).
  destruct (Z.eqb_spec q 0) as [E0|N0]; [reflexivity|].
  destruct (Z.eqb_spec q (2 ^ prec)) as [E|N].
  - destruct (Z.leb_spec (e + 1) (emax - prec)) as [Hle|Hgt]; [|reflexivity].
    cbn [valid_binary]. unfold bounded, canonical_mantissa.
    apply andb_true_intro. split; [|apply Z.leb_le; exact Hle].
    apply Z.eqb_eq.
    assert (Hd : Zdigits2 (2 ^ (prec - 1)) = prec)
      by (apply digits_unique; [lia|]; split; [lia | apply pow2_lt; lia]).
    destruct (2 ^ (prec - 1)) as [|h|h] eqn:Eh; try lia.
    cbn [Z.to_pos]. cbn [Zdigits2] in Hd. rewrite Hd.
    unfold SpecFloat.fexp. lia.
  - destruct (Z.leb_spec e (emax - prec)) as [Hle|Hgt]; [|reflexivity].
    cbn [valid_binary]. unfold bounded, canonical_mantissa.
    apply andb_true_intro. split; [|apply Z.leb_le; exact Hle].
    apply Z.eqb_eq.
    assert (Hq0 : 0 < q) by lia.
    assert (Hd : Zdigits2 q <= prec) by (apply digits_lt_pow2; lia).
    assert (Hd' : 2 ^ (prec - 1) <= q -> prec - 1 < Zdigits2 q)
      by (intros; apply digits_ge_pow2; lia).
    destruct q as [|p|p]; try lia. cbn [Z.to_pos].
    cbn [Zdigits2] in Hd, Hd'. unfold SpecFloat.fexp.
    destruct (Z_lt_le_dec (Zpos p) (2 ^ (prec - 1))) as [Hlt|Hge].
    + specialize (Hsub Hlt). lia.
    + specialize (Hd' Hge). lia.
Qed.

Lemma quotient_ge_pow2 (q e : Z) :
  0 < q -> e <= fexp (Zdigits2 q + e) -> emin <= Zdigits2 q + e - prec ->
  2 ^ (prec - 1) <= q / 2 ^ (fexp (Zdigits2 q + e) - e).
Proof.
  intros Hq He Hn. set (n := fexp (Zdigits2 q + e) - e).
  assert (H0 : 0 <= n) by (unfold n; lia).
  apply Z.div_le_lower_bound; [apply pow2_pos; exact H0|].
  rewrite Z.mul_comm, <- pow2_split by lia.
  assert (Hb := digits_bounds Hq).
  assert (Hd : Zdigits2 q - 1 = prec - 1 + n).
  { unfold n. unfold SpecFloat.fexp in *. lia. }
  rewrite <- Hd. lia.
Qed.

Lemma binary_round_aux_valid (s : bool) (q e : Z) (l : location) :
  0 < q -> e <= fexp (Zdigits2 q + e) ->
  valid_binary prec emax (binary_round_aux prec emax s q e l) = true.
Proof.
  intros Hq He. rewrite (binary_round_aux_spec emax Hprec s l (Z.lt_le_incl _ _ Hq) He).
  set (n := fexp (Zdigits2 q + e) - e).
  assert (Hn : 0 <= n) by (unfold n; lia).
  assert (Hc := loc_code_range l).
  assert (Hb := rne_bounds (4 * q + loc_code l) (n + 2)).
  rewrite div_4_pow2 in Hb by lia.
  assert (Hlt := quotient_lt_pow2 emax Hprec (Z.lt_le_incl _ _ Hq) He). fold n in Hlt.
  assert (0 <= q / 2 ^ n) by (apply Z.div_pos; [lia | apply pow2_pos; lia]).
  apply norm_valid; [lia | apply fexp_ge_emin |].
  intros Hsmall.
  destruct (Z_le_gt_dec (fexp (Zdigits2 q + e)) emin) as [Hle|Hgt].
  - assert (Hge := fexp_ge_emin prec emax (Zdigits2 q + e)). lia.
  - assert (Hq2 := quotient_ge_pow2 Hq He
                     ltac:(unfold SpecFloat.fexp in *; lia)).
    fold n in Hq2. lia.
Qed.

(** A value of the format is converted to itself. *)
Lemma binary_round_bounded (s : bool) (m : positive) (e : Z) :
  bounded prec emax m e = true ->
  binary_round prec emax s m e = S754_finite s m e.
Proof.
  unfold bounded, canonical_mantissa. intros H.
  apply andb_prop in H. destruct H as (Hc & Hb).
  apply Z.eqb_eq in Hc. apply Z.leb_le in Hb.
  unfold binary_round. rewrite Hc. unfold shl_align. rewrite Z.sub_diag.
  change (Zpos (digits2_pos m)) with (Zdigits2 (Zpos m)) in Hc.
  rewrite (binary_round_aux_spec emax Hprec s loc_Exact) by lia.
  rewrite Hc. replace (e - e + 2) with (0 + 2) by lia.
  cbn [loc_code]. rewrite Z.add_0_r. fold (rdiv (Zpos m) 0). rewrite rdiv_0.
  unfold sf_norm.
  assert (Hd : Zdigits2 (Zpos m) <= prec).
  { unfold SpecFloat.fexp in Hc. lia. }
  assert (Hlt : Zpos m < 2 ^ prec).
  { assert (Hbd := digits_bounds (m := Zpos m) ltac:(lia)).
    assert (Hdp := digits_pos (m := Zpos m) ltac:(lia)).
    assert (2 ^ Zdigits2 (Zpos m) <= 2 ^ prec) by (apply pow2_le; lia). lia. }
  destruct (Z.eqb_spec (Zpos m) 0); [lia|].
  destruct (Z.eqb_spec (Zpos m) (2 ^ prec)); [lia|].
  destruct (Z.leb_spec e (emax - prec)); [reflexivity | lia].
Qed.

End FloatOrder.

Lemma iter_xO (m d : positive) : Zpos (Pos.iter xO m d) = Zpos m * 2 ^ Zpos d.
Proof.
  induction d as [|d IH] using Pos.peano_ind.
  - simpl Pos.iter. change (2 ^ 1) with 2. lia.
  - rewrite Pos.iter_succ, Pos2Z.inj_xO, IH, Pos2Z.inj_succ.
    unfold Z.succ. rewrite pow2_split by lia. change (2 ^ 1) with 2. ring.
Qed.

Lemma shl_align_le (m : positive) (e e' : Z) :
  e' <= e -> shl_align m e e' = (Z.to_pos (Zpos m * 2 ^ (e - e')), e').
Proof.
  intros H. unfold shl_align.
  destruct (e' - e) as [|d|d] eqn:E; try lia.
  - replace e' with e by lia. rewrite Z.sub_diag. change (2 ^ 0) with 1.
    rewrite Z.mul_1_r. reflexivity.
  - replace (e - e') with (Zpos d) by lia. rewrite <- iter_xO. reflexivity.
Qed.

Lemma shl_align_ge (m : positive) (e e' : Z) :
  e <= e' -> shl_align m e e' = (m, e).
Proof.
  intros H. unfold shl_align. destruct (e' - e) as [|d|d] eqn:E; try lia;
    reflexivity.
Qed.

Section RoundedValues.

Variables prec emax : Z.
Hypothesis Hprec : 0 < prec.

Local Abbreviation fexp := (fexp prec emax).
Local Abbreviation emin := (emin prec emax).

Lemma binary_round_aux_exact (s : bool) (m e : Z) :
  0 < m -> e <= fexp (Zdigits2 m + e) ->
  binary_round_aux prec emax s m e loc_Exact = round_val prec emax s m e.
Proof.
  intros Hm He.
  rewrite (binary_round_aux_spec emax Hprec s loc_Exact
             (Z.lt_le_incl _ _ Hm) He).
  cbn [loc_code]. rewrite Z.add_0_r. reflexivity.
Qed.

Lemma round_val_scale (s : bool) (m e k : Z) :
  0 < m -> 0 <= k -> e <= fexp (Zdigits2 m + e) ->
  round_val prec emax s (m * 2 ^ k) (e - k) = round_val prec emax s m e.
Proof.
  intros Hm Hk He. unfold round_val.
  rewrite digits_mul_pow2 by lia.
  replace (Zdigits2 m + k + (e - k)) with (Zdigits2 m + e) by lia.
  f_equal.
  replace (fexp (Zdigits2 m + e) - (e - k))
    with (fexp (Zdigits2 m + e) - e + k) by lia.
  apply rdiv_scale; lia.
Qed.

Lemma binary_round_shr (s : bool) (m : positive) (e : Z) :
  e <= fexp (Zdigits2 (Zpos m) + e) ->
  binary_round prec emax s m e = round_val prec emax s (Zpos m) e.
Proof.
  intros He. unfold binary_round.
  change (Zpos (digits2_pos m)) with (Zdigits2 (Zpos m)).
  rewrite shl_align_ge by exact He.
  apply binary_round_aux_exact; [lia | exact He].
Qed.

Lemma binary_round_shl (s : bool) (m : positive) (e : Z) :
  fexp (Zdigits2 (Zpos m) + e) <= e ->
  binary_round prec emax s m e
  = sf_norm prec emax s (Zpos m * 2 ^ (e - fexp (Zdigits2 (Zpos m) + e)))
         (fexp (Zdigits2 (Zpos m) + e)).
Proof.
  intros He. unfold binary_round.
  change (Zpos (digits2_pos m)) with (Zdigits2 (Zpos m)).
  rewrite shl_align_le by exact He.
  set (E := fexp (Zdigits2 (Zpos m) + e)) in *.
  assert (Hp := pow2_pos (n := e - E) ltac:(lia)).
  assert (Hpos : 0 < Zpos m * 2 ^ (e - E)) by nia.
  rewrite Z2Pos.id by exact Hpos.
  assert (HD : Zdigits2 (Zpos m * 2 ^ (e - E)) + E = Zdigits2 (Zpos m) + e).
  { rewrite digits_mul_pow2 by lia. lia. }
  rewrite binary_round_aux_exact; [|exact Hpos | rewrite HD; fold E; lia].
  unfold round_val. rewrite HD. fold E. rewrite Z.sub_diag, rdiv_0.
  reflexivity.
Qed.




(** A result in the normal range. *)
Lemma binary_round_aux_normal (q e : Z) (l : location) :
  0 < q -> e <= fexp (Zdigits2 q + e) -> emin <= Zdigits2 q + e - prec ->
  Zdigits2 q + e - prec + 1 <= emax - prec ->
  exists (m : positive) (e' : Z),
    binary_round_aux prec emax false q e l = S754_finite false m e' /\
    Zdigits2 (Zpos m) = prec /\
    Zdigits2 q + e - prec <= e' <= Zdigits2 q + e - prec + 1.
Proof.
  intros Hq He Hlo Hhi.
  assert (HE : fexp (Zdigits2 q + e) = Zdigits2 q + e - prec)
    by (unfold SpecFloat.fexp; lia).
  rewrite (binary_round_aux_spec emax Hprec false l (Z.lt_le_incl _ _ Hq) He).
  set (n := fexp (Zdigits2 q + e) - e).
  assert (Hn : 0 <= n) by (unfold n; lia).
  assert (Hc := loc_code_range l).
  assert (Hb := rne_bounds (4 * q + loc_code l) (n + 2)).
  rewrite div_4_pow2 in Hb by lia.
  assert (Hlt := quotient_lt_pow2 emax Hprec (Z.lt_le_incl _ _ Hq) He). fold n in Hlt.
  assert (Hge := quotient_ge_pow2 emax Hprec Hq He Hlo). fold n in Hge.
  assert (Hpp := pow2_prec Hprec).
  assert (Hp1 := pow2_pos (n := prec - 1) ltac:(lia)).
  set (q' := rne (4 * q + loc_code l) (n + 2)) in *.
  rewrite HE. unfold sf_norm.
  destruct (Z.eqb_spec q' 0) as [E0|N0]; [lia|].
  destruct (Z.eqb_spec q' (2 ^ prec)) as [Ec|Nc].
  - destruct (Z.leb_spec (Zdigits2 q + e - prec + 1) (emax - prec)); [|lia].
    exists (Z.to_pos (2 ^ (prec - 1))), (Zdigits2 q + e - prec + 1).
    split; [reflexivity|]. rewrite Z2Pos.id by lia. split; [|lia].
    apply digits_unique; [lia|]. split; [lia | apply pow2_lt; lia].
  - destruct (Z.leb_spec (Zdigits2 q + e - prec) (emax - prec)); [|lia].
    exists (Z.to_pos q'), (Zdigits2 q + e - prec).
    split; [reflexivity|]. rewrite Z2Pos.id by lia. split; [|lia].
    apply digits_unique; [lia|]. lia.
Qed.

Lemma round_val_normal (x e : Z) :
  0 < x -> e <= fexp (Zdigits2 x + e) -> emin <= Zdigits2 x + e - prec ->
  Zdigits2 x + e - prec + 1 <= emax - prec ->
  exists (m : positive) (e' : Z),
    round_val prec emax false x e = S754_finite false m e' /\
    Zdigits2 (Zpos m) = prec /\
    Zdigits2 x + e - prec <= e' <= Zdigits2 x + e - prec + 1.
Proof.
  intros Hx He Hlo Hhi. rewrite <- (binary_round_aux_exact false Hx He).
  apply binary_round_aux_normal; assumption.
Qed.

(** ** Multiplication and division of positive numbers *)

Lemma SFmul_finite (mx my : positive) (ex ey : Z) :
  ex + ey <= fexp (Zdigits2 (Zpos (mx * my)) + (ex + ey)) ->
  SFmul prec emax (S754_finite false mx ex) (S754_finite false my ey)
  = round_val prec emax false (Zpos (mx * my)) (ex + ey).
Proof.
  intros H. cbn [SFmul xorb]. apply binary_round_aux_exact; [lia | exact H].
Qed.

Lemma SFdiv_normal (mx my : positive) (ex ey : Z) :
  Zdigits2 (Zpos mx) = prec -> Zdigits2 (Zpos my) = prec ->
  emin <= ex - ey - prec -> ex - ey + 2 <= emax ->
  exists (m : positive) (e : Z),
    SFdiv prec emax (S754_finite false mx ex) (S754_finite false my ey)
    = S754_finite false m e /\
    Zdigits2 (Zpos m) = prec /\
    ex - ey - prec <= e <= ex - ey - prec + 2.
Proof.
  intros Hdx Hdy Hlo Hhi.
  cbn [SFdiv xorb]. unfold SFdiv_core_binary.
  rewrite Hdx, Hdy.
  replace (prec + ex - (prec + ey)) with (ex - ey) by lia.
  assert (Hf : fexp (ex - ey) = ex - ey - prec)
    by (unfold SpecFloat.fexp; lia).
  rewrite Hf.
  rewrite Z.min_l by lia.
  replace (ex - ey - (ex - ey - prec)) with prec by lia.
  assert (Hsh : match prec with
                | Zpos _ => Z.shiftl (Zpos mx) prec
                | Z0 => Zpos mx
                | Zneg _ => 0
                end = Zpos mx * 2 ^ prec).
  { destruct prec as [|p|p] eqn:Ep; try lia.
    apply Z.shiftl_mul_pow2. lia. }
  rewrite Hsh. clear Hsh.
  assert (Hbx := digits_bounds (m := Zpos mx) ltac:(lia)).
  assert (Hby := digits_bounds (m := Zpos my) ltac:(lia)).
  rewrite Hdx in Hbx. rewrite Hdy in Hby.
  assert (Hpp := pow2_prec Hprec).
  assert (Hp1 := pow2_pos (n := prec - 1) ltac:(lia)).
  set (q := Zpos mx * 2 ^ prec / Zpos my).
  assert (Hq : Z.div_eucl (Zpos mx * 2 ^ prec) (Zpos my)
               = (q, (Zpos mx * 2 ^ prec) mod Zpos my)).
  { unfold q, Z.div, Z.modulo.
    destruct (Z.div_eucl (Zpos mx * 2 ^ prec) (Zpos my)); reflexivity. }
  rewrite Hq.
  set (l := new_location (Zpos my) ((Zpos mx * 2 ^ prec) mod Zpos my)).
  assert (Hql : 2 ^ (prec - 1) <= q).
  { apply Z.div_le_lower_bound; [lia|]. nia. }
  assert (Hqu : q < 2 ^ (prec + 1)).
  { apply Z.div_lt_upper_bound; [lia|].
    rewrite (@pow2_split prec 1) by lia. change (2 ^ 1) with 2. nia. }
  assert (Hq0 : 0 < q) by lia.
  assert (Hdq : prec <= Zdigits2 q <= prec + 1).
  { split.
    - assert (H := @digits_ge_pow2 q (prec - 1) Hq0 Hql). lia.
    - apply digits_lt_pow2; lia. }
  set (e0 := ex - ey - prec) in *.
  assert (HE : fexp (Zdigits2 q + e0) = Zdigits2 q + e0 - prec)
    by (unfold SpecFloat.fexp; lia).
  assert (He0 : e0 <= fexp (Zdigits2 q + e0)) by lia.
  rewrite (binary_round_aux_spec emax Hprec false l (Z.lt_le_incl _ _ Hq0) He0).
  rewrite HE. set (n := Zdigits2 q + e0 - prec - e0).
  assert (Hn : 0 <= n <= 1) by (unfold n; lia).
  assert (Hc := loc_code_range l).
  assert (Hb := rne_bounds (4 * q + loc_code l) (n + 2)).
  rewrite div_4_pow2 in Hb by lia.
  assert (Hlt := quotient_lt_pow2 emax Hprec (Z.lt_le_incl _ _ Hq0) He0).
  rewrite HE in Hlt. fold n in Hlt.
  assert (Hge := quotient_ge_pow2 emax Hprec Hq0 He0 ltac:(lia)).
  rewrite HE in Hge. fold n in Hge.
  set (q' := rne (4 * q + loc_code l) (n + 2)) in *.
  unfold sf_norm.
  destruct (Z.eqb_spec q' 0) as [E0|N0]; [lia|].
  destruct (Z.eqb_spec q' (2 ^ prec)) as [Ec|Nc].
  - destruct (Z.leb_spec (Zdigits2 q + e0 - prec + 1) (emax - prec)); [|lia].
    exists (Z.to_pos (2 ^ (prec - 1))), (Zdigits2 q + e0 - prec + 1).
    split; [reflexivity|]. rewrite Z2Pos.id by lia. split; [|lia].
    apply digits_unique; [lia|]. split; [lia | apply pow2_lt; lia].
  - destruct (Z.leb_spec (Zdigits2 q + e0 - prec) (emax - prec)); [|lia].
    exists (Z.to_pos q'), (Zdigits2 q + e0 - prec).
    split; [reflexivity|]. rewrite Z2Pos.id by lia. split; [|lia].
    apply digits_unique; [lia|]. lia.
Qed.

(** The quotient of two normal numbers, with the integer quotient of the
    mantissas that it rounds. *)
Lemma SFdiv_enclosure (mx my : positive) (ex ey : Z) :
  Zdigits2 (Zpos mx) = prec -> Zdigits2 (Zpos my) = prec ->
  emin <= ex - ey - prec -> ex - ey + 2 <= emax ->
  exists (m : positive) (k : Z),
    SFdiv prec emax (S754_finite false mx ex) (S754_finite false my ey)
    = S754_finite false m (ex - ey - prec + k) /\
    Zdigits2 (Zpos m) = prec /\ 0 <= k <= 2 /\
    Zpos mx * 2 ^ prec / Zpos my - 2 < Zpos m * 2 ^ k
    <= Zpos mx * 2 ^ prec / Zpos my + 2.
Proof.
  intros Hdx Hdy Hlo Hhi.
  cbn [SFdiv xorb]. unfold SFdiv_core_binary.
  rewrite Hdx, Hdy.
  replace (prec + ex - (prec + ey)) with (ex - ey) by lia.
  assert (Hf : fexp (ex - ey) = ex - ey - prec)
    by (unfold SpecFloat.fexp; lia).
  rewrite Hf.
  rewrite Z.min_l by lia.
  replace (ex - ey - (ex - ey - prec)) with prec by lia.
  assert (Hsh : match prec with
                | Zpos _ => Z.shiftl (Zpos mx) prec
                | Z0 => Zpos mx
                | Zneg _ => 0
                end = Zpos mx * 2 ^ prec).
  { destruct prec as [|p|p] eqn:Ep; try lia.
    apply Z.shiftl_mul_pow2. lia. }
  rewrite Hsh. clear Hsh.
  assert (Hbx := digits_bounds (m := Zpos mx) ltac:(lia)).
  assert (Hby := digits_bounds (m := Zpos my) ltac:(lia)).
  rewrite Hdx in Hbx. rewrite Hdy in Hby.
  assert (Hpp := pow2_prec Hprec).
  assert (Hp1 := pow2_pos (n := prec - 1) ltac:(lia)).
  set (q := Zpos mx * 2 ^ prec / Zpos my).
  assert (Hq : Z.div_eucl (Zpos mx * 2 ^ prec) (Zpos my)
               = (q, (Zpos mx * 2 ^ prec) mod Zpos my)).
  { unfold q, Z.div, Z.modulo.
    destruct (Z.div_eucl (Zpos mx * 2 ^ prec) (Zpos my)); reflexivity. }
  rewrite Hq.
  set (l := new_location (Zpos my) ((Zpos mx * 2 ^ prec) mod Zpos my)).
  assert (Hql : 2 ^ (prec - 1) <= q).
  { apply Z.div_le_lower_bound; [lia|]. nia. }
  assert (Hqu : q < 2 ^ (prec + 1)).
  { apply Z.div_lt_upper_bound; [lia|].
    rewrite (@pow2_split prec 1) by lia. change (2 ^ 1) with 2. nia. }
  assert (Hq0 : 0 < q) by lia.
  assert (Hdq : prec <= Zdigits2 q <= prec + 1).
  { split.
    - assert (H := @digits_ge_pow2 q (prec - 1) Hq0 Hql). lia.
    - apply digits_lt_pow2; lia. }
  set (e0 := ex - ey - prec) in *.
  assert (HE : fexp (Zdigits2 q + e0) = Zdigits2 q + e0 - prec)
    by (unfold SpecFloat.fexp; lia).
  assert (He0 : e0 <= fexp (Zdigits2 q + e0)) by lia.
  rewrite (binary_round_aux_spec emax Hprec false l (Z.lt_le_incl _ _ Hq0) He0).
  rewrite HE. set (n := Zdigits2 q + e0 - prec - e0).
  assert (Hn : 0 <= n <= 1) by (unfold n; lia).
  assert (Hc := loc_code_range l).
  assert (Hb := rne_bounds (4 * q + loc_code l) (n + 2)).
  rewrite div_4_pow2 in Hb by lia.
  assert (Hlt := quotient_lt_pow2 emax Hprec (Z.lt_le_incl _ _ Hq0) He0).
  rewrite HE in Hlt. fold n in Hlt.
  assert (Hge := quotient_ge_pow2 emax Hprec Hq0 He0 ltac:(lia)).
  rewrite HE in Hge. fold n in Hge.
  set (q' := rne (4 * q + loc_code l) (n + 2)) in *.
  assert (Henc : q - 2 < q' * 2 ^ n <= q + 2).
  { destruct (Z.eq_dec n 0) as [N0|N0].
    - rewrite N0 in *. change (2 ^ 0) with 1 in *.
      rewrite Z.div_1_r in Hb. lia.
    - replace n with 1 in * by lia. change (2 ^ 1) with 2 in *.
      assert (Hdm := Z.div_mod q 2 ltac:(lia)).
      assert (Hr := Z.mod_pos_bound q 2 ltac:(lia)). lia. }
  unfold sf_norm.
  destruct (Z.eqb_spec q' 0) as [E0|N0]; [lia|].
  destruct (Z.eqb_spec q' (2 ^ prec)) as [Ec|Nc].
  - destruct (Z.leb_spec (Zdigits2 q + e0 - prec + 1) (emax - prec)); [|lia].
    exists (Z.to_pos (2 ^ (prec - 1))), (n + 1).
    split; [f_equal; unfold n; lia|]. rewrite Z2Pos.id by lia.
    split; [apply digits_unique; [lia|]; split; [lia | apply pow2_lt; lia]|].
    split; [lia|].
    replace (2 ^ (prec - 1) * 2 ^ (n + 1)) with (q' * 2 ^ n); [exact Henc|].
    rewrite Ec. rewrite (@pow2_split n 1) by lia. change (2 ^ 1) with 2.
    replace prec with ((prec - 1) + 1) at 1 by lia.
    rewrite (@pow2_split (prec - 1) 1) by lia. change (2 ^ 1) with 2. ring.
  - destruct (Z.leb_spec (Zdigits2 q + e0 - prec) (emax - prec)); [|lia].
    exists (Z.to_pos q'), n.
    split; [f_equal; unfold n; lia|]. rewrite Z2Pos.id by lia.
    split; [apply digits_unique; [lia|]; lia|].
    split; [lia | exact Henc].
Qed.

End RoundedValues.

Section ResultDigits.

Variables prec emax : Z.
Hypothesis Hprec : 0 < prec.

Local Abbreviation fexp := (fexp prec emax).
Local Abbreviation emin := (emin prec emax).



End ResultDigits.

Lemma prec53 : 0 < 53. Proof. reflexivity. Qed.

Lemma bounded_float32 (m : positive) (e : Z) :
  bounded 24 128 m e = true ->
  Zdigits2 (Zpos m) <= 24 /\ -149 <= e <= 104.
Proof.
  unfold bounded, canonical_mantissa, fexp, emin. intros H.
  apply andb_prop in H. destruct H as (Hc & Hb).
  apply Z.eqb_eq in Hc. apply Z.leb_le in Hb.
  change (Zpos (digits2_pos m)) with (Zdigits2 (Zpos m)) in Hc. lia.
Qed.

Lemma bounded_binary64 (m : positive) (e : Z) :
  Zdigits2 (Zpos m) = 53 -> -1074 <= e <= 971 -> bounded 53 1024 m e = true.
Proof.
  intros Hd He. unfold bounded, canonical_mantissa, fexp, emin.
  change (Zpos (digits2_pos m)) with (Zdigits2 (Zpos m)). rewrite Hd.
  apply andb_true_intro. split; [apply Z.eqb_eq | apply Z.leb_le]; lia.
Qed.

Lemma to_float64_binary64 (s : bool) (m : positive) (e : Z) :
  Zdigits2 (Zpos m) = 53 -> -1074 <= e <= 971 ->
  Float.to_float64 (S754_finite s m e) = S754_finite s m e.
Proof.
  intros Hd He. unfold Float.to_float64, Float.convert.
  apply (binary_round_bounded 1024 prec53), bounded_binary64; assumption.
Qed.


(** A float32 number is a binary64 number. *)
Lemma to_float64_float32 (m : positive) (e : Z) :
  bounded 24 128 m e = true ->
  exists (m' : positive) (e' : Z),
    Float.to_float64 (S754_finite false m e) = S754_finite false m' e' /\
    Zdigits2 (Zpos m') = 53 /\ -201 <= e' <= 75.
Proof.
  intros H. destruct (bounded_float32 _ _ H) as (Hd & He).
  assert (Hdp := digits_pos (m := Zpos m) ltac:(lia)).
  unfold Float.to_float64, Float.convert.
  assert (HE : fexp 53 1024 (Zdigits2 (Zpos m) + e) = Zdigits2 (Zpos m) + e - 53)
    by (unfold fexp, emin; lia).
  rewrite (binary_round_shl 1024 prec53) by lia.
  rewrite HE.
  replace (e - (Zdigits2 (Zpos m) + e - 53)) with (53 - Zdigits2 (Zpos m)) by lia.
  set (k := 53 - Zdigits2 (Zpos m)).
  assert (Hk := pow2_pos (n := k) ltac:(unfold k; lia)).
  assert (Hdm : Zdigits2 (Zpos m * 2 ^ k) = 53).
  { rewrite digits_mul_pow2 by (unfold k; lia). unfold k. lia. }
  assert (Hb := digits_bounds (m := Zpos m * 2 ^ k) ltac:(nia)).
  rewrite Hdm in Hb.
  unfold sf_norm.
  destruct (Z.eqb_spec (Zpos m * 2 ^ k) 0); [nia|].
  destruct (Z.eqb_spec (Zpos m * 2 ^ k) (2 ^ 53)); [lia|].
  destruct (Z.leb_spec (Zdigits2 (Zpos m) + e - 53) (1024 - 53)); [|lia].
  eexists _, _. split; [reflexivity|].
  rewrite Z2Pos.id by nia. split; [exact Hdm | lia].
Qed.

(** A small positive Python int as a binary64 number. *)
Lemma of_int_binary64 (i : Z) :
  0 < i < 2 ^ 53 ->
  binary_normalize 53 1024 i 0 false
  = S754_finite false (Z.to_pos (i * 2 ^ (53 - Zdigits2 i))) (Zdigits2 i - 53).
Proof.
  intros Hi. destruct i as [|p|p]; try lia. cbn [binary_normalize].
  assert (Hd : Zdigits2 (Zpos p) <= 53) by (apply digits_lt_pow2; lia).
  assert (Hdp := digits_pos (m := Zpos p) ltac:(lia)).
  assert (HE : fexp 53 1024 (Zdigits2 (Zpos p) + 0) = Zdigits2 (Zpos p) - 53)
    by (unfold fexp, emin; lia).
  rewrite (binary_round_shl 1024 prec53) by lia.
  rewrite HE.
  replace (0 - (Zdigits2 (Zpos p) - 53)) with (53 - Zdigits2 (Zpos p)) by lia.
  set (k := 53 - Zdigits2 (Zpos p)).
  assert (Hk := pow2_pos (n := k) ltac:(unfold k; lia)).
  assert (Hdm : Zdigits2 (Zpos p * 2 ^ k) = 53).
  { rewrite digits_mul_pow2 by (unfold k; lia). unfold k. lia. }
  assert (Hb := digits_bounds (m := Zpos p * 2 ^ k) ltac:(nia)).
  rewrite Hdm in Hb.
  unfold sf_norm.
  destruct (Z.eqb_spec (Zpos p * 2 ^ k) 0); [nia|].
  destruct (Z.eqb_spec (Zpos p * 2 ^ k) (2 ^ 53)); [lia|].
  destruct (Z.leb_spec (Zdigits2 (Zpos p) - 53) (1024 - 53)); [|lia].
  reflexivity.
Qed.

(** ** The threshold loop under numpy 1.x *)

Lemma of_int_200 :
  Float.to_float64 (binary_normalize 53 1024 200 0 false) = C200.
Proof. vm_compute. reflexivity. Qed.

Lemma step_form (mM : positive) (eM : Z) :
  Zdigits2 (Zpos mM) = 53 -> -201 <= eM <= 75 ->
  exists (ms : positive) (es : Z),
    SFdiv 53 1024 (S754_finite false mM eM) C200 = S754_finite false ms es /\
    Zdigits2 (Zpos ms) = 53 /\ eM - 8 <= es <= eM - 6.
Proof.
  intros Hd He. unfold C200.
  destruct (@SFdiv_normal 53 1024 prec53 mM 7036874417766400 eM (-45))
    as (ms & es & H1 & H2 & H3); try assumption; try reflexivity;
    try (unfold emin; lia).
  exists ms, es. split; [exact H1|]. split; [exact H2 | lia].
Qed.

Lemma ceil_intp_small (mv : positive) (ev : Z) :
  Zdigits2 (Zpos mv) = 53 -> -47 <= ev <= -43 ->
  exists c, Float.ceil_intp (S754_finite false mv ev) = Intp c /\ 0 < c <= 1024.
Proof.
  intros Hd He. destruct ev as [|k|k]; try lia.
  cbn [Float.ceil_intp].
  assert (Hb := digits_bounds (m := Zpos mv) ltac:(lia)). rewrite Hd in Hb.
  change (2 ^ (53 - 1)) with 4503599627370496 in Hb.
  change (2 ^ 53) with 9007199254740992 in Hb.
  assert (Hk1 : 2 ^ 43 <= 2 ^ Zpos k) by (apply pow2_le; lia).
  assert (Hk2 : 2 ^ Zpos k <= 2 ^ 47) by (apply pow2_le; lia).
  change (2 ^ 43) with 8796093022208 in Hk1.
  change (2 ^ 47) with 140737488355328 in Hk2.
  set (b := 2 ^ Zpos k) in *.
  assert (Hdm := Z.div_mod (- Zpos mv) b ltac:(lia)).
  assert (Hr := Z.mod_pos_bound (- Zpos mv) b ltac:(lia)).
  set (q := - Zpos mv / b) in *.
  assert (Hc : 0 < - q <= 1024) by nia.
  exists (- q). split; [|exact Hc].
  change (- 2 ^ 63) with (-9223372036854775808).
  change (2 ^ 63 - 1) with 9223372036854775807.
  destruct (Z.leb_spec (-9223372036854775808) (- q)); [|lia].
  destruct (Z.leb_spec (- q) 9223372036854775807); [|lia].
  reflexivity.
Qed.

Lemma len_form (mM ms : positive) (eM es : Z) :
  Zdigits2 (Zpos mM) = 53 -> Zdigits2 (Zpos ms) = 53 ->
  -201 <= eM <= 75 -> eM - 8 <= es <= eM - 6 ->
  exists c,
    Float.ceil_intp (SFdiv 53 1024 (S754_finite false mM eM)
                           (S754_finite false ms es)) = Intp c /\
    0 < c <= 1024.
Proof.
  intros HdM Hds HeM Hes.
  destruct (@SFdiv_normal 53 1024 prec53 mM ms eM es)
    as (mv & ev & H1 & H2 & H3); try assumption; try (unfold emin; lia).
  rewrite H1. apply ceil_intp_small; [exact H2 | lia].
Qed.

(** The ceiling of a number between 199 and 201. *)
Lemma ceil_intp_200 (mv : positive) (ev : Z) :
  ev < 0 -> 199 * 2 ^ (- ev) < Zpos mv <= 201 * 2 ^ (- ev) ->
  exists c, Float.ceil_intp (S754_finite false mv ev) = Intp c /\
            (c = 200 \/ c = 201).
Proof.
  intros He Hm. destruct ev as [|k|k]; try lia.
  cbn [Float.ceil_intp].
  change (- Zneg k) with (Zpos k) in Hm.
  assert (Hb : 0 < 2 ^ Zpos k) by (apply Z.pow_pos_nonneg; lia).
  set (b := 2 ^ Zpos k) in *.
  assert (Hdm := Z.div_mod (- Zpos mv) b ltac:(lia)).
  assert (Hr := Z.mod_pos_bound (- Zpos mv) b ltac:(lia)).
  set (q := - Zpos mv / b) in *.
  assert (Hc : - q = 200 \/ - q = 201) by nia.
  exists (- q). split; [|exact Hc].
  change (- 2 ^ 63) with (-9223372036854775808).
  change (2 ^ 63 - 1) with 9223372036854775807.
  destruct (Z.leb_spec (-9223372036854775808) (- q)); [|lia].
  destruct (Z.leb_spec (- q) 9223372036854775807); [|lia].
  reflexivity.
Qed.

(** The step and the length of the range: [max_density / 200] is a normal
    binary64 number, and the quotient of [max_density] by it lies within a
    few units in the last place of 200. *)
Lemma count_form (mM : positive) (eM : Z) :
  Zdigits2 (Zpos mM) = 53 -> -201 <= eM <= 75 ->
  exists (ms : positive) (es c : Z),
    SFdiv 53 1024 (S754_finite false mM eM) C200 = S754_finite false ms es /\
    Zdigits2 (Zpos ms) = 53 /\ eM - 8 <= es <= eM - 6 /\
    Float.ceil_intp (SFdiv 53 1024 (S754_finite false mM eM)
                           (S754_finite false ms es)) = Intp c /\
    (c = 200 \/ c = 201).
Proof.
  intros Hd He. unfold C200.
  destruct (@SFdiv_enclosure 53 1024 prec53 mM 7036874417766400 eM (-45))
    as (ms & k1 & H1 & Hds & Hk1 & Hs); try assumption; try reflexivity;
    try (unfold emin; lia).
  set (es := eM - -45 - 53 + k1) in *.
  destruct (@SFdiv_enclosure 53 1024 prec53 mM ms eM es)
    as (mv & k2 & H2 & Hdv & Hk2 & Hv); try assumption;
    try (unfold emin, es; lia).
  exists ms, es.
  assert (HbM := digits_bounds (m := Zpos mM) ltac:(lia)). rewrite Hd in HbM.
  assert (Hbs := digits_bounds (m := Zpos ms) ltac:(lia)). rewrite Hds in Hbs.
  change (2 ^ (53 - 1)) with 4503599627370496 in *.
  change (2 ^ 53) with 9007199254740992 in *.
  (* the first quotient *)
  assert (Hdm1 := Z.div_mod (Zpos mM * 9007199254740992) 7036874417766400
                    ltac:(lia)).
  assert (Hr1 := Z.mod_pos_bound (Zpos mM * 9007199254740992)
                   7036874417766400 ltac:(lia)).
  set (q1 := Zpos mM * 9007199254740992 / 7036874417766400) in *.
  set (r1 := (Zpos mM * 9007199254740992) mod 7036874417766400) in *.
  (* the second quotient *)
  assert (Hdm2 := Z.div_mod (Zpos mM * 9007199254740992) (Zpos ms)
                    ltac:(lia)).
  assert (Hr2 := Z.mod_pos_bound (Zpos mM * 9007199254740992) (Zpos ms)
                   ltac:(lia)).
  set (q2 := Zpos mM * 9007199254740992 / Zpos ms) in *.
  set (r2 := (Zpos mM * 9007199254740992) mod Zpos ms) in *.
  assert (Hq2 : 7036874417766400 * 2 ^ k1 - 5 < q2
                < 7036874417766400 * 2 ^ k1 + 5).
  { assert (Hk : k1 = 0 \/ k1 = 1 \/ k1 = 2) by lia.
    destruct Hk as [-> | [-> | ->]];
      [change (2 ^ 0) with 1 in * | change (2 ^ 1) with 2 in *
       | change (2 ^ 2) with 4 in *]; nia. }
  rewrite H2.
  assert (Hev : eM - es - 53 + k2 = -45 - k1 + k2) by (unfold es; lia).
  rewrite Hev.
  destruct (@ceil_intp_200 mv (-45 - k1 + k2)) as (c & Hc & Hc2).
  - lia.
  - assert (Hk : k1 = 0 \/ k1 = 1 \/ k1 = 2) by lia.
    assert (Hk' : k2 = 0 \/ k2 = 1 \/ k2 = 2) by lia.
    destruct Hk as [-> | [-> | ->]], Hk' as [-> | [-> | ->]];
      cbn [Z.add Z.sub Z.opp Z.pos_sub Pos.add Pos.succ Pos.pred_double
           Z.succ_double Z.pred_double Z.double Pos.add_carry] in *;
      match goal with
      | |- context [2 ^ ?n] =>
          let v := eval vm_compute in (2 ^ n) in change (2 ^ n) with v
      end;
      repeat match goal with
      | H : context [2 ^ ?n] |- _ =>
          let v := eval vm_compute in (2 ^ n) in change (2 ^ n) with v in H
      end; lia.
  - exists c. repeat split; try assumption; unfold es; lia.
Qed.

Lemma round_val_id (m : positive) (e : Z) :
  Zdigits2 (Zpos m) = 53 -> -1074 <= e <= 971 ->
  round_val 53 1024 false (Zpos m) e = S754_finite false m e.
Proof.
  intros Hd He.
  rewrite <- (binary_round_shr 1024 prec53 false)
    by (rewrite Hd; unfold fexp, emin; lia).
  apply (binary_round_bounded 1024 prec53), bounded_binary64; assumption.
Qed.

Lemma digits_product (ms : positive) (i : Z) :
  Zdigits2 (Zpos ms) = 53 -> 0 < i ->
  53 <= Zdigits2 (i * Zpos ms) <= Zdigits2 i + 53.
Proof.
  intros Hd Hi.
  assert (Hb := digits_bounds (m := Zpos ms) ltac:(lia)). rewrite Hd in Hb.
  assert (Hbi := digits_bounds Hi).
  assert (Hdi := digits_pos Hi).
  split.
  - rewrite <- Hd. apply digits_le; [lia | nia].
  - apply digits_lt_pow2; [nia | lia |].
    rewrite pow2_split by lia. nia.
Qed.

Lemma product_form (ms : positive) (es i : Z) :
  Zdigits2 (Zpos ms) = 53 -> -1000 <= es <= 900 -> 0 < i < 2 ^ 53 ->
  SFmul 53 1024 (Float.to_float64 (binary_normalize 53 1024 i 0 false))
        (Float.to_float64 (S754_finite false ms es))
  = round_val 53 1024 false (i * Zpos ms) es.
Proof.
  intros Hd He Hi. rewrite (of_int_binary64 Hi).
  assert (Hdi : Zdigits2 i <= 53) by (apply digits_lt_pow2; lia).
  assert (Hdp := digits_pos (m := i) ltac:(lia)).
  set (k := 53 - Zdigits2 i).
  assert (Hk := pow2_pos (n := k) ltac:(unfold k; lia)).
  assert (Hpos : 0 < i * 2 ^ k) by nia.
  assert (Hdk : Zdigits2 (Zpos (Z.to_pos (i * 2 ^ k))) = 53).
  { rewrite Z2Pos.id by exact Hpos.
    rewrite digits_mul_pow2 by (unfold k; lia). unfold k. lia. }
  rewrite !to_float64_binary64 by (assumption || lia).
  assert (Hprod : Zpos (Z.to_pos (i * 2 ^ k) * ms) = i * Zpos ms * 2 ^ k).
  { rewrite Pos2Z.inj_mul, Z2Pos.id by exact Hpos. ring. }
  destruct (@digits_product ms (i) Hd ltac:(lia)) as (Hp1 & Hp2).
  assert (Hshift : es <= fexp 53 1024 (Zdigits2 (i * Zpos ms) + es))
    by (unfold fexp, emin; lia).
  rewrite (SFmul_finite 1024 prec53).
  - rewrite Hprod.
    replace (Zdigits2 i - 53 + es) with (es - k) by (unfold k; lia).
    apply round_val_scale; [nia | unfold k; lia | exact Hshift].
  - rewrite Hprod. rewrite digits_mul_pow2 by (nia || (unfold k; lia)).
    unfold fexp, emin in *. unfold k. lia.
Qed.

Lemma threshold1_normal (ms : positive) (es : Z) (i : nat) :
  Zdigits2 (Zpos ms) = 53 -> -1000 <= es <= 900 -> (0 < i <= 1024)%nat ->
  exists (m : positive) (e : Z),
    threshold1 ms es i = S754_finite false m e /\
    Zdigits2 (Zpos m) = 53 /\ es <= e <= es + 12.
Proof.
  intros Hd He Hi. destruct i as [|i]; [lia|].
  unfold threshold1.
  destruct (@digits_product ms (Z.of_nat (S i)) Hd ltac:(lia)) as (Hp1 & Hp2).
  assert (Hdi : Zdigits2 (Z.of_nat (S i)) <= 11).
  { apply digits_lt_pow2; lia. }
  assert (Hx : 0 < Z.of_nat (S i) * Zpos ms) by nia.
  assert (H1' : es <= fexp 53 1024 (Zdigits2 (Z.of_nat (S i) * Zpos ms) + es))
    by (unfold fexp, emin; lia).
  assert (H2' : emin 53 1024 <= Zdigits2 (Z.of_nat (S i) * Zpos ms) + es - 53)
    by (unfold emin; lia).
  assert (H3' : Zdigits2 (Z.of_nat (S i) * Zpos ms) + es - 53 + 1 <= 1024 - 53)
    by lia.
  destruct (@round_val_normal 53 1024 prec53 _ _ Hx H1' H2' H3')
    as (m & e & H1 & H2 & H3).
  exists m, e. split; [exact H1|]. split; [exact H2 | lia].
Qed.


Lemma fold_maximum_in {num} {A : Arith num} (r : list num) (x : num) :
  In (fold_left maximum r x) (x :: r).
Proof.
  revert x; induction r as [|y r IH]; intros x; [left; reflexivity|].
  cbn [fold_left]. destruct (IH (maximum x y)) as [H|H].
  - rewrite <- H. unfold maximum.
    destruct (negb (leb x x)); [left; reflexivity|].
    destruct (ltb y x); [left | right; left]; reflexivity.
  - right; right; exact H.
Qed.

Lemma np_max_in {num} {A : Arith num} (ld : list num) (M : num) :
  np_max ld = Ok M -> In M ld.
Proof.
  destruct ld as [|x r]; [discriminate|]. cbn [np_max].
  intros H. injection H as <-. apply fold_maximum_in.
Qed.







Lemma numpy1_item (ms : positive) (es : Z) (i : nat) :
  Zdigits2 (Zpos ms) = 53 -> -1000 <= es <= 900 -> (i <= 1024)%nat ->
  @arange_item _ Float.numpy1 (@of_int _ Float.numpy1 0)
     (@add _ Float.numpy1 (@of_int _ Float.numpy1 0) (S754_finite false ms es)) i
  = threshold1 ms es i.
Proof.
  intros Hd He Hi.
  assert (Hnext : @add _ Float.numpy1 (@of_int _ Float.numpy1 0)
                    (S754_finite false ms es) = S754_finite false ms es).
  { cbn [add of_int Float.numpy1 binary_normalize].
    rewrite to_float64_binary64 by (assumption || lia). reflexivity. }
  rewrite Hnext.
  destruct i as [|[|i]].
  - reflexivity.
  - cbn [arange_item threshold1].
    change (Z.of_nat 1 * Zpos ms) with (Zpos ms).
    symmetry. apply round_val_id; [exact Hd | lia].
  - cbn [arange_item threshold1].
    cbn [add sub mul of_int Float.numpy1].
    change (binary_normalize 53 1024 0 0 false) with (S754_zero false).
    change (Float.to_float64 (S754_zero false)) with (S754_zero false).
    rewrite (@to_float64_binary64 false ms es Hd) by lia.
    change (SFsub 53 1024 (S754_finite false ms es) (S754_zero false))
      with (S754_finite false ms es).
    rewrite product_form by (assumption || lia).
    destruct (@threshold1_normal ms es (S (S i)) Hd He ltac:(lia))
      as (m & e & Hm & Hdm & Hem).
    cbn [threshold1] in Hm. rewrite Hm.
    rewrite to_float64_binary64 by (assumption || lia). reflexivity.
Qed.

Lemma numpy1_zero_max (s : bool) :
  @arange _ Float.numpy1 (@of_int _ Float.numpy1 0) (S754_zero s)
          (@div _ Float.numpy1 (S754_zero s) (@of_int _ Float.numpy1 200))
  = Raise (ValueError "arange: cannot compute length").
Proof. destruct s; vm_compute; reflexivity. Qed.

(** The volumes of the loop under numpy 1.x, from the maximum. *)
Lemma numpy1_loop_max (ld : list spec_float) (m : positive) (e : Z) :
  bounded 24 128 m e = true ->
  @np_max _ Float.numpy1 ld = Ok (S754_finite false m e) ->
  exists (ms : positive) (es : Z) (n : nat),
    Zdigits2 (Zpos ms) = 53 /\ -1000 <= es <= 900 /\
    (n = 200 \/ n = 201)%nat /\
    @threshold_loop _ Float.numpy1 ld
    = Ok (map (fun i => Volume i (threshold1 ms es i)
                          (astype_int32
                             (@ge_mask _ Float.numpy1 ld (threshold1 ms es i))))
              (seq 0 n)).
Proof.
  intros HM Hmax. unfold threshold_loop. rewrite Hmax. cbn [rbind].
  destruct (@to_float64_float32 m e HM) as (mM & eM & HM64 & HdM & HeM).
  destruct (@count_form mM eM HdM HeM)
    as (ms & es & c & Hstep & Hds & Hes & Hc & Hcr).
  assert (Hdiv : @div _ Float.numpy1 (S754_finite false m e)
                   (@of_int _ Float.numpy1 200) = S754_finite false ms es).
  { cbn [div of_int Float.numpy1]. rewrite HM64, of_int_200. exact Hstep. }
  rewrite Hdiv.
  assert (Hlen : @ceil_quot _ Float.numpy1
                   (@sub _ Float.numpy1 (S754_finite false m e)
                         (@of_int _ Float.numpy1 0))
                   (S754_finite false ms es) = Intp c).
  { cbn [ceil_quot sub of_int Float.numpy1].
    change (binary_normalize 53 1024 0 0 false) with (S754_zero false).
    change (Float.to_float64 (S754_zero false)) with (S754_zero false).
    rewrite HM64.
    change (SFsub 53 1024 (S754_finite false mM eM) (S754_zero false))
      with (S754_finite false mM eM).
    rewrite !to_float64_binary64 by (assumption || lia). exact Hc. }
  unfold arange. rewrite Hlen.
  destruct (Z.leb_spec c 0) as [Hle|_]; [lia|]. cbn [rbind].
  exists ms, es, (Z.to_nat c).
  split; [exact Hds|]. split; [lia|]. split; [lia|].
  f_equal.
  rewrite (map_ext_in _ (threshold1 ms es)).
  - rewrite enumerate_map_seq, map_map. reflexivity.
  - intros i Hi. apply in_seq in Hi.
    apply numpy1_item; [exact Hds | lia | lia].
Qed.





(** ** The threshold loop under numpy 2 *)













(** X20.  Under numpy 1.x, a float32 volume whose maximum is positive
    gives 200 or 201 volumes, and both counts occur; a volume whose maximum
    is zero gives none, as [np.arange] raises. *)
Theorem numpy1_volume_count :
  (forall (ld : list spec_float) (M : spec_float),
      forallb float32_nonneg ld = true ->
      @np_max _ Float.numpy1 ld = Ok M ->
      if SFltb (S754_zero false) M
      then exists vols, @threshold_loop _ Float.numpy1 ld = Ok vols /\
                        (List.length vols = 200 \/ List.length vols = 201)%nat
      else @threshold_loop _ Float.numpy1 ld
           = Raise (ValueError "arange: cannot compute length")) /\
  (exists vols, @threshold_loop _ Float.numpy1 rounded_down = Ok vols /\
                List.length vols = 201%nat) /\
  (exists vols, @threshold_loop _ Float.numpy1 just_above = Ok vols /\
                List.length vols = 200%nat).
Proof.
  split; [|split].
  - intros ld M Hld Hmax.
    assert (HM : float32_nonneg M = true).
    { rewrite forallb_forall in Hld. apply Hld.
      apply (@np_max_in _ Float.numpy1 ld _ Hmax). }
    destruct M as [s|s| |[|] m e]; try discriminate.
    + replace (SFltb (S754_zero false) (S754_zero s)) with false
        by (destruct s; reflexivity).
      unfold threshold_loop. rewrite Hmax. cbn [rbind].
      rewrite numpy1_zero_max. reflexivity.
    + change (SFltb (S754_zero false) (S754_finite false m e)) with true.
      cbn iota. cbn [float32_nonneg] in HM.
      destruct (numpy1_loop_max ld HM Hmax) as (ms & es & n & _ & _ & Hn & Hl).
      eexists. split; [exact Hl|].
      rewrite List.length_map, List.length_seq. exact Hn.
  - eexists. split; [vm_compute; reflexivity | reflexivity].
  - eexists. split; [vm_compute; reflexivity | reflexivity].
Qed.

Lemma numpy1_volume_count_witness :
  exists vols, @threshold_loop _ Float.numpy1 rounded_down = Ok vols /\
               (List.length vols = 200 \/ List.length vols = 201)%nat.
Proof.
  exact (proj1 numpy1_volume_count rounded_down
               (S754_finite false 13670777 (-24)) eq_refl eq_refl).
Defined.




End Rounding.
